(** * Adolphus: fuzzy camera-network coverage, verified against its code

    A shallow embedding of [adolphus/coverage.py] ([Camera], [MultiCamera])
    and of [adolphus/laser.py] ([RangeModel.project],
    [RangeModel.range_coverage]).

    Conventions of the embedding.
    - Python floats are idealised as real numbers ([R]); rounding, infinities
      and NaN are outside the model.  A division [a / b] raises
      [ZeroDivisionError] when [b] is zero, as Python's does.
    - An exception is a value of [exn]; pure code lives in [result],
      code that mutates [self] lives in the state-and-exception monad [M],
      whose final state is returned on the exceptional path too (a Python
      exception does not roll mutations back).
    - The modules [geometry], [scene] and [posable] of the repository and the
      external package [fuzz] are not embedded from code; the interface the
      code uses of them is collected in the classes [Geometry] and
      [TriangleModel] and in the definitions marked as modelled from the
      specification.  Fuzzy sets are values: [a |= b] and [a &= b] bind the
      name on the left to a new set and leave every other reference to the
      old one as it was.
    - A camera is stored in the network under its key together with its
      attribute [inscene]; one camera object bound to two keys is not
      modelled. *)

From Stdlib Require Import Reals Lra List ZArith Lia String Bool.
Import ListNotations.
Open Scope R_scope.


(** ** Python exceptions and results *)

Inductive exn : Type :=
| TypeError
| ZeroDivisionError
| ValueError
| NameError
| AttributeError
| KeyError
| IndexError
| OverflowError.

Inductive result (A : Type) : Type :=
| Ok (a : A)
| Raise (e : exn).

Arguments Ok {A} a.
Arguments Raise {A} e.

Definition rbind {A B : Type} (r : result A) (k : A -> result B) : result B :=
  match r with
  | Ok a => k a
  | Raise e => Raise e
  end.

Declare Scope result_scope.
Delimit Scope result_scope with res.
Notation "x <- c ;; k" := (rbind c (fun x => k))
  (at level 61, c at next level, right associativity) : result_scope.

(** [try: body except ZeroDivisionError: fallback]. *)
Definition except_ZeroDivisionError (body : result R) (fallback : R) : result R :=
  match body with
  | Raise ZeroDivisionError => Ok fallback
  | other => other
  end.

(** Python's [a / b] on numbers. *)
Definition py_div (a b : R) : result R :=
  if Req_dec_T b 0 then Raise ZeroDivisionError else Ok (a / b).

(** Python's [min] of a list: [ValueError] on the empty list. *)
Fixpoint min_list (d : R) (l : list R) : R :=
  match l with
  | [] => d
  | x :: l' => min_list (Rmin d x) l'
  end.

Definition py_min (l : list R) : result R :=
  match l with
  | [] => Raise ValueError
  | x :: l' => Ok (min_list x l')
  end.

(** A list comprehension whose element expression may raise. *)
Fixpoint comprehension {A B : Type} (f : A -> result B) (l : list A)
  : result (list B) :=
  match l with
  | [] => Ok []
  | a :: l' =>
      (b <- f a ;;
       bs <- comprehension f l' ;;
       Ok (b :: bs))%res
  end.

(** Comparisons on numbers as booleans. *)
Definition Rltb (a b : R) : bool := if Rlt_dec a b then true else false.
Definition Rleb (a b : R) : bool := if Rle_dec a b then true else false.

(** ** Points ([geometry.Point], [geometry.DirectionalPoint]) *)

Inductive Point : Type :=
| PlainPoint (x y z : R)
| DirectionalPoint (x y z rho eta : R).

Definition px (p : Point) : R :=
  match p with PlainPoint x _ _ | DirectionalPoint x _ _ _ _ => x end.
Definition py (p : Point) : R :=
  match p with PlainPoint _ y _ | DirectionalPoint _ y _ _ _ => y end.
Definition pz (p : Point) : R :=
  match p with PlainPoint _ _ z | DirectionalPoint _ _ z _ _ => z end.

(** [isinstance(p, DirectionalPoint)]. *)
Definition is_directional (p : Point) : bool :=
  match p with PlainPoint _ _ _ => false | DirectionalPoint _ _ _ _ _ => true end.

Definition Point_eq_dec (p q : Point) : {p = q} + {p <> q}.
Proof. decide equality; apply Req_dec_T. Defined.

Definition Point_eqb (p q : Point) : bool :=
  if Point_eq_dec p q then true else false.

(** ** The geometry and scene interface the code relies on *)

(** Modelled from the spec: the modules [geometry] and [scene] are missing.
    A [Pose] is a rigid transform with an inverse ([-pose]), a composition
    ([pose + pose]), a constructor from a translation ([Pose(T=...)]), its
    translation part ([pose.T]) and [map], which sends plain points to plain
    points and directional points to directional points; a [Scene] answers
    [occluded(point, reference)]. *)
Class Geometry : Type := {
  Pose : Type;
  pose_neg : Pose -> Pose;
  pose_add : Pose -> Pose -> Pose;
  pose_of_T : Point -> Pose;
  pose_T : Pose -> Point;
  pose_map : Pose -> Point -> Point;
  pose_map_kind :
    forall (P : Pose) (p : Point),
      is_directional (pose_map P p) = is_directional p;
  Scene : Type;
  occluded : Scene -> Point -> Point -> bool
}.

(** ** Fuzzy numbers and fuzzy sets (package [fuzz]) *)

(** Modelled from the spec: [fuzz.TrapezoidalFuzzyNumber(kernel, support)], a
    piecewise-linear membership function: 1 inside the core (kernel), 0
    outside the support, a linear ramp between. *)
Record TrapezoidalFuzzyNumber : Type := {
  kernel : R * R;
  support : R * R
}.

Definition tfn_mu (t : TrapezoidalFuzzyNumber) (value : R) : R :=
  let (k0, k1) := kernel t in
  let (s0, s1) := support t in
  if Rleb k0 value && Rleb value k1 then 1
  else if Rltb s0 value && Rltb value k0 then (value - s0) / (k0 - s0)
  else if Rltb value s1 && Rltb k1 value then (s1 - value) / (s1 - k1)
  else 0.

(** Modelled from the spec: [fuzz.FuzzySet], a mapping from points to
    degrees kept in insertion order; union is the pointwise maximum over the
    keys of either set, intersection the pointwise minimum over the keys of
    both. *)
Definition FuzzySet : Type := list (Point * R).

Fixpoint fs_lookup (s : FuzzySet) (p : Point) : option R :=
  match s with
  | [] => None
  | (q, v) :: s' => if Point_eq_dec p q then Some v else fs_lookup s' p
  end.

(** [point in fuzzyset]. *)
Definition fs_mem (p : Point) (s : FuzzySet) : bool :=
  match fs_lookup s p with Some _ => true | None => false end.

(** [fuzzyset.mu(point)]: the degree of a key, 0 for a point that is no key. *)
Definition fs_mu (s : FuzzySet) (p : Point) : R :=
  match fs_lookup s p with Some v => v | None => 0 end.

Fixpoint fs_set (s : FuzzySet) (p : Point) (v : R) : FuzzySet :=
  match s with
  | [] => [(p, v)]
  | (q, w) :: s' =>
      if Point_eq_dec p q then (q, v) :: s' else (q, w) :: fs_set s' p v
  end.

(** [FuzzySet(elements)]. *)
Definition FuzzySet_of (elements : list (Point * R)) : FuzzySet :=
  fold_left (fun s e => fs_set s (fst e) (snd e)) elements [].

(** [a | b]: the keys of [a] with the greater of the two degrees, then the
    keys that only [b] has. *)
Definition fs_union (a b : FuzzySet) : FuzzySet :=
  map (fun e =>
         match fs_lookup b (fst e) with
         | Some w => (fst e, Rmax (snd e) w)
         | None => e
         end) a
  ++ filter (fun e => negb (fs_mem (fst e) a)) b.

(** The degree of a point in a union: the greater degree when both sets have
    the point, the degree of the one set that has it otherwise. *)
Definition merge_max (x y : option R) : option R :=
  match x, y with
  | Some v, Some w => Some (Rmax v w)
  | Some v, None => Some v
  | None, y' => y'
  end.

(** The degree of a point in an intersection: the lesser degree when both
    sets have the point, none otherwise. *)
Definition merge_min (x y : option R) : option R :=
  match x, y with
  | Some v, Some w => Some (Rmin v w)
  | _, _ => None
  end.

(** [a & b]. *)
Fixpoint fs_inter (a b : FuzzySet) : FuzzySet :=
  match a with
  | [] => []
  | (p, v) :: a' =>
      match fs_lookup b p with
      | Some w => (p, Rmin v w) :: fs_inter a' b
      | None => fs_inter a' b
      end
  end.

(** ** [coverage.Camera] *)

Section CameraModel.
Context {G : Geometry}.

(** The attributes of a [Camera] object: the fuzzy sets the constructor
    stores, the direction fuzzifier, the pose, and [inscene], which a
    network sets on the camera ([None] while the attribute is not set). *)
Record Camera : Type := {
  Cv : list TrapezoidalFuzzyNumber;
  Cr : TrapezoidalFuzzyNumber;
  Cf : TrapezoidalFuzzyNumber;
  zeta : R;
  pose : Pose;
  inscene : option FuzzySet
}.

Definition with_inscene (c : Camera) (s : FuzzySet) : Camera :=
  {| Cv := Cv c; Cr := Cr c; Cf := Cf c; zeta := zeta c; pose := pose c;
     inscene := Some s |}.

(** The constructor's arguments; a scalar [s] is passed as the pair
    [(s, s)], which is what the constructor turns it into. *)
Record CameraParams : Type := {
  p_A : R;
  p_f : R;
  p_s : R * R;
  p_o : R * R;
  p_dim : Z * Z;
  p_zS : R;
  p_gamma : R;
  p_r1 : R;
  p_r2 : R;
  p_cmax : R;
  p_zeta : R;
  p_pose : Pose
}.

(** The angles [al[i]] and [ar[i]] of the constructor's loop. *)
Definition angle_l (f s o : R) : result R :=
  (q <- py_div (o * s) (2 * f) ;; Ok (2 * atan q))%res.

Definition angle_r (f s o : R) (dim : Z) : result R :=
  (q <- py_div ((IZR dim - o) * s) (2 * f) ;; Ok (2 * atan q))%res.

(** One turn of the loop [for i in range(2)]: the visibility set of an axis. *)
Definition visibility_set (f gamma s o : R) (dim : Z)
  : result TrapezoidalFuzzyNumber :=
  (al <- angle_l f s o ;;
   ar <- angle_r f s o dim ;;
   gd <- py_div gamma (IZR dim) ;;
   let g := gd * 2 * sin ((al + ar) / 2) in
   Ok {| kernel := (- sin al + g, sin ar - g);
         support := (- sin al, sin ar) |})%res.

(** An element of the list whose minimum is [mr]. *)
Definition pixel_density (f s o : R) (dim : Z) : result R :=
  (al <- angle_l f s o ;;
   ar <- angle_r f s o dim ;;
   py_div (IZR dim) (2 * sin ((al + ar) / 2)))%res.

(** [Camera.__init__]. *)
Definition Camera_init (a : CameraParams) : result Camera :=
  let A := p_A a in
  let f := p_f a in
  let zS := p_zS a in
  let cmax := p_cmax a in
  let (s0, s1) := p_s a in
  let (o0, o1) := p_o a in
  let (dim0, dim1) := p_dim a in
  (cv0 <- visibility_set f (p_gamma a) s0 o0 dim0 ;;
   cv1 <- visibility_set f (p_gamma a) s1 o1 dim1 ;;
   m0 <- pixel_density f s0 o0 dim0 ;;
   m1 <- pixel_density f s1 o1 dim1 ;;
   let mr := Rmin m0 m1 in
   i1 <- py_div 1 (p_r1 a) ;;
   let zr1 := i1 * mr in
   i2 <- py_div 1 (p_r2 a) ;;
   let zr2 := i2 * mr in
   zl <- py_div (A * f * zS) (A * f + Rmin s0 s1 * (zS - f)) ;;
   zr <- py_div (A * f * zS) (A * f - Rmin s0 s1 * (zS - f)) ;;
   zn <- py_div (A * f * zS) (A * f + cmax * (zS - f)) ;;
   zf <- py_div (A * f * zS) (A * f - cmax * (zS - f)) ;;
   Ok {| Cv := [cv0; cv1];
         Cr := {| kernel := (0, zr1); support := (0, zr2) |};
         Cf := {| kernel := (zl, zr); support := (zn, zf) |};
         zeta := p_zeta a;
         pose := p_pose a;
         inscene := None |})%res.

(** The visibility term: the body of the first [try], then its handler. *)
Definition visibility_body (c : Camera) (campoint : Point) : result R :=
  (vals <- comprehension
             (fun Cv_i =>
                q <- py_div (px campoint) (pz campoint) ;;
                Ok (tfn_mu Cv_i q))
             (Cv c) ;;
   py_min vals)%res.

Definition mu_visibility (c : Camera) (campoint : Point) : result R :=
  except_ZeroDivisionError (visibility_body c campoint) 0.

Definition mu_resolution (c : Camera) (campoint : Point) : R :=
  tfn_mu (Cr c) (pz campoint).

Definition mu_focus (c : Camera) (campoint : Point) : R :=
  tfn_mu (Cf c) (pz campoint).

(** The two guarded terms of the direction component. *)
Definition direction_terma (x y eta : R) : result R :=
  let r := sqrt (x ^ 2 + y ^ 2) in
  except_ZeroDivisionError
    (a <- py_div y r ;;
     b <- py_div x r ;;
     Ok (a * sin eta + b * cos eta))%res
    1.

Definition direction_termb (x y z : R) : result R :=
  let r := sqrt (x ^ 2 + y ^ 2) in
  except_ZeroDivisionError
    (q <- py_div r z ;; Ok (atan q))%res
    (PI / 2).

Definition mu_direction (c : Camera) (campoint : Point) : result R :=
  match campoint with
  | DirectionalPoint x y z rho eta =>
      (terma <- direction_terma x y eta ;;
       termb <- direction_termb x y z ;;
       q <- py_div (rho - (PI / 2 + terma * termb)) (zeta c) ;;
       Ok (Rmin (Rmax q 0) 1))%res
  | PlainPoint _ _ _ => Ok 1
  end.

(** [Camera.mu].  The argument is a [Point] by its type, so the
    [TypeError] of the first test cannot arise. *)
Definition Camera_mu (c : Camera) (point : Point) : result R :=
  let campoint := pose_map (pose_neg (pose c)) point in
  (mu_v <- mu_visibility c campoint ;;
   let mu_r := mu_resolution c campoint in
   let mu_f := mu_focus c campoint in
   mu_d <- mu_direction c campoint ;;
   Ok (mu_v * mu_r * mu_f * mu_d))%res.

(** The visibility term as the specification words it: the horizontal set
    at [x/z], the vertical set at [y/z], the minimum of the two. *)
Definition mu_visibility_per_axis (c : Camera) (campoint : Point)
  : result R :=
  match Cv c with
  | [Cv_h; Cv_v] =>
      except_ZeroDivisionError
        (qx <- py_div (px campoint) (pz campoint) ;;
         qy <- py_div (py campoint) (pz campoint) ;;
         Ok (Rmin (tfn_mu Cv_h qx) (tfn_mu Cv_v qy)))%res
        0
  | _ => Raise ValueError
  end.

(** A camera as the constructor builds it (two visibility sets) whose
    direction fuzzifier can be divided by. *)
Definition valid_camera (c : Camera) : Prop :=
  Cv c <> [] /\ zeta c <> 0.

End CameraModel.

(** ** The state-and-exception monad *)

Definition M (S A : Type) : Type := S -> result A * S.

Definition ret {S A : Type} (a : A) : M S A := fun s => (Ok a, s).

Definition raise {S A : Type} (e : exn) : M S A := fun s => (Raise e, s).

Definition bind {S A B : Type} (m : M S A) (k : A -> M S B) : M S B :=
  fun s =>
    match m s with
    | (Ok a, s') => k a s'
    | (Raise e, s') => (Raise e, s')
    end.

Definition get {S : Type} : M S S := fun s => (Ok s, s).

Definition modify {S : Type} (f : S -> S) : M S unit := fun s => (Ok tt, f s).

Definition lift {S A : Type} (r : result A) : M S A := fun s => (r, s).

Declare Scope monad_scope.
Delimit Scope monad_scope with monad.
Notation "x <- c ;; k" := (bind c (fun x => k))
  (at level 61, c at next level, right associativity) : monad_scope.
Notation "c ;;; k" := (bind c (fun _ => k))
  (at level 61, right associativity) : monad_scope.

(** [for a in l: body(a)]. *)
Fixpoint for_each {S A : Type} (l : list A) (body : A -> M S unit) : M S unit :=
  match l with
  | [] => ret tt
  | a :: l' => (body a ;;; for_each l' body)%monad
  end.

(** A [for] loop that threads a local variable [acc]. *)
Fixpoint for_acc {S A B : Type} (l : list A) (acc : B) (body : B -> A -> M S B)
  : M S B :=
  match l with
  | [] => ret acc
  | a :: l' => (acc' <- body acc a ;; for_acc l' acc' body)%monad
  end.

(** ** Python containers *)

(** [itertools.combinations(l, r)], in its order. *)
Fixpoint combinations {A : Type} (l : list A) (r : nat) : list (list A) :=
  match r with
  | O => [[]]
  | S r' =>
      match l with
      | [] => []
      | x :: l' => map (cons x) (combinations l' r') ++ combinations l' r
      end
  end.

Definition py_combinations {A : Type} (l : list A) (r : Z) : result (list (list A)) :=
  if (r <? 0)%Z then Raise ValueError else Ok (combinations l (Z.to_nat r)).

(** [range(1, n)]. *)
Definition range_from_1 (n : Z) : list nat := seq 1 (Z.to_nat n - 1).

(** [t[i]] on a tuple. *)
Definition py_index {A : Type} (t : list A) (i : nat) : result A :=
  match nth_error t i with
  | Some a => Ok a
  | None => Raise IndexError
  end.

(** Python's [max] of a list: [ValueError] on the empty list. *)
Fixpoint max_list (d : R) (l : list R) : R :=
  match l with
  | [] => d
  | x :: l' => max_list (Rmax d x) l'
  end.

Definition py_max (l : list R) : result R :=
  match l with
  | [] => Raise ValueError
  | x :: l' => Ok (max_list x l')
  end.

(** A [dict] with string keys, as the list of its items. *)
Fixpoint dict_get {V : Type} (d : list (string * V)) (key : string) : option V :=
  match d with
  | [] => None
  | (k, v) :: d' => if String.eqb key k then Some v else dict_get d' key
  end.

Fixpoint dict_set {V : Type} (d : list (string * V)) (key : string) (value : V)
  : list (string * V) :=
  match d with
  | [] => [(key, value)]
  | (k, v) :: d' =>
      if String.eqb key k then (k, value) :: d'
      else (k, v) :: dict_set d' key value
  end.

Definition dict_keys {V : Type} (d : list (string * V)) : list string :=
  map fst d.

(** [set.add]. *)
Definition set_add (p : Point) (s : list Point) : list Point :=
  if existsb (Point_eqb p) s then s else s ++ [p].

(** ** [coverage.MultiCamera] *)

Section MultiCameraModel.
Context {G : Geometry}.

(** The network: the dict's own items ([cameras]) and the attributes the
    constructor sets. *)
Record MultiCamera : Type := {
  cameras : list (string * Camera);
  ocular : Z;
  scene : Scene;
  points : list Point;
  model : FuzzySet;
  model_updated : bool
}.

Definition set_cameras (d : list (string * Camera)) (m : MultiCamera) : MultiCamera :=
  {| cameras := d; ocular := ocular m; scene := scene m; points := points m;
     model := model m; model_updated := model_updated m |}.

Definition set_points (ps : list Point) (m : MultiCamera) : MultiCamera :=
  {| cameras := cameras m; ocular := ocular m; scene := scene m; points := ps;
     model := model m; model_updated := model_updated m |}.

Definition set_model (s : FuzzySet) (m : MultiCamera) : MultiCamera :=
  {| cameras := cameras m; ocular := ocular m; scene := scene m;
     points := points m; model := s; model_updated := model_updated m |}.

Definition set_model_updated (b : bool) (m : MultiCamera) : MultiCamera :=
  {| cameras := cameras m; ocular := ocular m; scene := scene m;
     points := points m; model := model m; model_updated := b |}.

(** A value that may be assigned as an item of the network. *)
Inductive pyobject : Type :=
| ObjCamera (c : Camera)
| ObjNone
| ObjInt (z : Z)
| ObjStr (s : string).

(** [isinstance(value, Camera)]. *)
Definition as_Camera (value : pyobject) : option Camera :=
  match value with
  | ObjCamera c => Some c
  | _ => None
  end.

(** [MultiCamera.__init__]. *)
Definition MultiCamera_init (ocular0 : Z) (scene0 : Scene) (points0 : list Point)
  : result MultiCamera :=
  if (ocular0 <? 1)%Z then Raise ValueError
  else Ok {| cameras := []; ocular := ocular0; scene := scene0;
             points := points0; model := []; model_updated := false |}.

(** [self[key]]. *)
Definition getitem (key : string) : M MultiCamera Camera :=
  fun self =>
    match dict_get (cameras self) key with
    | Some c => (Ok c, self)
    | None => (Raise KeyError, self)
    end.

(** [camera.inscene], read. *)
Definition get_inscene (c : Camera) : M MultiCamera FuzzySet :=
  match inscene c with
  | Some s => ret s
  | None => raise AttributeError
  end.

(** [self[key].inscene = s]. *)
Definition assign_inscene (key : string) (s : FuzzySet) : M MultiCamera unit :=
  (c <- getitem key ;;
   modify (fun self => set_cameras (dict_set (cameras self) key (with_inscene c s)) self))%monad.

(** The test [mu > 0 and not self.scene.occluded(point, self[key].pose.T)]. *)
Definition in_scene_test (sc : Scene) (c : Camera) (point : Point) (mu : R) : bool :=
  Rltb 0 mu && negb (occluded sc point (pose_T (pose c))).

(** [MultiCamera.update_inscene]. *)
Definition update_inscene (key : string) : M MultiCamera unit :=
  (self <- get ;;
   mpoints <- for_acc (points self) []
     (fun mpoints point =>
        c <- getitem key ;;
        mu <- lift (Camera_mu c point) ;;
        if in_scene_test (scene self) c point mu
        then ret (mpoints ++ [(point, mu)])
        else ret mpoints) ;;
   assign_inscene key (FuzzySet_of mpoints) ;;;
   modify (set_model_updated false))%monad.

(** [MultiCamera.__setitem__]. *)
Definition setitem (key : string) (value : pyobject) : M MultiCamera unit :=
  match as_Camera value with
  | None => raise ValueError
  | Some c =>
      (modify (fun self => set_cameras (dict_set (cameras self) key c) self) ;;;
       update_inscene key)%monad
  end.

(** [MultiCamera.add_point]. *)
Definition add_point (point : Point) : M MultiCamera unit :=
  (modify (fun self => set_points (set_add point (points self)) self) ;;;
   self <- get ;;
   for_each (dict_keys (cameras self))
     (fun key =>
        c <- getitem key ;;
        mu <- lift (Camera_mu c point) ;;
        if in_scene_test (scene self) c point mu
        then
          (c' <- getitem key ;;
           s <- get_inscene c' ;;
           assign_inscene key (fs_union s (FuzzySet_of [(point, mu)])))
        else ret tt))%monad.

(** The body of the first loop of [update_model] for one combination: the
    submodel appended to [submodels]. *)
Definition submodel_of (self : MultiCamera) (combination : list string)
  : M MultiCamera FuzzySet :=
  (k0 <- lift (py_index combination 0) ;;
   c0 <- getitem k0 ;;
   s0 <- get_inscene c0 ;;
   for_acc (range_from_1 (ocular self)) s0
     (fun s i =>
        ki <- lift (py_index combination i) ;;
        ci <- getitem ki ;;
        si <- get_inscene ci ;;
        ret (fs_inter s si)))%monad.

(** [MultiCamera.update_model]. *)
Definition update_model : M MultiCamera unit :=
  (self <- get ;;
   if (Z.of_nat (List.length (cameras self)) <? ocular self)%Z
   then raise ValueError
   else
     modify (set_model []) ;;;
     combs <- lift (py_combinations (dict_keys (cameras self)) (ocular self)) ;;
     submodels <- for_acc combs []
       (fun submodels combination =>
          s <- submodel_of self combination ;;
          ret (submodels ++ [s])) ;;
     for_each submodels
       (fun submodel => modify (fun self' => set_model (fs_union (model self') submodel) self')) ;;;
     modify (set_model_updated true))%monad.

(** [MultiCamera.mu].  The fallback branch names [n], which is bound neither
    in the method nor in the module: evaluating the argument of
    [combinations] raises [NameError] before any membership is computed. *)
Definition MultiCamera_mu (point : Point) : M MultiCamera R :=
  (self <- get ;;
   if (Z.of_nat (List.length (cameras self)) <? ocular self)%Z
   then raise ValueError
   else if fs_mem point (model self)
   then ret (fs_mu (model self) point)
   else raise NameError)%monad.

(** The fallback of [mu] as the specification words it: the maximum, over
    the combinations of [ocular] cameras, of the minimum membership. *)
Definition mu_fallback_configured (self : MultiCamera) (point : Point) : result R :=
  (combs <- py_combinations (dict_keys (cameras self)) (ocular self) ;;
   vals <- comprehension
             (fun combination =>
                ms <- comprehension
                        (fun camera =>
                           match dict_get (cameras self) camera with
                           | Some c => Camera_mu c point
                           | None => Raise KeyError
                           end)
                        combination ;;
                py_min ms)
             combs ;;
   py_max vals)%res.

End MultiCameraModel.

(** ** [laser.RangeModel] *)

(** Code with a [while] loop runs on a budget of loop turns: [None] is a run
    whose budget was used up before the loop ended. *)
Definition F (S A : Type) : Type := S -> option (result A * S).

Definition fbind {S A B : Type} (m : F S A) (k : A -> F S B) : F S B :=
  fun s =>
    match m s with
    | None => None
    | Some (Ok a, s') => k a s'
    | Some (Raise e, s') => Some (Raise e, s')
    end.

(** A computation without loops of its own, run inside [F]. *)
Definition total {S A : Type} (m : M S A) : F S A := fun s => Some (m s).

Declare Scope fuel_scope.
Delimit Scope fuel_scope with fuel.
Notation "x <- c ;; k" := (fbind c (fun x => k))
  (at level 61, c at next level, right associativity) : fuel_scope.
Notation "c ;;; k" := (fbind c (fun _ => k))
  (at level 61, right associativity) : fuel_scope.

Fixpoint ffor_acc {S A B : Type} (l : list A) (acc : B) (body : B -> A -> F S B)
  : F S B :=
  match l with
  | [] => total (ret acc)
  | a :: l' => (acc' <- body acc a ;; ffor_acc l' acc' body)%fuel
  end.

(** Python's [int(x)] on a finite number: truncation toward zero. *)
Definition py_int (x : R) : Z :=
  if Rle_dec 0 x then Int_part x else (- Int_part (- x))%Z.

(** Modelled from the spec: vectors of [geometry] (missing): the dot product
    [p * q], the scaling [k * p], and [p.normal], the axis normalised to unit
    length. *)
Definition dot (p q : Point) : R := px p * px q + py p * py q + pz p * pz q.

Definition scale (k : R) (p : Point) : Point :=
  PlainPoint (k * px p) (k * py p) (k * pz p).

Definition normal (p : Point) : result Point :=
  let m := sqrt (dot p p) in
  (x <- py_div (px p) m ;;
   y <- py_div (py p) m ;;
   z <- py_div (pz p) m ;;
   Ok (PlainPoint x y z))%res.

(** Modelled from the spec: triangles of [geometry] (missing): the vertices of
    a triangle mapped by its owner's pose, and the intersection of the mapped
    triangle with a segment. *)
Class TriangleModel {G : Geometry} : Type := {
  Triangle : Type;
  mapped_vertices : Pose -> Triangle -> list Point;
  intersection : Pose -> Triangle -> Point -> Point -> option Point
}.

Section RangeModelDef.
Context {G : Geometry} {TM : TriangleModel}.

(** Modelled from the spec: [posable.SceneObject] (missing): an object of the
    scene has a pose and opaque triangles; a [LineLaser] has a fan angle and a
    projection depth besides. *)
Record SceneObject : Type := {
  so_pose : Pose;
  triangles : list Triangle;
  line_laser : option (R * R)
}.

(** The model: the dict's items and the set of the keys of its lasers. *)
Record RangeModel : Type := {
  objects : list (string * SceneObject);
  lasers : list string
}.

Definition PointCache : Type := list (Point * R).

Record Task : Type := {
  params : list (string * R);
  task_points : PointCache;
  mount : option string
}.

(** [Model.occluded] and [Model.coverage] are not in the sources: they are
    parameters of the embedding.  Both read the model and leave it as it
    is. *)
Variable model_occluded : RangeModel -> Point -> string -> bool.
Variable model_coverage :
  RangeModel -> Task -> option (list string) -> result PointCache.

(** [self[key]]. *)
Definition getobj (key : string) : M RangeModel SceneObject :=
  fun self =>
    match dict_get (objects self) key with
    | Some o => (Ok o, self)
    | None => (Raise KeyError, self)
    end.

(** Modelled from the spec: [self[key].set_absolute_pose(pose)] makes [pose]
    the pose of the object. *)
Definition set_absolute_pose (key : string) (P : Pose) : M RangeModel unit :=
  (o <- getobj key ;;
   modify (fun self =>
     {| objects := dict_set (objects self) key
                     {| so_pose := P; triangles := triangles o;
                        line_laser := line_laser o |};
        lasers := lasers self |}))%monad.

(** The fan and the depth of [self[laser]]. *)
Definition laser_of (self : RangeModel) (laser : string)
  : result (SceneObject * R * R) :=
  match dict_get (objects self) laser with
  | None => Raise KeyError
  | Some o =>
      match line_laser o with
      | None => Raise AttributeError
      | Some (fan, depth) => Ok (o, fan, depth)
      end
  end.

(** One turn of the loop over the target's triangles in [project].  The
    tests [if ip] and [not cp] are read as tests against [None]. *)
Definition nearest_hit (lpose tpose : Pose) (fan : R) (origin end_ : Point)
    (cp : option Point) (triangle : Triangle) : option Point :=
  match intersection tpose triangle origin end_ with
  | None => cp
  | Some ip0 =>
      let ip := pose_map (pose_neg lpose) ip0 in
      if Rltb (pz ip * tan (fan / 2)) (Rabs (px ip)) then cp
      else
        match cp with
        | None => Some (PlainPoint (px ip) (py ip) (pz ip))
        | Some c =>
            if Rltb (pz ip) (pz c)
            then Some (PlainPoint (px ip) (py ip) (pz ip))
            else cp
        end
  end.

(** The [while x < width] loop of [project]. *)
Fixpoint project_loop (budget : nat) (self : RangeModel) (laser target : string)
    (lpose : Pose) (fan depth lpitch width x : R) (points : PointCache)
  : option (result PointCache) :=
  if Rltb x width then
    match budget with
    | O => None
    | S budget' =>
        let origin := pose_map lpose (PlainPoint x 0 0) in
        let end_ := pose_map lpose (PlainPoint x 0 depth) in
        match dict_get (objects self) target with
        | None => Some (Raise KeyError)
        | Some tobj =>
            let cp :=
              fold_left (nearest_hit lpose (so_pose tobj) fan origin end_)
                        (triangles tobj) None in
            let points' :=
              match cp with
              | Some c =>
                  if negb (model_occluded self (pose_map lpose c) laser)
                  then fs_set points
                         (DirectionalPoint (px c) (py c) (pz c) PI 0) 1
                  else points
              | None => points
              end in
            project_loop budget' self laser target lpose fan depth lpitch
                         width (x + lpitch) points'
        end
    end
  else Some (Ok points).

(** [RangeModel.project]. *)
Definition project (budget : nat) (task_params : list (string * R))
    (laser target : string) (lpitch : R) : F RangeModel Task :=
  fun self =>
    if negb (existsb (String.eqb laser) (lasers self))
    then Some (Raise KeyError, self)
    else
      match laser_of self laser with
      | Raise e => Some (Raise e, self)
      | Ok (lobj, fan, depth) =>
          let width := depth * tan (fan / 2) in
          match py_div (- width) lpitch with
          | Raise e => Some (Raise e, self)
          | Ok q =>
              let x := IZR (py_int q) * lpitch in
              match project_loop budget self laser target (so_pose lobj)
                                 fan depth lpitch width x [] with
              | None => None
              | Some (Raise e) => Some (Raise e, self)
              | Some (Ok points) =>
                  Some (Ok {| params := task_params; task_points := points;
                              mount := Some laser |}, self)
              end
          end
      end.

(** The least and greatest projections [lv], [gv] of the vertices on the
    axis, when there is a vertex. *)
Definition extent (pvs : list R) : option (R * R) :=
  match pvs with
  | [] => None
  | pv :: pvs' => Some (min_list pv pvs', max_list pv pvs')
  end.

(** [steps = int((gv - lv) / float(tpitch))].  Without a vertex [gv - lv] is
    minus infinity: the division raises for a zero pitch and [int] raises
    [OverflowError] otherwise. *)
Definition sweep_steps (pvs : list R) (tpitch : R) : result (Z * R) :=
  match extent pvs with
  | None => (_ <- py_div 1 tpitch ;; Raise OverflowError)%res
  | Some (lv, gv) => (q <- py_div (gv - lv) tpitch ;; Ok (py_int q, gv))%res
  end.

(** [range(n)]. *)
Definition py_range (n : Z) : list nat := seq 0 (Z.to_nat n).

(** The body of the loop [for point in prof_coverage]: the point mapped back
    to the original frame, entered in both caches. *)
Definition record_point (target : string) (original_pose : Pose)
    (acc : PointCache * PointCache) (item : Point * R)
  : F RangeModel (PointCache * PointCache) :=
  (cur <- total (getobj target) ;;
   let original_point :=
     pose_map (pose_add (pose_neg (so_pose cur)) original_pose) (fst item) in
   total (ret (fs_set (fst acc) original_point (snd item),
               fs_set (snd acc) original_point 1)))%fuel.

(** The body of the loop [for i in range(steps)]. *)
Definition sweep_step (budget : nat) (task : Task) (laser target : string)
    (lpitch tpitch : R) (subset : option (list string))
    (original_pose : Pose) (taxis : Point) (gv : R)
    (caches : PointCache * PointCache) (i : nat)
  : F RangeModel (PointCache * PointCache) :=
  (total (set_absolute_pose target
            (pose_add original_pose
               (pose_of_T (scale (tpitch * INR i - gv) taxis)))) ;;;
   prof_task <- project budget (params task) laser target lpitch ;;
   self <- total get ;;
   prof_coverage <- total (lift (model_coverage self prof_task subset)) ;;
   ffor_acc prof_coverage caches (record_point target original_pose))%fuel.

(** [RangeModel.range_coverage]. *)
Definition range_coverage (budget : nat) (task : Task) (laser target : string)
    (lpitch tpitch : R) (taxis : Point) (tstyle : string)
    (subset : option (list string)) : F RangeModel (PointCache * Task) :=
  (tobj <- total (getobj target) ;;
   let original_pose := so_pose tobj in
   if String.eqb tstyle "linear" then
     taxis' <- total (lift (normal taxis)) ;;
     tobj' <- total (getobj target) ;;
     let pvs :=
       flat_map (fun triangle =>
                   map (dot taxis') (mapped_vertices (so_pose tobj') triangle))
                (triangles tobj') in
     sg <- total (lift (sweep_steps pvs tpitch)) ;;
     caches <- ffor_acc (py_range (fst sg)) ([], [])
                 (sweep_step budget task laser target lpitch tpitch subset
                             original_pose taxis' (snd sg)) ;;
     total (set_absolute_pose target original_pose) ;;;
     total (ret (fst caches,
                 {| params := params task; task_points := snd caches;
                    mount := None |}))
   else if String.eqb tstyle "rotary" then total (raise ValueError)
   else total (raise ValueError))%fuel.

(** The model can project the laser on the target: the laser is known and is
    a line laser of the given fan and depth, and the target is bound. *)
Definition sweep_ready (laser target : string) (fan depth : R) (m : RangeModel)
  : Prop :=
  existsb (String.eqb laser) (lasers m) = true /\
  (exists lobj, laser_of m laser = Ok (lobj, fan, depth)) /\
  (exists tobj, dict_get (objects m) target = Some tobj).

(** What [project] may put in a task for a laser of the given fan: a
    directional point facing the laser ([rho = pi], [eta = 0]) inside the
    fan, with weight 1. *)
Definition projected_entry (fan : R) (p : Point) (v : R) : Prop :=
  v = 1 /\
  exists x y z, p = DirectionalPoint x y z PI 0 /\ Rabs x <= z * tan (fan / 2).

(** The two caches [range_coverage] fills have the same keys, and the second
    holds the weight 1 only. *)
Definition caches_match (caches : PointCache * PointCache) : Prop :=
  forall p,
    (fs_lookup (fst caches) p = None <-> fs_lookup (snd caches) p = None) /\
    (forall v, fs_lookup (snd caches) p = Some v -> v = 1).

(** [RangeModel.__init__]: no laser key yet.  Modelled from the spec: the base
    class [coverage.Model] (missing) is a dict of the objects of the scene,
    empty at first. *)
Definition RangeModel_init : RangeModel := {| objects := []; lasers := [] |}.

(** [RangeModel.__setitem__]: the key joins [lasers] when the value is a
    [LineLaser]; then the base class binds the key.  Modelled from the spec:
    the base class binds the key to the value as [dict.__setitem__] does. *)
Definition RangeModel_setitem (key : string) (value : SceneObject)
  : M RangeModel unit :=
  modify (fun self =>
    {| objects := dict_set (objects self) key value;
       lasers :=
         match line_laser value with
         | Some _ =>
             if existsb (String.eqb key) (lasers self) then lasers self
             else lasers self ++ [key]
         | None => lasers self
         end |}).

(** [del d[key]] on the items of a dict. *)
Definition dict_del {V : Type} (d : list (string * V)) (key : string)
  : list (string * V) :=
  filter (fun kv => negb (String.eqb key (fst kv))) d.

(** [RangeModel.__delitem__]: the key is discarded from [lasers] first; then
    the base class removes the binding.  Modelled from the spec: the base
    class removes the key as [dict.__delitem__] does, with [KeyError] for an
    unbound key. *)
Definition RangeModel_delitem (key : string) : M RangeModel unit :=
  (modify (fun self =>
     {| objects := objects self;
        lasers := filter (fun k => negb (String.eqb key k)) (lasers self) |}) ;;;
   self <- get ;;
   match dict_get (objects self) key with
   | None => raise KeyError
   | Some _ =>
       modify (fun self =>
         {| objects := dict_del (objects self) key; lasers := lasers self |})
   end)%monad.

(** Every key of [lasers] is bound in the model. *)
Definition lasers_bound (self : RangeModel) : Prop :=
  forall key,
    existsb (String.eqb key) (lasers self) = true ->
    dict_get (objects self) key <> None.

(** The calls that change a model, and a history of such calls from a state:
    a call that raises leaves the state it had reached, and the history goes
    on from there. *)
Inductive model_op : Type :=
| OpSetitem (key : string) (value : SceneObject)
| OpDelitem (key : string)
| OpSetPose (key : string) (P : Pose).

Definition run_op (op : model_op) : M RangeModel unit :=
  match op with
  | OpSetitem key value => RangeModel_setitem key value
  | OpDelitem key => RangeModel_delitem key
  | OpSetPose key P => set_absolute_pose key P
  end.

Definition run_ops (ops : list model_op) (self : RangeModel) : RangeModel :=
  fold_left (fun m op => snd (run_op op m)) ops self.

(** The pose of an object of the model, when the key is bound. *)
Definition pose_of (self : RangeModel) (key : string) : option Pose :=
  option_map so_pose (dict_get (objects self) key).

(** The call [range_coverage] reaches the body of its sweep loop: the target
    is bound, the transport style is the linear one, the axis is normalised,
    and the step count is computed and positive.  Before that point nothing
    has moved the target. *)
Definition sweep_entered (target : string) (tpitch : R) (taxis : Point)
    (tstyle : string) (self : RangeModel) : Prop :=
  tstyle = "linear"%string /\
  exists tobj ax steps gv,
    dict_get (objects self) target = Some tobj /\
    normal taxis = Ok ax /\
    sweep_steps
      (flat_map (fun triangle =>
                   map (dot ax) (mapped_vertices (so_pose tobj) triangle))
                (triangles tobj)) tpitch = Ok (steps, gv) /\
    (0 < steps)%Z.

End RangeModelDef.

(** ** A concrete geometry and concrete objects *)

(** Poses that are pure translations: a pose is its translation vector.  A
    scene lists the points it hides. *)
Definition translate (t p : Point) : Point :=
  match p with
  | PlainPoint x y z => PlainPoint (x + px t) (y + py t) (z + pz t)
  | DirectionalPoint x y z rho eta =>
      DirectionalPoint (x + px t) (y + py t) (z + pz t) rho eta
  end.

Definition translate_kind (t p : Point)
  : is_directional (translate t p) = is_directional p :=
  match p with
  | PlainPoint _ _ _ => eq_refl
  | DirectionalPoint _ _ _ _ _ => eq_refl
  end.

#[local] Instance TranslationGeometry : Geometry := {|
  Pose := Point;
  pose_neg := fun t => PlainPoint (- px t) (- py t) (- pz t);
  pose_add := fun a b => PlainPoint (px a + px b) (py a + py b) (pz a + pz b);
  pose_of_T := fun t => t;
  pose_T := fun t => t;
  pose_map := translate;
  pose_map_kind := translate_kind;
  Scene := list Point;
  occluded := fun sc p _ => existsb (Point_eqb p) sc
|}.

(** Triangles as vertex triples; no segment meets one. *)
#[local] Instance VertexTriangles : TriangleModel := {|
  Triangle := list Point;
  mapped_vertices := fun P t => map (translate P) t;
  intersection := fun _ _ _ _ => None
|}.

Definition origin_pose : Point := PlainPoint 0 0 0.

(** A camera with a 4 x 4 sensor, pixel size 1/2 and focal length 1. *)
Definition example_params (z : R) : CameraParams := {|
  p_A := 1; p_f := 1; p_s := (1 / 2, 1 / 2); p_o := (0, 0);
  p_dim := (4%Z, 4%Z); p_zS := 2; p_gamma := 0; p_r1 := 1; p_r2 := 1 / 2;
  p_cmax := 3 / 4; p_zeta := z; p_pose := origin_pose
|}.

(** What the constructor makes of [example_params]. *)
Definition example_camera (z : R) : Camera := {|
  Cv := [ {| kernel := (0, 1); support := (0, 1) |};
          {| kernel := (0, 1); support := (0, 1) |} ];
  Cr := {| kernel := (0, 2 * sqrt 2); support := (0, 4 * sqrt 2) |};
  Cf := {| kernel := (4 / 3, 4); support := (8 / 7, 8) |};
  zeta := z;
  pose := origin_pose;
  inscene := None
|}.

(** A network of one camera, through the constructor and item assignment. *)
Definition empty_network (pts : list Point) : MultiCamera := {|
  cameras := []; ocular := 1; scene := []; points := pts; model := [];
  model_updated := false
|}.

Definition one_camera_network (pts : list Point) : MultiCamera :=
  snd (setitem "c" (ObjCamera (example_camera 1)) (empty_network pts)).

(** That network after [update_model]. *)
Definition updated_network (pts : list Point) : MultiCamera :=
  snd (update_model (one_camera_network pts)).



(** A range model whose target is a triangle two units long on the x axis,
    and which has no laser. *)
Definition example_target : SceneObject := {|
  so_pose := origin_pose;
  triangles := [[PlainPoint 0 0 0; PlainPoint 2 0 0; PlainPoint 0 1 0]];
  line_laser := None
|}.

Definition example_range_model : RangeModel := {|
  objects := [("target"%string, example_target)];
  lasers := []
|}.

(** The same model with a line laser of fan angle 0 and depth 1. *)
Definition example_laser : SceneObject := {|
  so_pose := origin_pose;
  triangles := [];
  line_laser := Some (0, 1)
|}.

Definition example_laser_model : RangeModel := {|
  objects := [("target"%string, example_target); ("laser"%string, example_laser)];
  lasers := ["laser"%string]
|}.

(** The same model with a line laser of fan angle [pi / 2] and depth 1: its
    projection is one unit wide on either side. *)
Definition wide_laser : SceneObject := {|
  so_pose := origin_pose;
  triangles := [];
  line_laser := Some (PI / 2, 1)
|}.

Definition wide_laser_model : RangeModel := {|
  objects := [("target"%string, example_target); ("laser"%string, wide_laser)];
  lasers := ["laser"%string]
|}.

Definition example_task : Task := {|
  params := []; task_points := []; mount := None
|}.

(** Plates, a second model of triangles for the examples: a triangle stands
    for a plate at a depth [d] in the frame of its owner, with the two
    vertices one unit to either side on the x axis; a segment that runs
    along z meets the plane of the plate where it reaches that depth. *)
Definition PlateTriangles : @TriangleModel TranslationGeometry := {|
  Triangle := R;
  mapped_vertices := fun P d =>
    [PlainPoint (px P - 1) (py P) (d + pz P);
     PlainPoint (px P + 1) (py P) (d + pz P)];
  intersection := fun P d origin end_ =>
    if Rleb (pz origin) (d + pz P) && Rleb (d + pz P) (pz end_)
    then Some (PlainPoint (px origin) (py origin) (d + pz P))
    else None
|}.

(** A plate at depth 1/2, moved to [tx] on the x axis, in front of a line
    laser of fan angle [pi / 2] and depth 1 at the origin: the laser's fan
    is 1/2 wide on either side at the depth of the plate. *)
Definition plate_target_at (tx : R)
  : @SceneObject TranslationGeometry PlateTriangles :=
  @Build_SceneObject TranslationGeometry PlateTriangles
    (PlainPoint tx 0 0) [1 / 2] None.

Definition plate_laser : @SceneObject TranslationGeometry PlateTriangles :=
  @Build_SceneObject TranslationGeometry PlateTriangles
    origin_pose [] (Some (PI / 2, 1)).

Definition plate_model_at (tx : R)
  : @RangeModel TranslationGeometry PlateTriangles :=
  @Build_RangeModel TranslationGeometry PlateTriangles
    [("target"%string, plate_target_at tx); ("laser"%string, plate_laser)]
    ["laser"%string].

Definition plate_model : @RangeModel TranslationGeometry PlateTriangles :=
  plate_model_at 0.

(** An occlusion test that hides from the laser the points on the side of
    positive x. *)
Definition right_side_hidden
    (_ : @RangeModel TranslationGeometry PlateTriangles) (p : Point)
    (_ : string) : bool :=
  Rltb 0 (px p).

(** A coverage evaluation that gives every point of the task the strength
    1/2. *)
Definition half_coverage
    (_ : @RangeModel TranslationGeometry PlateTriangles) (t : Task)
    (_ : option (list string)) : result PointCache :=
  Ok (map (fun pv => (fst pv, 1 / 2)) (task_points t)).

Definition no_occlusion (_ : RangeModel) (_ : Point) (_ : string) : bool := false.

Definition no_coverage (_ : RangeModel) (_ : Task) (_ : option (list string))
  : result PointCache := Ok [].

(** ** [models.robots.MitsubishiRV1A] *)

Section RobotModel.

(** [angle in RealRange((lo, hi))]: [fuzz.RealRange] is a class of a library;
    its membership test is a parameter of the embedding. *)
Variable in_range : R * R -> R -> bool.

(** The two attributes the property setters write.  [Posable] (missing) is
    not modelled; an attribute that was never assigned is [None]. *)
Record MitsubishiRV1A : Type := {
  tool_length : option R;
  _position : option (list R)
}.

(** The list [range] of [validate]. *)
Definition joint_ranges : list (R * R) :=
  [(-150, 150); (-60, 120); (60, 155); (-160, 160); (-90, 90); (-200, 200)].

(** [enumerate(position)]. *)
Definition enumerate {A : Type} (l : list A) : list (nat * A) :=
  combine (seq 0 (List.length l)) l.

(** [MitsubishiRV1A.validate]. *)
Definition validate (position : list R) : result bool :=
  if negb (Nat.eqb (List.length position) 6) then Ok false
  else
    (tests <- comprehension
                (fun ia => rg <- py_index joint_ranges (fst ia) ;;
                           Ok (in_range rg (snd ia)))
                (enumerate position) ;;
     Ok (forallb (fun b => b) tests))%res.

(** The position assigned for an empty value. *)
Definition default_position : list R := [0; 0; 90; 0; 0; 0].

(** The setter of [position]; [not value] holds of [None] and of the empty
    tuple. *)
Definition position_set (value : option (list R)) : M MitsubishiRV1A unit :=
  match value with
  | None | Some [] =>
      modify (fun self =>
        {| tool_length := tool_length self;
           _position := Some default_position |})
  | Some v =>
      (ok <- lift (validate v) ;;
       if ok
       then modify (fun self =>
              {| tool_length := tool_length self; _position := Some v |})
       else raise ValueError)%monad
  end.

(** The getter of [position]. *)
Definition position_get : M MitsubishiRV1A (list R) :=
  fun self =>
    match _position self with
    | Some p => (Ok p, self)
    | None => (Raise AttributeError, self)
    end.

(** The setter of [config]: [value[0]] is the tool length, [value[1:]] the
    position. *)
Definition config_set (value : option (list R)) : M MitsubishiRV1A unit :=
  match value with
  | None => raise TypeError
  | Some [] => raise IndexError
  | Some (t :: rest) =>
      (modify (fun self =>
         {| tool_length := Some t; _position := _position self |}) ;;;
       position_set (Some rest))%monad
  end.

(** The getter of [config]. *)
Definition config_get : M MitsubishiRV1A (list R) :=
  (self <- get ;;
   match tool_length self with
   | None => raise AttributeError
   | Some t => (p <- position_get ;; ret (t :: p))
   end)%monad.

End RobotModel.

(** Membership in a closed interval, for the examples. *)
Definition closed_range (rg : R * R) (v : R) : bool :=
  Rleb (fst rg) v && Rleb v (snd rg).

(** ** What a network owes its in-scene sets *)

Section NetworkInvariants.
Context {G : Geometry}.

(** The in-scene set [s] of camera [c] is right about the point [p]: absent
    when the point is occluded from the camera or its membership is not
    positive, present with the membership as its weight otherwise. *)
Definition inscene_agrees (sc : Scene) (c : Camera) (s : FuzzySet) (p : Point)
  : Prop :=
  forall mu, Camera_mu c p = Ok mu ->
    (occluded sc p (pose_T (pose c)) = true \/ ~ 0 < mu -> fs_lookup s p = None) /\
    (occluded sc p (pose_T (pose c)) = false /\ 0 < mu -> fs_lookup s p = Some mu).

(** Every camera of the network has an in-scene set that is right about
    every tracked point. *)
Definition cameras_agree (m : MultiCamera) : Prop :=
  forall key c, dict_get (cameras m) key = Some c ->
    exists s, inscene c = Some s /\
              forall p, In p (points m) -> inscene_agrees (scene m) c s p.

(** The state of a network between two calls: the keys of the dict are
    distinct, and every camera's in-scene set is right about the tracked
    points and has no other key. *)
Definition network_ok (m : MultiCamera) : Prop :=
  NoDup (dict_keys (cameras m)) /\
  cameras_agree m /\
  forall key c s p, dict_get (cameras m) key = Some c -> inscene c = Some s ->
                    ~ In p (points m) -> fs_lookup s p = None.

(** Two states of a network with the same cameras, tracked points, scene and
    ocular degree; a computation that keeps them, however it ends. *)
Definition same_network (m m' : MultiCamera) : Prop :=
  cameras m' = cameras m /\ points m' = points m /\
  scene m' = scene m /\ ocular m' = ocular m.

Definition keeps_network {A : Type} (c : M MultiCamera A) : Prop :=
  forall m r m', c m = (r, m') -> same_network m m'.

(** [Camera.mu] returns for the point. *)
Definition mu_defined (c : Camera) (p : Point) : Prop :=
  exists v, Camera_mu c p = Ok v.

(** The elements [update_inscene] collects for a camera. *)
Definition inscene_elements (sc : Scene) (c : Camera) (pts : list Point)
  : list (Point * R) :=
  flat_map (fun p =>
              match Camera_mu c p with
              | Ok mu => if in_scene_test sc c p mu then [(p, mu)] else []
              | Raise _ => []
              end) pts.

(** What one turn of the loop of [add_point] does to a camera. *)
Definition add_point_camera (sc : Scene) (point : Point) (c : Camera) : Camera :=
  match Camera_mu c point, inscene c with
  | Ok mu, Some s =>
      if in_scene_test sc c point mu
      then with_inscene c (fs_union s (FuzzySet_of [(point, mu)]))
      else c
  | _, _ => c
  end.

(** The in-scene sets of the cameras bound to a list of keys. *)
Definition key_insets (d : list (string * Camera)) (ks : list string)
  : list FuzzySet :=
  flat_map (fun k =>
              match dict_get d k with
              | Some c => match inscene c with Some s => [s] | None => [] end
              | None => []
              end) ks.

(** The union of a list of fuzzy sets, from the empty set, in order. *)
Definition union_all (l : list FuzzySet) : FuzzySet :=
  fold_left fs_union l [].

(** The in-scene sets of the cameras of a network, in the order of its keys. *)
Definition inscene_sets (m : MultiCamera) : list FuzzySet :=
  flat_map (fun kc => match inscene (snd kc) with Some s => [s] | None => [] end)
           (cameras m).

(** The intersection of a nonempty list of fuzzy sets, from its first set, in
    order: what [update_model] appends to [submodels] for one combination. *)
Definition inter_all (l : list FuzzySet) : FuzzySet :=
  match l with
  | [] => []
  | s :: l' => fold_left fs_inter l' s
  end.

(** [v] is the least degree of the point [p] in the sets [l], all of which
    have the point. *)
Definition min_degree (l : list FuzzySet) (p : Point) (v : R) : Prop :=
  (forall s, In s l -> exists w, fs_lookup s p = Some w /\ v <= w) /\
  (exists s, In s l /\ fs_lookup s p = Some v).

(** The combinations of cameras [update_model] goes through. *)
Definition model_combinations (m : MultiCamera) : list (list string) :=
  combinations (dict_keys (cameras m)) (Z.to_nat (ocular m)).

End NetworkInvariants.

(** * Properties *)

(** ** Numbers *)

Lemma Rltb_true (a b : R) : a < b -> Rltb a b = true.
Proof. intros H. unfold Rltb. destruct (Rlt_dec a b); [reflexivity | contradiction]. Qed.

Lemma Rltb_false (a b : R) : b <= a -> Rltb a b = false.
Proof. intros H. unfold Rltb. destruct (Rlt_dec a b); [lra | reflexivity]. Qed.

Lemma Rleb_true (a b : R) : a <= b -> Rleb a b = true.
Proof. intros H. unfold Rleb. destruct (Rle_dec a b); [reflexivity | contradiction]. Qed.

Lemma Rleb_false (a b : R) : b < a -> Rleb a b = false.
Proof. intros H. unfold Rleb. destruct (Rle_dec a b); [lra | reflexivity]. Qed.

Lemma Rltb_spec (a b : R) : Rltb a b = true <-> a < b.
Proof.
  unfold Rltb. destruct (Rlt_dec a b); split; intros; auto; discriminate.
Qed.

Lemma py_div_nonzero (a b : R) : b <> 0 -> py_div a b = Ok (a / b).
Proof. intros H. unfold py_div. destruct (Req_dec_T b 0); [contradiction | reflexivity]. Qed.

Lemma py_div_zero (a : R) : py_div a 0 = Raise ZeroDivisionError.
Proof. unfold py_div. destruct (Req_dec_T 0 0); [reflexivity | contradiction]. Qed.

(** A quotient of a positive number by a greater one lies strictly between 0
    and 1. *)
Lemma ramp_range (a b : R) : 0 < a -> a < b -> 0 <= a / b <= 1.
Proof.
  intros Ha Hb.
  assert (Hb0 : 0 < b) by lra.
  split.
  - apply Rlt_le, Rdiv_lt_0_compat; assumption.
  - apply (Rmult_le_reg_r b); [assumption |].
    unfold Rdiv. rewrite Rmult_assoc, Rinv_l by lra. lra.
Qed.

(** The membership function of a trapezoidal number takes its values in
    [0, 1], whatever the four corners. *)
Lemma tfn_mu_range (t : TrapezoidalFuzzyNumber) (v : R) : 0 <= tfn_mu t v <= 1.
Proof.
  unfold tfn_mu. destruct (kernel t) as [k0 k1], (support t) as [s0 s1].
  destruct (Rleb k0 v && Rleb v k1); [lra |].
  destruct (Rltb s0 v && Rltb v k0) eqn:E1.
  - apply andb_prop in E1. destruct E1 as [E1 E2].
    apply Rltb_spec in E1. apply Rltb_spec in E2.
    apply ramp_range; lra.
  - destruct (Rltb v s1 && Rltb k1 v) eqn:E2; [| lra].
    apply andb_prop in E2. destruct E2 as [E2 E3].
    apply Rltb_spec in E2. apply Rltb_spec in E3.
    apply ramp_range; lra.
Qed.

Lemma min_list_range (l : list R) :
  forall d, 0 <= d <= 1 -> Forall (fun x => 0 <= x <= 1) l ->
            0 <= min_list d l <= 1.
Proof.
  induction l as [| x l IH]; intros d Hd Hl; simpl; [assumption |].
  inversion Hl; subst. apply IH; [| assumption].
  unfold Rmin. destruct (Rle_dec d x); assumption.
Qed.

Lemma clamp_range (q : R) : 0 <= Rmin (Rmax q 0) 1 <= 1.
Proof.
  unfold Rmin, Rmax.
  destruct (Rle_dec q 0); destruct (Rle_dec _ 1); lra.
Qed.

Lemma product_range (a b c d : R) :
  0 <= a <= 1 -> 0 <= b <= 1 -> 0 <= c <= 1 -> 0 <= d <= 1 ->
  0 <= a * b * c * d <= 1.
Proof.
  intros Ha Hb Hc Hd.
  assert (Hab : 0 <= a * b <= 1) by (split; nra).
  assert (Habc : 0 <= a * b * c <= 1) by (split; nra).
  split; nra.
Qed.

(** ** [Camera.mu] *)

Section CameraProperties.
Context {G : Geometry}.

Lemma comprehension_total {A B : Type} (f : A -> result B) (g : A -> B) (l : list A) :
  (forall a, In a l -> f a = Ok (g a)) -> comprehension f l = Ok (map g l).
Proof.
  induction l as [| a l IH]; intros H; simpl; [reflexivity |].
  rewrite (H a) by (left; reflexivity). simpl.
  rewrite IH by (intros b Hb; apply H; right; assumption).
  reflexivity.
Qed.

(** With a nonzero depth the body of the visibility [try] evaluates every
    visibility set at the one quotient [x / z]. *)
Lemma visibility_body_nonzero (c : Camera) (campoint : Point) :
  pz campoint <> 0 ->
  visibility_body c campoint
  = py_min (map (fun Cv_i => tfn_mu Cv_i (px campoint / pz campoint)) (Cv c)).
Proof.
  intros Hz. unfold visibility_body.
  rewrite comprehension_total
    with (g := fun Cv_i => tfn_mu Cv_i (px campoint / pz campoint)).
  - reflexivity.
  - intros a _. rewrite py_div_nonzero by assumption. reflexivity.
Qed.

Lemma visibility_body_zero (c : Camera) (campoint : Point) :
  Cv c <> [] -> pz campoint = 0 ->
  visibility_body c campoint = Raise ZeroDivisionError.
Proof.
  intros Hc Hz. unfold visibility_body.
  destruct (Cv c) as [| t l]; [contradiction |].
  simpl. rewrite Hz, py_div_zero. reflexivity.
Qed.

Lemma mu_visibility_zero_depth (c : Camera) (campoint : Point) :
  Cv c <> [] -> pz campoint = 0 -> mu_visibility c campoint = Ok 0.
Proof.
  intros Hc Hz. unfold mu_visibility.
  rewrite visibility_body_zero by assumption. reflexivity.
Qed.

Lemma mu_visibility_total (c : Camera) (campoint : Point) :
  Cv c <> [] ->
  exists v, mu_visibility c campoint = Ok v /\ 0 <= v <= 1.
Proof.
  intros Hc. destruct (Req_dec_T (pz campoint) 0) as [Hz | Hz].
  - exists 0. split; [apply mu_visibility_zero_depth; assumption | lra].
  - unfold mu_visibility. rewrite visibility_body_nonzero by assumption.
    destruct (Cv c) as [| t l]; [contradiction |].
    simpl. eexists. split; [reflexivity |].
    apply min_list_range; [apply tfn_mu_range |].
    apply Forall_forall. intros x Hx. apply in_map_iff in Hx.
    destruct Hx as [u [<- _]]. apply tfn_mu_range.
Qed.

Lemma sqrt_sum_squares_zero (x y : R) :
  sqrt (x ^ 2 + y ^ 2) = 0 <-> x = 0 /\ y = 0.
Proof.
  split.
  - intros H. apply sqrt_eq_0 in H; [| nra]. split; nra.
  - intros [-> ->]. replace (0 ^ 2 + 0 ^ 2) with 0 by lra. apply sqrt_0.
Qed.

(** The first guarded term: 1 when [r] is zero, the projection otherwise. *)
Lemma direction_terma_fallback (x y eta : R) :
  sqrt (x ^ 2 + y ^ 2) = 0 -> direction_terma x y eta = Ok 1.
Proof.
  intros Hr. unfold direction_terma. rewrite Hr, py_div_zero. reflexivity.
Qed.

Lemma direction_terma_regular (x y eta : R) :
  sqrt (x ^ 2 + y ^ 2) <> 0 ->
  direction_terma x y eta
  = Ok (y / sqrt (x ^ 2 + y ^ 2) * sin eta + x / sqrt (x ^ 2 + y ^ 2) * cos eta).
Proof.
  intros Hr. unfold direction_terma.
  rewrite !py_div_nonzero by assumption. reflexivity.
Qed.

Lemma direction_terma_total (x y eta : R) :
  exists a, direction_terma x y eta = Ok a.
Proof.
  destruct (Req_dec_T (sqrt (x ^ 2 + y ^ 2)) 0) as [Hr | Hr].
  - exists 1. apply direction_terma_fallback. assumption.
  - eexists. apply direction_terma_regular. assumption.
Qed.

(** The second guarded term: [pi / 2] when the depth is zero. *)
Lemma direction_termb_fallback (x y : R) :
  direction_termb x y 0 = Ok (PI / 2).
Proof. unfold direction_termb. rewrite py_div_zero. reflexivity. Qed.

Lemma direction_termb_total (x y z : R) :
  exists b, direction_termb x y z = Ok b.
Proof.
  destruct (Req_dec_T z 0) as [Hz | Hz].
  - subst z. exists (PI / 2). apply direction_termb_fallback.
  - unfold direction_termb. rewrite py_div_nonzero by assumption.
    eexists. reflexivity.
Qed.

Lemma mu_direction_plain (c : Camera) (campoint : Point) :
  is_directional campoint = false -> mu_direction c campoint = Ok 1.
Proof. destruct campoint; [reflexivity | discriminate]. Qed.

Lemma mu_direction_total (c : Camera) (campoint : Point) :
  zeta c <> 0 \/ is_directional campoint = false ->
  exists d, mu_direction c campoint = Ok d /\ 0 <= d <= 1.
Proof.
  intros H. destruct campoint as [x y z | x y z rho eta].
  - exists 1. split; [reflexivity | lra].
  - destruct H as [Hz | H]; [| discriminate].
    simpl.
    destruct (direction_terma_total x y eta) as [a ->].
    destruct (direction_termb_total x y z) as [b ->].
    simpl. rewrite py_div_nonzero by assumption.
    eexists. split; [reflexivity | apply clamp_range].
Qed.

(** A division by the fuzzifier [zeta] is the one division of [mu] no handler
    guards: with [zeta = 0] a directional point raises. *)
Lemma mu_direction_zero_zeta (c : Camera) (x y z rho eta : R) :
  zeta c = 0 ->
  mu_direction c (DirectionalPoint x y z rho eta) = Raise ZeroDivisionError.
Proof.
  intros Hz. simpl.
  destruct (direction_terma_total x y eta) as [a ->].
  destruct (direction_termb_total x y z) as [b ->].
  simpl. rewrite Hz, py_div_zero. reflexivity.
Qed.

Lemma Camera_mu_total (c : Camera) (point : Point) :
  Cv c <> [] -> zeta c <> 0 \/ is_directional point = false ->
  exists v, Camera_mu c point = Ok v /\ 0 <= v <= 1.
Proof.
  intros Hc Hz. unfold Camera_mu.
  destruct (mu_visibility_total c (pose_map (pose_neg (pose c)) point) Hc)
    as [v [-> Hv]].
  destruct (mu_direction_total c (pose_map (pose_neg (pose c)) point))
    as [d [-> Hd]].
  { destruct Hz; [left; assumption | right]. rewrite pose_map_kind. assumption. }
  simpl. eexists. split; [reflexivity |].
  apply product_range; try assumption; apply tfn_mu_range.
Qed.

(** C1: for a valid camera (built with its visibility sets, nonzero
    direction fuzzifier) and every point, [Camera.mu] maps the point by the
    inverse pose and returns the product of the visibility, resolution, focus
    and direction terms at the mapped point; the result lies in [0, 1]; for a
    plain point the direction term is 1. *)
Theorem C1_camera_mu_product (c : Camera) (point : Point) :
  valid_camera c ->
  let campoint := pose_map (pose_neg (pose c)) point in
  exists mu_v mu_d,
    mu_visibility c campoint = Ok mu_v /\
    mu_direction c campoint = Ok mu_d /\
    Camera_mu c point
    = Ok (mu_v * mu_resolution c campoint * mu_focus c campoint * mu_d) /\
    0 <= mu_v * mu_resolution c campoint * mu_focus c campoint * mu_d <= 1 /\
    (is_directional point = false -> mu_d = 1).
Proof.
  intros [Hc Hz] campoint.
  destruct (mu_visibility_total c campoint Hc) as [v [Ev Hv]].
  destruct (mu_direction_total c campoint (or_introl Hz)) as [d [Ed Hd]].
  exists v, d. repeat split; try assumption.
  - unfold Camera_mu. fold campoint. rewrite Ev, Ed. reflexivity.
  - apply product_range; try assumption; apply tfn_mu_range.
  - apply product_range; try assumption; apply tfn_mu_range.
  - intros Hp.
    assert (Hk : is_directional campoint = false)
      by (unfold campoint; rewrite pose_map_kind; assumption).
    rewrite (mu_direction_plain c campoint Hk) in Ed. congruence.
Qed.

(** C8, amended: for a camera whose direction fuzzifier is nonzero (or for a
    plain point), [Camera.mu] returns normally whatever the point; the
    visibility term is 0 when the depth in the camera frame is 0; [terma] is
    1 when [r] is 0; [termb] is [pi / 2] when the depth is 0. *)
Theorem C8_division_guards (c : Camera) (point : Point) :
  Cv c <> [] ->
  zeta c <> 0 \/ is_directional point = false ->
  let campoint := pose_map (pose_neg (pose c)) point in
  (exists v, Camera_mu c point = Ok v) /\
  (pz campoint = 0 -> mu_visibility c campoint = Ok 0) /\
  (forall x y eta, sqrt (x ^ 2 + y ^ 2) = 0 -> direction_terma x y eta = Ok 1) /\
  (forall x y, direction_termb x y 0 = Ok (PI / 2)).
Proof.
  intros Hc Hz campoint. repeat split.
  - destruct (Camera_mu_total c point Hc Hz) as [v [Ev _]]. exists v. exact Ev.
  - intros H0. apply mu_visibility_zero_depth; assumption.
  - intros x y eta. apply direction_terma_fallback.
  - intros x y. apply direction_termb_fallback.
Qed.

End CameraProperties.

(** ** The example camera *)

Lemma tfn_ext (k0 k1 s0 s1 k0' k1' s0' s1' : R) :
  k0 = k0' -> k1 = k1' -> s0 = s0' -> s1 = s1' ->
  {| kernel := (k0, k1); support := (s0, s1) |}
  = {| kernel := (k0', k1'); support := (s0', s1') |}.
Proof. intros -> -> -> ->. reflexivity. Qed.

Lemma angle_l_example : angle_l 1 (1 / 2) 0 = Ok 0.
Proof.
  unfold angle_l. rewrite py_div_nonzero by lra. simpl.
  replace (0 * (1 / 2) / (2 * 1)) with 0 by lra.
  rewrite atan_0. f_equal. lra.
Qed.

Lemma angle_r_example : angle_r 1 (1 / 2) 0 4 = Ok (PI / 2).
Proof.
  unfold angle_r. rewrite py_div_nonzero by lra. simpl.
  replace ((4 - 0) * (1 / 2) / (2 * 1)) with 1 by lra.
  rewrite atan_1. f_equal. lra.
Qed.

Lemma half_right_angle : (0 + PI / 2) / 2 = PI / 4.
Proof. lra. Qed.

Lemma visibility_set_example :
  visibility_set 1 0 (1 / 2) 0 4
  = Ok {| kernel := (0, 1); support := (0, 1) |}.
Proof.
  unfold visibility_set. rewrite angle_l_example, angle_r_example. simpl.
  rewrite py_div_nonzero by lra. simpl.
  rewrite sin_0, sin_PI2.
  replace (0 / 4 * 2 * sin ((0 + PI / 2) / 2)) with 0
    by (unfold Rdiv; rewrite !Rmult_0_l; reflexivity).
  do 2 f_equal; f_equal; lra.
Qed.

Lemma sqrt2_bounds : 1 < sqrt 2 < 2.
Proof.
  assert (H0 : 0 <= sqrt 2) by apply sqrt_pos.
  assert (H2 : sqrt 2 * sqrt 2 = 2) by (apply sqrt_sqrt; lra).
  split; nra.
Qed.

Lemma pixel_density_example : pixel_density 1 (1 / 2) 0 4 = Ok (2 * sqrt 2).
Proof.
  pose proof sqrt2_bounds as Hs.
  unfold pixel_density. rewrite angle_l_example, angle_r_example. simpl.
  rewrite half_right_angle, sin_PI4.
  assert (Hinv : 1 / sqrt 2 <> 0).
  { unfold Rdiv. rewrite Rmult_1_l. apply Rinv_neq_0_compat. lra. }
  rewrite py_div_nonzero by lra.
  f_equal. field. lra.
Qed.

(** The constructor accepts the example parameters and builds the example
    camera. *)
Lemma Camera_init_example (z : R) :
  Camera_init (example_params z) = Ok (example_camera z).
Proof.
  unfold Camera_init, example_params. simpl.
  rewrite visibility_set_example. simpl.
  rewrite pixel_density_example. simpl.
  rewrite !py_div_nonzero.
  2-7: try (unfold Rmin; destruct (Rle_dec _ _)); lra.
  simpl. unfold example_camera.
  assert (Hm : Rmin (2 * sqrt 2) (2 * sqrt 2) = 2 * sqrt 2)
    by (apply Rmin_left; lra).
  assert (Hs : Rmin (1 / 2) (1 / 2) = 1 / 2) by (apply Rmin_left; lra).
  rewrite Hm, Hs.
  do 2 f_equal; apply tfn_ext; field.
Qed.

(** Every camera the constructor builds has its two visibility sets; it is
    valid when the fuzzifier it was given is nonzero. *)
Lemma Camera_init_valid {G : Geometry} (a : CameraParams) (c : Camera) :
  Camera_init a = Ok c ->
  (exists h v, Cv c = [h; v]) /\ zeta c = p_zeta a /\
  (p_zeta a <> 0 -> valid_camera c).
Proof.
  unfold Camera_init.
  destruct (p_s a) as [s0 s1], (p_o a) as [o0 o1], (p_dim a) as [dim0 dim1].
  repeat match goal with
         | |- context [rbind ?x _] =>
             destruct x; cbn [rbind]; [| discriminate]
         end.
  intros [= <-]. cbn [Cv zeta]. split; [eauto |]. split; [reflexivity |].
  intros Hz. split; [discriminate | exact Hz].
Qed.

Lemma tfn_mu_in_kernel (t : TrapezoidalFuzzyNumber) (v : R) :
  fst (kernel t) <= v <= snd (kernel t) -> tfn_mu t v = 1.
Proof.
  unfold tfn_mu. destruct (kernel t) as [k0 k1], (support t) as [s0 s1].
  simpl. intros [H0 H1]. rewrite !Rleb_true by assumption. reflexivity.
Qed.

Lemma tfn_mu_right_of_support (t : TrapezoidalFuzzyNumber) (v : R) :
  fst (kernel t) <= snd (kernel t) ->
  snd (kernel t) <= snd (support t) -> snd (support t) <= v ->
  snd (kernel t) < v ->
  tfn_mu t v = 0.
Proof.
  unfold tfn_mu. destruct (kernel t) as [k0 k1], (support t) as [s0 s1].
  simpl. intros Hs Hk Hv Hkv.
  rewrite (Rleb_false v k1) by assumption. rewrite andb_false_r.
  rewrite (Rltb_false v k0) by lra. rewrite andb_false_r.
  rewrite (Rltb_false v s1) by assumption. reflexivity.
Qed.

(** The trapezoid of the specification's example: support (-0.9, 0.9), core
    (-0.5, 0.5). *)
Example tfn_mu_spec_example :
  let t := {| kernel := (- (1 / 2), 1 / 2); support := (- (9 / 10), 9 / 10) |} in
  tfn_mu t 0 = 1 /\ tfn_mu t (7 / 10) = 1 / 2 /\ tfn_mu t 1 = 0 /\ tfn_mu t (- 1) = 0.
Proof.
  unfold tfn_mu. simpl. repeat split.
  - rewrite !Rleb_true by lra. reflexivity.
  - rewrite (Rleb_false (7 / 10) (1 / 2)) by lra.
    rewrite (Rltb_false (7 / 10) (- (1 / 2))) by lra.
    rewrite !Rltb_true by lra. rewrite !andb_false_r. simpl. lra.
  - rewrite (Rleb_false 1 (1 / 2)) by lra.
    rewrite (Rltb_false 1 (- (1 / 2))) by lra.
    rewrite (Rltb_false 1 (9 / 10)) by lra.
    rewrite !andb_false_r. reflexivity.
  - rewrite (Rleb_false (- (1 / 2)) (- 1)) by lra.
    rewrite (Rltb_false (- (9 / 10)) (- 1)) by lra.
    rewrite (Rltb_false (1 / 2) (- 1)) by lra.
    rewrite !andb_false_r. reflexivity.
Qed.

(** The example camera sits at the origin: the camera frame is the world
    frame. *)
Lemma campoint_example (z : R) (p : Point) :
  pose_map (pose_neg (pose (example_camera z))) p = p.
Proof. destruct p; simpl; f_equal; lra. Qed.

(** What the code computes for a camera with two visibility sets: both are
    evaluated at [x / z]. *)
Lemma mu_visibility_two_sets {G : Geometry} (c : Camera) (h v : TrapezoidalFuzzyNumber)
    (campoint : Point) :
  Cv c = [h; v] -> pz campoint <> 0 ->
  mu_visibility c campoint
  = Ok (Rmin (tfn_mu h (px campoint / pz campoint))
             (tfn_mu v (px campoint / pz campoint))).
Proof.
  intros Hc Hz. unfold mu_visibility.
  rewrite visibility_body_nonzero by assumption. rewrite Hc. reflexivity.
Qed.

Lemma mu_visibility_per_axis_two_sets {G : Geometry} (c : Camera)
    (h v : TrapezoidalFuzzyNumber) (campoint : Point) :
  Cv c = [h; v] -> pz campoint <> 0 ->
  mu_visibility_per_axis c campoint
  = Ok (Rmin (tfn_mu h (px campoint / pz campoint))
             (tfn_mu v (py campoint / pz campoint))).
Proof.
  intros Hc Hz. unfold mu_visibility_per_axis. rewrite Hc.
  rewrite !py_div_nonzero by assumption. reflexivity.
Qed.

Lemma example_visibility :
  mu_visibility (example_camera 1) (PlainPoint 1 4 2) = Ok 1.
Proof.
  rewrite (@mu_visibility_two_sets _ (example_camera 1) _ _ (PlainPoint 1 4 2) eq_refl)
    by (simpl; lra).
  simpl. rewrite tfn_mu_in_kernel by (simpl; lra).
  f_equal. apply Rmin_left. lra.
Qed.

Lemma example_visibility_per_axis :
  mu_visibility_per_axis (example_camera 1) (PlainPoint 1 4 2) = Ok 0.
Proof.
  rewrite (@mu_visibility_per_axis_two_sets _ (example_camera 1) _ _
             (PlainPoint 1 4 2) eq_refl) by (simpl; lra).
  simpl. rewrite tfn_mu_in_kernel by (simpl; lra).
  rewrite tfn_mu_right_of_support by (simpl; lra).
  f_equal. apply Rmin_right. lra.
Qed.

(** The membership of the point (1, 4, 2) for the example camera: 1. *)
Lemma example_camera_mu :
  Camera_mu (example_camera 1) (PlainPoint 1 4 2) = Ok 1.
Proof.
  unfold Camera_mu. rewrite campoint_example.
  rewrite example_visibility. simpl.
  unfold mu_resolution, mu_focus. pose proof sqrt2_bounds.
  rewrite !tfn_mu_in_kernel by (simpl; lra).
  f_equal. lra.
Qed.

(** C2, at the camera [example_camera 1] (the constructor's result for
    [example_params 1]) and the plain point (1, 4, 2): [x / z = 1/2] is inside
    both visibility sets and [y / z = 2] is outside the vertical one.  The
    code evaluates both sets at [x / z]: its visibility term is 1 and
    [Camera.mu] returns 1, where the per-axis minimum is 0. *)
Theorem C2_vertical_axis_uses_x :
  let c := example_camera 1 in
  let point := PlainPoint 1 4 2 in
  let campoint := pose_map (pose_neg (pose c)) point in
  Camera_init (example_params 1) = Ok c /\
  mu_visibility c campoint = Ok 1 /\
  mu_visibility_per_axis c campoint = Ok 0 /\
  Camera_mu c point = Ok 1.
Proof.
  intros c point campoint.
  assert (Ecp : campoint = point) by apply campoint_example.
  rewrite Ecp.
  split; [apply Camera_init_example |].
  split; [apply example_visibility |].
  split; [apply example_visibility_per_axis |].
  apply example_camera_mu.
Qed.

(** The witness of C1: the example camera at the point (1, 4, 2). *)
Lemma C1_camera_mu_product_witness :
  exists mu_v mu_d,
    let c := example_camera 1 in
    let campoint := pose_map (pose_neg (pose c)) (PlainPoint 1 4 2) in
    mu_visibility c campoint = Ok mu_v /\
    mu_direction c campoint = Ok mu_d /\
    Camera_mu c (PlainPoint 1 4 2)
    = Ok (mu_v * mu_resolution c campoint * mu_focus c campoint * mu_d) /\
    0 <= mu_v * mu_resolution c campoint * mu_focus c campoint * mu_d <= 1 /\
    (is_directional (PlainPoint 1 4 2) = false -> mu_d = 1).
Proof.
  apply (C1_camera_mu_product (example_camera 1) (PlainPoint 1 4 2)).
  split; simpl; [discriminate | lra].
Defined.

(** The counterexample of C8: the constructor accepts a zero direction
    fuzzifier, and with it a directional point on the optical centre makes
    [Camera.mu] raise [ZeroDivisionError]. *)
Lemma C8_zero_zeta_raises :
  Camera_init (example_params 0) = Ok (example_camera 0) /\
  Camera_mu (example_camera 0) (DirectionalPoint 0 0 0 0 0)
  = Raise ZeroDivisionError.
Proof.
  split; [apply Camera_init_example |].
  unfold Camera_mu. rewrite campoint_example.
  rewrite mu_visibility_zero_depth by (simpl; (discriminate || reflexivity)).
  cbn [rbind].
  rewrite mu_direction_zero_zeta by reflexivity. reflexivity.
Qed.

(** The witness of C8: the example camera with fuzzifier 1 at that point. *)
Lemma C8_division_guards_witness :
  let c := example_camera 1 in
  let point := DirectionalPoint 0 0 0 0 0 in
  let campoint := pose_map (pose_neg (pose c)) point in
  (exists v, Camera_mu c point = Ok v) /\
  (pz campoint = 0 -> mu_visibility c campoint = Ok 0) /\
  (forall x y eta, sqrt (x ^ 2 + y ^ 2) = 0 -> direction_terma x y eta = Ok 1) /\
  (forall x y, direction_termb x y 0 = Ok (PI / 2)).
Proof.
  apply (C8_division_guards (example_camera 1) (DirectionalPoint 0 0 0 0 0)).
  - simpl. discriminate.
  - left. simpl. lra.
Defined.

(** ** Containers *)

Lemma fs_lookup_set (s : FuzzySet) (p q : Point) (v : R) :
  fs_lookup (fs_set s p v) q
  = if Point_eq_dec q p then Some v else fs_lookup s q.
Proof.
  induction s as [| [r w] s IH]; simpl.
  - destruct (Point_eq_dec q p); reflexivity.
  - destruct (Point_eq_dec p r) as [-> | Hpr]; simpl.
    + destruct (Point_eq_dec q r); reflexivity.
    + destruct (Point_eq_dec q r) as [-> | Hqr].
      * destruct (Point_eq_dec r p); [congruence | reflexivity].
      * exact IH.
Qed.

Lemma fs_lookup_app (a b : FuzzySet) (p : Point) :
  fs_lookup (a ++ b) p
  = match fs_lookup a p with Some v => Some v | None => fs_lookup b p end.
Proof.
  induction a as [| [q v] a IH]; simpl; [reflexivity |].
  destruct (Point_eq_dec p q); [reflexivity | exact IH].
Qed.

Lemma fs_lookup_union (a b : FuzzySet) (p : Point) :
  fs_lookup (fs_union a b) p = merge_max (fs_lookup a p) (fs_lookup b p).
Proof.
  unfold fs_union. rewrite fs_lookup_app.
  assert (Hmap :
    fs_lookup
      (map (fun e => match fs_lookup b (fst e) with
                     | Some w => (fst e, Rmax (snd e) w)
                     | None => e
                     end) a) p
    = match fs_lookup a p with
      | Some v => merge_max (Some v) (fs_lookup b p)
      | None => None
      end).
  { induction a as [| [q v] a IH]; simpl; [reflexivity |].
    destruct (Point_eq_dec p q) as [-> | Hpq].
    - destruct (fs_lookup b q) as [w |]; simpl;
        destruct (Point_eq_dec q q); try contradiction; reflexivity.
    - destruct (fs_lookup b q) as [w |]; simpl;
        destruct (Point_eq_dec p q); try contradiction; exact IH. }
  rewrite Hmap. destruct (fs_lookup a p) as [v |] eqn:Ea.
  - destruct (fs_lookup b p); reflexivity.
  - simpl. clear Hmap.
    induction b as [| [q w] b IH]; simpl; [reflexivity |].
    destruct (Point_eq_dec p q) as [-> | Hpq].
    + unfold fs_mem. rewrite Ea. simpl.
      destruct (Point_eq_dec q q); [reflexivity | contradiction].
    + destruct (negb (fs_mem q a)); simpl; [| exact IH].
      destruct (Point_eq_dec p q); [contradiction | exact IH].
Qed.

Lemma fs_lookup_inter (a b : FuzzySet) (p : Point) :
  fs_lookup (fs_inter a b) p
  = match fs_lookup a p, fs_lookup b p with
    | Some v, Some w => Some (Rmin v w)
    | _, _ => None
    end.
Proof.
  induction a as [| [q v] a IH]; simpl; [reflexivity |].
  destruct (Point_eq_dec p q) as [-> | Hpq].
  - destruct (fs_lookup b q) as [w |] eqn:Eb; simpl.
    + destruct (Point_eq_dec q q); [reflexivity | contradiction].
    + rewrite IH. destruct (fs_lookup a q); reflexivity.
  - destruct (fs_lookup b q) as [w |]; simpl; [| exact IH].
    destruct (Point_eq_dec p q); [contradiction | exact IH].
Qed.

(** A fuzzy set built from elements in which a point has one degree at most:
    the point's entry is that degree. *)
Lemma fs_lookup_fold_set (l : list (Point * R)) :
  forall (s : FuzzySet) (p : Point),
    fs_lookup (fold_left (fun s e => fs_set s (fst e) (snd e)) l s) p
    = match fs_lookup (rev l) p with
      | Some v => Some v
      | None => fs_lookup s p
      end.
Proof.
  induction l as [| [q w] l IH]; intros s p; simpl; [reflexivity |].
  rewrite IH, fs_lookup_app, fs_lookup_set. simpl.
  destruct (fs_lookup (rev l) p); [reflexivity |].
  destruct (Point_eq_dec p q); reflexivity.
Qed.

Lemma fs_lookup_In (l : list (Point * R)) (p : Point) (v : R) :
  fs_lookup l p = Some v -> In (p, v) l.
Proof.
  induction l as [| [q w] l IH]; simpl; [discriminate |].
  destruct (Point_eq_dec p q) as [-> | Hpq].
  - intros [= ->]. left. reflexivity.
  - intros H. right. apply IH. exact H.
Qed.

Lemma fs_lookup_None (l : list (Point * R)) (p : Point) :
  fs_lookup l p = None <-> forall v, ~ In (p, v) l.
Proof.
  induction l as [| [q w] l IH]; simpl.
  - split; [intros _ v [] | reflexivity].
  - destruct (Point_eq_dec p q) as [-> | Hpq].
    + split; [discriminate |]. intros H. exfalso. apply (H w). left. reflexivity.
    + rewrite IH. split.
      * intros H v [[= E _] | Hin]; [congruence | exact (H v Hin)].
      * intros H v Hin. apply (H v). right. exact Hin.
Qed.

Lemma FuzzySet_of_lookup (l : list (Point * R)) (p : Point) (v : R) :
  (forall w w', In (p, w) l -> In (p, w') l -> w = w') ->
  In (p, v) l -> fs_lookup (FuzzySet_of l) p = Some v.
Proof.
  intros Hfun Hin. unfold FuzzySet_of. rewrite fs_lookup_fold_set.
  destruct (fs_lookup (rev l) p) as [w |] eqn:E.
  - apply fs_lookup_In in E. apply in_rev in E. f_equal. apply Hfun; assumption.
  - exfalso. apply (proj1 (fs_lookup_None (rev l) p) E v).
    apply in_rev. rewrite rev_involutive. exact Hin.
Qed.

Lemma FuzzySet_of_lookup_None (l : list (Point * R)) (p : Point) :
  (forall v, ~ In (p, v) l) -> fs_lookup (FuzzySet_of l) p = None.
Proof.
  intros Hno. unfold FuzzySet_of. rewrite fs_lookup_fold_set. simpl.
  destruct (fs_lookup (rev l) p) as [w |] eqn:E; [| reflexivity].
  apply fs_lookup_In in E. apply in_rev in E. exfalso. exact (Hno w E).
Qed.

Lemma dict_get_set {V : Type} (d : list (string * V)) (k k' : string) (v : V) :
  dict_get (dict_set d k v) k'
  = if String.eqb k' k then Some v else dict_get d k'.
Proof.
  induction d as [| [q w] d IH]; simpl.
  - reflexivity.
  - destruct (String.eqb k q) eqn:Ekq; simpl.
    + apply String.eqb_eq in Ekq. subst q.
      destruct (String.eqb k' k); reflexivity.
    + destruct (String.eqb k' q) eqn:Ek'q.
      * apply String.eqb_eq in Ek'q. subst q.
        destruct (String.eqb k' k) eqn:E; [| reflexivity].
        apply String.eqb_eq in E. subst k'. rewrite String.eqb_refl in Ekq.
        discriminate.
      * exact IH.
Qed.

Lemma dict_keys_set {V : Type} (d : list (string * V)) (k : string) (v v0 : V) :
  dict_get d k = Some v0 -> dict_keys (dict_set d k v) = dict_keys d.
Proof.
  induction d as [| [q w] d IH]; simpl; [discriminate |].
  destruct (String.eqb k q) eqn:E; simpl; [reflexivity |].
  intros H. f_equal. apply IH. exact H.
Qed.

Lemma dict_keys_set_fresh {V : Type} (d : list (string * V)) (k : string) (v : V) :
  dict_get d k = None -> dict_keys (dict_set d k v) = dict_keys d ++ [k].
Proof.
  induction d as [| [q w] d IH]; simpl; [reflexivity |].
  destruct (String.eqb k q) eqn:E; simpl; [discriminate |].
  intros H. f_equal. apply IH. exact H.
Qed.

Lemma dict_get_In_keys {V : Type} (d : list (string * V)) (k : string) :
  In k (dict_keys d) <-> exists v, dict_get d k = Some v.
Proof.
  induction d as [| [q w] d IH]; simpl.
  - split; [intros [] | intros [v H]; discriminate].
  - destruct (String.eqb k q) eqn:E.
    + apply String.eqb_eq in E. subst q. split; [eauto | auto].
    + rewrite IH. split; [intros [H | H]; [| exact H] | auto].
      subst q. rewrite String.eqb_refl in E. discriminate.
Qed.

Lemma set_add_In (p q : Point) (s : list Point) :
  In p (set_add q s) <-> p = q \/ In p s.
Proof.
  unfold set_add. destruct (existsb (Point_eqb q) s) eqn:E.
  - split; [auto |]. intros [-> | H]; [| exact H].
    apply existsb_exists in E. destruct E as [x [Hx Ex]].
    unfold Point_eqb in Ex. destruct (Point_eq_dec q x); [subst; exact Hx | discriminate].
  - rewrite in_app_iff. simpl. intuition.
Qed.

(** ** [MultiCamera] *)

Section MultiCameraProperties.
Context {G : Geometry}.

Lemma bind_ok {S A B : Type} (m : M S A) (k : A -> M S B) (s s' : S) (a : A) :
  m s = (Ok a, s') -> bind m k s = k a s'.
Proof. intros H. unfold bind. rewrite H. reflexivity. Qed.

Lemma bind_raise {S A B : Type} (m : M S A) (k : A -> M S B) (s s' : S) (e : exn) :
  m s = (Raise e, s') -> bind m k s = (Raise e, s').
Proof. intros H. unfold bind. rewrite H. reflexivity. Qed.

Lemma getitem_ok (m : MultiCamera) (key : string) (c : Camera) :
  dict_get (cameras m) key = Some c -> getitem key m = (Ok c, m).
Proof. intros H. unfold getitem. rewrite H. reflexivity. Qed.

Lemma Camera_mu_with_inscene (c : Camera) (s : FuzzySet) (p : Point) :
  Camera_mu (with_inscene c s) p = Camera_mu c p.
Proof. reflexivity. Qed.

Lemma in_scene_test_spec (sc : Scene) (c : Camera) (p : Point) (mu : R) :
  in_scene_test sc c p mu = true
  <-> occluded sc p (pose_T (pose c)) = false /\ 0 < mu.
Proof.
  unfold in_scene_test. rewrite andb_true_iff, negb_true_iff, Rltb_spec. tauto.
Qed.

(** The loop of [update_inscene] collects [inscene_elements] and leaves the
    network as it is. *)
Lemma update_inscene_loop (m : MultiCamera) (key : string) (c : Camera)
    (sc : Scene) (pts : list Point) :
  dict_get (cameras m) key = Some c ->
  (forall p, In p pts -> mu_defined c p) ->
  forall acc,
    for_acc pts acc
      (fun mpoints point =>
         c <- getitem key ;;
         mu <- lift (Camera_mu c point) ;;
         if in_scene_test sc c point mu
         then ret (mpoints ++ [(point, mu)])
         else ret mpoints)%monad m
    = (Ok (acc ++ inscene_elements sc c pts), m).
Proof.
  intros Hk. induction pts as [| p pts IH]; intros Hdef acc; simpl.
  - rewrite app_nil_r. reflexivity.
  - destruct (Hdef p (or_introl eq_refl)) as [v Ev].
    unfold bind at 1. unfold bind at 1. rewrite (getitem_ok _ _ _ Hk).
    unfold bind at 1. unfold lift. rewrite Ev.
    destruct (in_scene_test sc c p v); unfold ret at 1; simpl.
    + rewrite IH by (intros q Hq; apply Hdef; right; exact Hq).
      rewrite <- app_assoc. reflexivity.
    + apply IH. intros q Hq. apply Hdef. right. exact Hq.
Qed.

(** The state [update_inscene] leaves: the camera of the key carries the
    fuzzy set of its in-scene elements, and the model is marked dirty. *)
Lemma update_inscene_ok (m : MultiCamera) (key : string) (c : Camera) :
  dict_get (cameras m) key = Some c ->
  (forall p, In p (points m) -> mu_defined c p) ->
  update_inscene key m
  = (Ok tt,
     set_model_updated false
       (set_cameras
          (dict_set (cameras m) key
             (with_inscene c
                (FuzzySet_of (inscene_elements (scene m) c (points m)))))
          m)).
Proof.
  intros Hk Hdef. unfold update_inscene.
  unfold bind at 1. unfold get at 1.
  unfold bind at 1.
  rewrite (update_inscene_loop m key c (scene m) (points m) Hk Hdef []).
  simpl app. unfold bind at 1. unfold assign_inscene.
  unfold bind at 1. rewrite (getitem_ok _ _ _ Hk).
  reflexivity.
Qed.

Lemma inscene_elements_In (sc : Scene) (c : Camera) (pts : list Point)
    (p : Point) (v : R) :
  In (p, v) (inscene_elements sc c pts)
  <-> In p pts /\ Camera_mu c p = Ok v /\ in_scene_test sc c p v = true.
Proof.
  unfold inscene_elements. rewrite in_flat_map. split.
  - intros [q [Hq Hin]]. destruct (Camera_mu c q) as [mu |] eqn:E; [| contradiction].
    destruct (in_scene_test sc c q mu) eqn:T; [| contradiction].
    destruct Hin as [[= -> ->] | []]. auto.
  - intros [Hp [E T]]. exists p. split; [exact Hp |].
    rewrite E, T. left. reflexivity.
Qed.

(** The fuzzy set of the in-scene elements is right about every point, and
    has no key outside the tracked points. *)
Lemma inscene_elements_agree (sc : Scene) (c : Camera) (pts : list Point)
    (p : Point) :
  In p pts ->
  inscene_agrees sc c (FuzzySet_of (inscene_elements sc c pts)) p.
Proof.
  intros Hp mu E. split.
  - intros Hout. apply FuzzySet_of_lookup_None. intros v Hin.
    apply inscene_elements_In in Hin. destruct Hin as [_ [E' T]].
    assert (v = mu) by congruence. subst v.
    apply in_scene_test_spec in T. destruct T as [To Tm].
    destruct Hout as [Ho | Hm]; [congruence | contradiction].
  - intros Hin. apply FuzzySet_of_lookup.
    + intros w w' Hw Hw'. apply inscene_elements_In in Hw, Hw'.
      destruct Hw as [_ [Ew _]], Hw' as [_ [Ew' _]]. congruence.
    + apply inscene_elements_In. split; [exact Hp |]. split; [exact E |].
      apply in_scene_test_spec. exact Hin.
Qed.

Lemma inscene_elements_untracked (sc : Scene) (c : Camera) (pts : list Point)
    (p : Point) :
  ~ In p pts -> fs_lookup (FuzzySet_of (inscene_elements sc c pts)) p = None.
Proof.
  intros Hp. apply FuzzySet_of_lookup_None. intros v Hin.
  apply inscene_elements_In in Hin. destruct Hin as [Hin _]. contradiction.
Qed.

Lemma set_cameras_eta (m : MultiCamera) : set_cameras (cameras m) m = m.
Proof. destruct m. reflexivity. Qed.

(** The loop of [add_point] over distinct keys: every key of the loop gets
    its camera updated, the other keys and the rest of the network stay. *)
Lemma add_point_loop (m0 : MultiCamera) (sc : Scene) (point : Point)
    (ks : list string) :
  NoDup ks ->
  forall d : list (string * Camera),
    (forall k, In k ks ->
       exists c s, dict_get d k = Some c /\ mu_defined c point /\
                   inscene c = Some s) ->
    exists d',
      for_each ks
        (fun key =>
           c <- getitem key ;;
           mu <- lift (Camera_mu c point) ;;
           if in_scene_test sc c point mu
           then
             (c' <- getitem key ;;
              s <- get_inscene c' ;;
              assign_inscene key (fs_union s (FuzzySet_of [(point, mu)])))
           else ret tt)%monad (set_cameras d m0)
      = (Ok tt, set_cameras d' m0) /\
      dict_keys d' = dict_keys d /\
      (forall k, In k ks ->
         dict_get d' k = option_map (add_point_camera sc point) (dict_get d k)) /\
      (forall k, ~ In k ks -> dict_get d' k = dict_get d k).
Proof.
  intros Hnd. induction Hnd as [| k ks Hk Hnd IH]; intros d Hall.
  - exists d. simpl. repeat split; intros k []. 
  - destruct (Hall k (or_introl eq_refl)) as [c [s [Ec [[v Ev] Es]]]].
    assert (Eg : getitem k (set_cameras d m0) = (Ok c, set_cameras d m0))
      by (apply getitem_ok; exact Ec).
    assert (Eupd : add_point_camera sc point c
                   = if in_scene_test sc c point v
                     then with_inscene c (fs_union s (FuzzySet_of [(point, v)]))
                     else c)
      by (unfold add_point_camera; rewrite Ev, Es; reflexivity).
    set (d1 := if in_scene_test sc c point v
               then dict_set d k (add_point_camera sc point c) else d).
    assert (Eget1 : forall k', dict_get d1 k'
                      = if String.eqb k' k
                        then Some (add_point_camera sc point c)
                        else dict_get d k').
    { intros k'. unfold d1. destruct (in_scene_test sc c point v) eqn:T.
      - apply dict_get_set.
      - rewrite Eupd. destruct (String.eqb k' k) eqn:E; [| reflexivity].
        apply String.eqb_eq in E. subst k'. exact Ec. }
    assert (Ekeys1 : dict_keys d1 = dict_keys d).
    { unfold d1. destruct (in_scene_test sc c point v); [| reflexivity].
      apply (dict_keys_set d k _ c Ec). }
    destruct (IH d1) as [d' [Erun [Ekeys [Hin Hout]]]].
    { intros k' Hk'. destruct (Hall k' (or_intror Hk')) as [c' [s' [Ec' [Hd' Es']]]].
      exists c', s'. rewrite Eget1.
      destruct (String.eqb k' k) eqn:E; [| auto].
      apply String.eqb_eq in E. subst k'. contradiction. }
    exists d'. split; [| split; [| split]].
    + simpl for_each. unfold bind at 1. unfold bind at 1. rewrite Eg.
      unfold bind at 1. unfold lift at 1. rewrite Ev.
      assert (Estep :
        (if in_scene_test sc c point v
         then (c' <- getitem k ;;
               s0 <- get_inscene c' ;;
               assign_inscene k (fs_union s0 (FuzzySet_of [(point, v)])))%monad
         else ret tt) (set_cameras d m0) = (Ok tt, set_cameras d1 m0)).
      { unfold d1. destruct (in_scene_test sc c point v) eqn:T.
        - unfold bind at 1. rewrite Eg. unfold bind at 1.
          unfold get_inscene. rewrite Es. unfold ret at 1.
          unfold assign_inscene, bind. rewrite Eg. unfold modify.
          rewrite Eupd. reflexivity.
        - reflexivity. }
      rewrite Estep. exact Erun.
    + rewrite Ekeys. exact Ekeys1.
    + intros k' [<- | Hk'].
      * rewrite (Hout k Hk), Eget1, String.eqb_refl, Ec. reflexivity.
      * rewrite (Hin k' Hk'), Eget1.
        destruct (String.eqb k' k) eqn:E; [| reflexivity].
        apply String.eqb_eq in E. subst k'. contradiction.
    + intros k' Hk'. rewrite Hout by (intros H; apply Hk'; right; exact H).
      rewrite Eget1. destruct (String.eqb k' k) eqn:E; [| reflexivity].
      apply String.eqb_eq in E. subst k'. exfalso. apply Hk'. left. reflexivity.
Qed.

Lemma singleton_lookup (point p : Point) (mu : R) :
  fs_lookup (FuzzySet_of [(point, mu)]) p
  = if Point_eq_dec p point then Some mu else None.
Proof. reflexivity. Qed.

(** [add_point] returns when every camera's [mu] does, and leaves every
    field but the tracked points and the cameras' in-scene sets: the flag
    [model_updated] among them. *)
Lemma add_point_ok (m : MultiCamera) (point : Point) :
  NoDup (dict_keys (cameras m)) ->
  (forall key c, dict_get (cameras m) key = Some c ->
                 mu_defined c point /\ exists s, inscene c = Some s) ->
  exists d',
    add_point point m
    = (Ok tt, set_cameras d' (set_points (set_add point (points m)) m)) /\
    dict_keys d' = dict_keys (cameras m) /\
    forall k, dict_get d' k
              = option_map (add_point_camera (scene m) point)
                           (dict_get (cameras m) k).
Proof.
  intros Hnd Hall.
  destruct (add_point_loop (set_points (set_add point (points m)) m)
              (scene m) point (dict_keys (cameras m)) Hnd (cameras m))
    as [d' [Erun [Ekeys [Hin Hout]]]].
  { intros k Hk. apply dict_get_In_keys in Hk. destruct Hk as [c Ec].
    destruct (Hall k c Ec) as [Hd [s Es]]. exists c, s. auto. }
  exists d'. split; [| split].
  - unfold add_point. unfold bind at 1. unfold modify at 1.
    unfold bind at 1. unfold get at 1. simpl scene. simpl cameras.
    rewrite <- Erun. reflexivity.
  - exact Ekeys.
  - intros k. destruct (in_dec string_dec k (dict_keys (cameras m))) as [Hk | Hk].
    + apply Hin. exact Hk.
    + rewrite (Hout k Hk).
      destruct (dict_get (cameras m) k) as [c |] eqn:E; [| reflexivity].
      exfalso. apply Hk. apply dict_get_In_keys. exists c. exact E.
Qed.

Lemma Rmax_idem (a : R) : Rmax a a = a.
Proof. apply Rmax_left. lra. Qed.

(** [add_point] keeps a network in order. *)
Lemma add_point_network_ok (m : MultiCamera) (point : Point) :
  network_ok m ->
  (forall key c, dict_get (cameras m) key = Some c -> mu_defined c point) ->
  exists m',
    add_point point m = (Ok tt, m') /\
    network_ok m' /\
    (forall p, In p (points m') <-> p = point \/ In p (points m)) /\
    scene m' = scene m /\ ocular m' = ocular m /\ model m' = model m /\
    model_updated m' = model_updated m /\
    dict_keys (cameras m') = dict_keys (cameras m).
Proof.
  intros [Hnd [Hagree Hunt]] Hdef.
  destruct (add_point_ok m point Hnd) as [d' [Erun [Ekeys Hget]]].
  { intros key c Ec. split; [exact (Hdef key c Ec) |].
    destruct (Hagree key c Ec) as [s [Es _]]. exists s. exact Es. }
  eexists. split; [exact Erun |].
  assert (Hcam : forall key c', dict_get d' key = Some c' ->
            exists c s mu, dict_get (cameras m) key = Some c /\
              inscene c = Some s /\ Camera_mu c point = Ok mu /\
              c' = (if in_scene_test (scene m) c point mu
                    then with_inscene c (fs_union s (FuzzySet_of [(point, mu)]))
                    else c)).
  { intros key c' Ec'. rewrite Hget in Ec'.
    destruct (dict_get (cameras m) key) as [c |] eqn:Ec; [| discriminate].
    injection Ec' as <-.
    destruct (Hagree key c Ec) as [s [Es _]].
    destruct (Hdef key c Ec) as [mu Emu].
    exists c, s, mu. repeat split; try assumption.
    unfold add_point_camera. rewrite Emu, Es. reflexivity. }
  split; [| simpl; repeat split; try reflexivity; try exact Ekeys;
            apply set_add_In].
  split; [simpl; rewrite Ekeys; exact Hnd |].
  split.
  - intros key c' Ec'. simpl in Ec'.
    destruct (Hcam key c' Ec') as [c [s [mu [Ec [Es [Emu Ec'']]]]]].
    destruct (Hagree key c Ec) as [s0 [Es0 Hs]].
    assert (s0 = s) by congruence. subst s0.
    destruct (in_scene_test (scene m) c point mu) eqn:T; subst c'.
    + eexists. split; [reflexivity |].
      intros p Hp mu' Emu'. simpl in Hp. apply set_add_In in Hp.
      rewrite Camera_mu_with_inscene in Emu'. simpl pose. simpl scene.
      rewrite fs_lookup_union, singleton_lookup.
      destruct (Point_eq_dec p point) as [-> | Hne].
      * assert (mu' = mu) by congruence. subst mu'.
        apply in_scene_test_spec in T. destruct T as [To Tm].
        split; [intros [Ho | Hm]; [congruence | contradiction] |].
        intros _. destruct (fs_lookup s point) as [w |] eqn:El; [| reflexivity].
        destruct (in_dec Point_eq_dec point (points m)) as [Hin | Hout].
        -- destruct (Hs point Hin mu Emu) as [_ Hpos].
           rewrite Hpos in El by (split; assumption). injection El as <-.
           simpl. rewrite Rmax_idem. reflexivity.
        -- rewrite (Hunt key c s point Ec Es Hout) in El. discriminate.
      * destruct Hp as [Hp | Hp]; [contradiction |].
        replace (merge_max (fs_lookup s p) None) with (fs_lookup s p)
          by (destruct (fs_lookup s p); reflexivity).
        exact (Hs p Hp mu' Emu').
    + exists s. split; [exact Es |].
      intros p Hp mu' Emu'. simpl in Hp. apply set_add_In in Hp. simpl scene.
      destruct (Point_eq_dec p point) as [-> | Hne].
      * assert (mu' = mu) by congruence. subst mu'.
        assert (Hnone : fs_lookup s point = None).
        { destruct (in_dec Point_eq_dec point (points m)) as [Hin | Hout].
          - destruct (Hs point Hin mu Emu) as [Hneg _]. apply Hneg.
            destruct (occluded (scene m) point (pose_T (pose c))) eqn:O;
              [left; reflexivity | right].
            intros Hm.
            assert (in_scene_test (scene m) c point mu = true)
              by (apply in_scene_test_spec; split; assumption).
            congruence.
          - exact (Hunt key c s point Ec Es Hout). }
        split; [intros _; exact Hnone |].
        intros Hpos.
        assert (in_scene_test (scene m) c point mu = true)
          by (apply in_scene_test_spec; exact Hpos).
        congruence.
      * destruct Hp as [Hp | Hp]; [contradiction |].
        exact (Hs p Hp mu' Emu').
  - intros key c' s' p Ec' Es' Hp. simpl in Ec', Hp.
    assert (Hpt : p <> point /\ ~ In p (points m)).
    { split; intros H; apply Hp; apply set_add_In; auto. }
    destruct Hpt as [Hne Hout].
    destruct (Hcam key c' Ec') as [c [s [mu [Ec [Es [Emu Ec'']]]]]].
    destruct (in_scene_test (scene m) c point mu); subst c'.
    + simpl in Es'. injection Es' as <-.
      rewrite fs_lookup_union, singleton_lookup.
      destruct (Point_eq_dec p point); [contradiction |].
      rewrite (Hunt key c s p Ec Es Hout). reflexivity.
    + exact (Hunt key c s' p Ec Es' Hout).
Qed.

(** What [update_inscene] establishes for the camera of its key, whatever
    the in-scene sets were before. *)
Lemma update_inscene_establishes (m : MultiCamera) (key : string) (c : Camera) :
  dict_get (cameras m) key = Some c ->
  (forall p, In p (points m) -> mu_defined c p) ->
  exists m' s,
    update_inscene key m = (Ok tt, m') /\
    dict_get (cameras m') key = Some (with_inscene c s) /\
    points m' = points m /\ scene m' = scene m /\
    model_updated m' = false /\
    (forall k, k <> key -> dict_get (cameras m') k = dict_get (cameras m) k) /\
    dict_keys (cameras m') = dict_keys (cameras m) /\
    (forall p, In p (points m') -> inscene_agrees (scene m') (with_inscene c s) s p) /\
    (forall p, ~ In p (points m') -> fs_lookup s p = None).
Proof.
  intros Hk Hdef. eexists. eexists.
  split; [apply (update_inscene_ok m key c Hk Hdef) |].
  simpl.
  split; [rewrite dict_get_set, String.eqb_refl; reflexivity |].
  do 3 (split; [reflexivity |]).
  split.
  { intros k Hne. rewrite dict_get_set.
    destruct (String.eqb k key) eqn:E; [| reflexivity].
    apply String.eqb_eq in E. contradiction. }
  split; [apply (dict_keys_set (cameras m) key _ c Hk) |].
  split.
  - intros p Hp. exact (inscene_elements_agree (scene m) c (points m) p Hp).
  - intros p Hp. apply inscene_elements_untracked. exact Hp.
Qed.

Lemma dict_set_NoDup {V : Type} (d : list (string * V)) (k : string) (v : V) :
  NoDup (dict_keys d) -> NoDup (dict_keys (dict_set d k v)).
Proof.
  intros Hnd. destruct (dict_get d k) as [v0 |] eqn:E.
  - rewrite (dict_keys_set d k v v0 E). exact Hnd.
  - rewrite (dict_keys_set_fresh d k v E).
    apply NoDup_app; [exact Hnd | constructor; [intros [] | constructor] |].
    intros x Hx [<- | []]. apply dict_get_In_keys in Hx.
    destruct Hx as [w Hw]. congruence.
Qed.

(** Item assignment of a camera keeps a network in order and marks the model
    dirty. *)
Lemma setitem_network_ok (m : MultiCamera) (key : string) (c : Camera) :
  network_ok m ->
  (forall p, In p (points m) -> mu_defined c p) ->
  exists m',
    setitem key (ObjCamera c) m = (Ok tt, m') /\
    network_ok m' /\ model_updated m' = false /\
    points m' = points m /\ scene m' = scene m /\ ocular m' = ocular m /\
    exists s, dict_get (cameras m') key = Some (with_inscene c s).
Proof.
  intros [Hnd [Hagree Hunt]] Hdef.
  set (m1 := set_cameras (dict_set (cameras m) key c) m).
  assert (Hk1 : dict_get (cameras m1) key = Some c)
    by (simpl; rewrite dict_get_set, String.eqb_refl; reflexivity).
  destruct (update_inscene_establishes m1 key c Hk1 Hdef)
    as [m' [s [Erun [Eget [Epts [Esc [Eflag [Hother [Ekeys [Hag Hun]]]]]]]]]].
  exists m'. split; [exact Erun |].
  assert (Eoc : ocular m' = ocular m).
  { rewrite (update_inscene_ok m1 key c Hk1 Hdef) in Erun.
    injection Erun as <-. reflexivity. }
  split; [| repeat split; try assumption; exists s; exact Eget].
  split; [rewrite Ekeys; simpl; apply dict_set_NoDup; exact Hnd |].
  assert (Hold : forall k c0, k <> key -> dict_get (cameras m') k = Some c0 ->
                              dict_get (cameras m) k = Some c0).
  { intros k c0 Hne E. rewrite (Hother k Hne) in E. simpl in E.
    rewrite dict_get_set in E.
    destruct (String.eqb k key) eqn:Ek; [| exact E].
    apply String.eqb_eq in Ek. contradiction. }
  split.
  - intros k c0 E. destruct (string_dec k key) as [-> | Hne].
    + rewrite Eget in E. injection E as <-. exists s. split; [reflexivity |].
      exact Hag.
    + destruct (Hagree k c0 (Hold k c0 Hne E)) as [s0 [Es0 Hs0]].
      exists s0. split; [exact Es0 |].
      rewrite Epts, Esc. exact Hs0.
  - intros k c0 s0 p E Es0 Hp. destruct (string_dec k key) as [-> | Hne].
    + rewrite Eget in E. injection E as <-. simpl in Es0. injection Es0 as <-.
      apply Hun. exact Hp.
    + rewrite Epts in Hp. exact (Hunt k c0 s0 p (Hold k c0 Hne E) Es0 Hp).
Qed.

Lemma empty_network_ok_general (oc : Z) (sc : Scene) (pts : list Point) :
  network_ok {| cameras := []; ocular := oc; scene := sc; points := pts;
                model := []; model_updated := false |}.
Proof.
  split; [constructor |]. split.
  - intros key c E. discriminate.
  - intros key c s p E. discriminate.
Qed.


(** ** [update_model] and [mu] *)

Lemma combinations_1 {A : Type} (l : list A) :
  combinations l 1 = map (fun x => [x]) l.
Proof.
  induction l as [| x l IH]; [reflexivity |].
  simpl. simpl in IH. rewrite IH. destruct l; reflexivity.
Qed.

(** With [ocular = 1] the first loop of [update_model] collects the in-scene
    set of each key. *)
Lemma submodels_loop (self st : MultiCamera) (ks : list string) :
  ocular self = 1%Z ->
  (forall k, In k ks ->
     exists c s, dict_get (cameras st) k = Some c /\ inscene c = Some s) ->
  forall acc,
    for_acc (map (fun k => [k]) ks) acc
      (fun submodels combination =>
         s <- submodel_of self combination ;;
         ret (submodels ++ [s]))%monad st
    = (Ok (acc ++ key_insets (cameras st) ks), st).
Proof.
  intros Hoc. induction ks as [| k ks IH]; intros Hall acc; simpl.
  - rewrite app_nil_r. reflexivity.
  - destruct (Hall k (or_introl eq_refl)) as [c [s [Ec Es]]].
    assert (Esub : submodel_of self [k] st = (Ok s, st)).
    { unfold submodel_of. unfold bind at 1. unfold lift at 1.
      cbn [py_index nth_error].
      unfold bind at 1. rewrite (getitem_ok st k c Ec).
      unfold bind at 1. unfold get_inscene. rewrite Es. unfold ret at 1.
      rewrite Hoc. reflexivity. }
    unfold bind at 1. unfold bind at 1. rewrite Esub. unfold ret at 1.
    rewrite IH by (intros k' Hk'; apply Hall; right; exact Hk').
    rewrite Ec, Es. rewrite <- app_assoc. reflexivity.
Qed.

Lemma union_loop (subs : list FuzzySet) :
  forall st : MultiCamera,
    for_each subs
      (fun submodel =>
         modify (fun self' => set_model (fs_union (model self') submodel) self')) st
    = (Ok tt, set_model (fold_left fs_union subs (model st)) st).
Proof.
  induction subs as [| s subs IH]; intros st; simpl.
  - destruct st. reflexivity.
  - unfold bind. unfold modify at 1. rewrite IH. reflexivity.
Qed.

Lemma key_insets_ext (d d' : list (string * Camera)) (ks : list string) :
  (forall k, In k ks -> dict_get d k = dict_get d' k) ->
  key_insets d ks = key_insets d' ks.
Proof.
  induction ks as [| k ks IH]; intros H; simpl; [reflexivity |].
  rewrite (H k (or_introl eq_refl)). f_equal.
  apply IH. intros k' Hk'. apply H. right. exact Hk'.
Qed.

(** Under distinct keys, the sets reached through the keys are the in-scene
    sets of the cameras. *)
Lemma key_insets_all (d : list (string * Camera)) :
  NoDup (dict_keys d) ->
  key_insets d (dict_keys d)
  = flat_map (fun kc => match inscene (snd kc) with Some s => [s] | None => [] end) d.
Proof.
  induction d as [| [k c] d IH]; intros Hnd; [reflexivity |].
  inversion Hnd as [| k0 l Hk Hnd']; subst.
  simpl. rewrite String.eqb_refl. f_equal.
  rewrite <- (IH Hnd'). apply key_insets_ext.
  intros k' Hk'. simpl. destruct (String.eqb k' k) eqn:E; [| reflexivity].
  apply String.eqb_eq in E. subst k'. contradiction.
Qed.

(** [update_model] for a monocular network with a camera. *)
Lemma update_model_monocular (m : MultiCamera) :
  ocular m = 1%Z -> cameras m <> [] ->
  NoDup (dict_keys (cameras m)) ->
  (forall k c, dict_get (cameras m) k = Some c -> exists s, inscene c = Some s) ->
  update_model m
  = (Ok tt, set_model_updated true (set_model (union_all (inscene_sets m)) m)).
Proof.
  intros Hoc Hne Hnd Hall. unfold update_model.
  unfold bind at 1. unfold get at 1.
  assert (Hlen : (Z.of_nat (List.length (cameras m)) <? ocular m)%Z = false).
  { rewrite Hoc. apply Z.ltb_ge. destruct (cameras m); [contradiction | simpl; lia]. }
  rewrite Hlen.
  unfold bind at 1. unfold modify at 1.
  unfold bind at 1. unfold lift at 1. unfold py_combinations. rewrite Hoc.
  change (1 <? 0)%Z with false. cbv iota. change (Z.to_nat 1) with 1%nat.
  rewrite combinations_1.
  unfold bind at 1.
  rewrite (submodels_loop m (set_model [] m) (dict_keys (cameras m)) Hoc).
  2:{ intros k Hk. apply dict_get_In_keys in Hk. destruct Hk as [c Ec].
      destruct (Hall k c Ec) as [s Es]. exists c, s. auto. }
  simpl app. unfold bind at 1. rewrite union_loop.
  simpl. unfold modify. unfold inscene_sets, union_all.
  rewrite (key_insets_all (cameras m) Hnd). reflexivity.
Qed.

Lemma merge_max_fold_Some (os : list (option R)) :
  forall (o : option R) (v : R),
    fold_left merge_max os o = Some v
    <-> In (Some v) (o :: os) /\ forall w, In (Some w) (o :: os) -> w <= v.
Proof.
  induction os as [| x os IH]; intros o v.
  - simpl. split.
    + intros ->. split; [left; reflexivity |].
      intros w [[= ->] | []]. lra.
    + intros [[H | []] _]. exact H.
  - simpl fold_left. rewrite IH. clear IH.
    destruct o as [a |], x as [b |]; simpl merge_max.
    + split.
      * intros [Hin Hb]. split.
        -- destruct Hin as [[= <-] | Hin]; [| right; right; exact Hin].
           unfold Rmax. destruct (Rle_dec a b); [right; left | left]; reflexivity.
        -- intros w [[= ->] | [[= ->] | Hw]].
           ++ apply Rle_trans with (Rmax w b); [apply Rmax_l |].
              apply Hb. left. reflexivity.
           ++ apply Rle_trans with (Rmax a w); [apply Rmax_r |].
              apply Hb. left. reflexivity.
           ++ apply Hb. right. exact Hw.
      * intros [Hin Hb].
        assert (Ha : a <= v) by (apply Hb; left; reflexivity).
        assert (Hbv : b <= v) by (apply Hb; right; left; reflexivity).
        split.
        -- destruct Hin as [[= ->] | [[= ->] | Hin]].
           ++ left. f_equal. apply Rmax_left. exact Hbv.
           ++ left. f_equal. apply Rmax_right. exact Ha.
           ++ right. exact Hin.
        -- intros w [[= <-] | Hw].
           ++ apply Rmax_lub; assumption.
           ++ apply Hb. right. right. exact Hw.
    + split.
      * intros [Hin Hb]. split.
        -- destruct Hin as [H | H]; [left; exact H | right; right; exact H].
        -- intros w [H | [H | H]]; [apply Hb; left; exact H | discriminate |
                                    apply Hb; right; exact H].
      * intros [Hin Hb]. split.
        -- destruct Hin as [H | [H | H]]; [left; exact H | discriminate |
                                           right; exact H].
        -- intros w [H | H]; apply Hb; [left | right; right]; exact H.
    + split.
      * intros [Hin Hb]. split.
        -- right. exact Hin.
        -- intros w [H | H]; [discriminate | apply Hb; exact H].
      * intros [Hin Hb]. split.
        -- destruct Hin as [H | H]; [discriminate | exact H].
        -- intros w H. apply Hb. right. exact H.
    + split.
      * intros [Hin Hb]. split.
        -- destruct Hin as [H | H]; [discriminate | right; right; exact H].
        -- intros w [H | [H | H]]; [discriminate | discriminate |
                                    apply Hb; right; exact H].
      * intros [Hin Hb]. split.
        -- destruct Hin as [H | [H | H]]; [discriminate | discriminate |
                                           right; exact H].
        -- intros w [H | H]; [discriminate | apply Hb; right; right; exact H].
Qed.

Lemma fs_lookup_fold_union (l : list FuzzySet) (p : Point) :
  forall acc : FuzzySet,
    fs_lookup (fold_left fs_union l acc) p
    = fold_left merge_max (map (fun s => fs_lookup s p) l) (fs_lookup acc p).
Proof.
  induction l as [| s l IH]; intros acc; simpl; [reflexivity |].
  rewrite IH, fs_lookup_union. reflexivity.
Qed.

(** The union of a list of fuzzy sets is their pointwise maximum. *)
Lemma union_all_pointwise_max (l : list FuzzySet) (p : Point) (v : R) :
  fs_lookup (union_all l) p = Some v
  <-> (exists s, In s l /\ fs_lookup s p = Some v) /\
      (forall s w, In s l -> fs_lookup s p = Some w -> w <= v).
Proof.
  unfold union_all. rewrite fs_lookup_fold_union, merge_max_fold_Some.
  simpl fs_lookup. split.
  - intros [Hin Hb]. split.
    + destruct Hin as [H | Hin]; [discriminate |].
      apply in_map_iff in Hin. destruct Hin as [s [Es Hs]]. exists s. auto.
    + intros s w Hs Ew. apply Hb. right. apply in_map_iff. exists s. auto.
  - intros [[s [Hs Es]] Hb]. split.
    + right. apply in_map_iff. exists s. auto.
    + intros w [H | Hw]; [discriminate |].
      apply in_map_iff in Hw. destruct Hw as [s' [Es' Hs']].
      exact (Hb s' w Hs' Es').
Qed.

Lemma inscene_sets_In (m : MultiCamera) (s : FuzzySet) :
  In s (inscene_sets m)
  <-> exists k c, In (k, c) (cameras m) /\ inscene c = Some s.
Proof.
  unfold inscene_sets. rewrite in_flat_map. split.
  - intros [[k c] [Hin Hs]]. simpl in Hs.
    destruct (inscene c) as [s0 |] eqn:E; [| contradiction].
    destruct Hs as [<- | []]. exists k, c. auto.
  - intros [k [c [Hin E]]]. exists (k, c). split; [exact Hin |].
    simpl. rewrite E. left. reflexivity.
Qed.

(** C7: for a network with [ocular = 1] and a camera (the keys of the dict
    are distinct, and every camera has the in-scene set item assignment gave
    it), [update_model] returns and the model it leaves is the union of the
    cameras' in-scene sets: a point is a key of the model exactly when it is
    a key of some in-scene set, and its degree is the greatest of its degrees
    in the in-scene sets. *)
Theorem C7_monocular_model_is_union (m : MultiCamera) :
  NoDup (dict_keys (cameras m)) ->
  (forall k c, dict_get (cameras m) k = Some c -> exists s, inscene c = Some s) ->
  ocular m = 1%Z -> cameras m <> [] ->
  exists m',
    update_model m = (Ok tt, m') /\
    cameras m' = cameras m /\
    model m' = union_all (inscene_sets m) /\
    forall p,
      (forall v,
         fs_lookup (model m') p = Some v
         <-> (exists k c s, In (k, c) (cameras m) /\ inscene c = Some s /\
                            fs_lookup s p = Some v) /\
             (forall k c s w, In (k, c) (cameras m) -> inscene c = Some s ->
                              fs_lookup s p = Some w -> w <= v)) /\
      (fs_lookup (model m') p = None
       <-> forall k c s, In (k, c) (cameras m) -> inscene c = Some s ->
                         fs_lookup s p = None).
Proof.
  intros Hnd Hins Hoc Hne.
  eexists. split.
  { apply update_model_monocular; assumption. }
  simpl. split; [reflexivity |]. split; [reflexivity |].
  intros p.
  assert (Hsome : forall v,
    fs_lookup (union_all (inscene_sets m)) p = Some v
    <-> (exists k c s, In (k, c) (cameras m) /\ inscene c = Some s /\
                       fs_lookup s p = Some v) /\
        (forall k c s w, In (k, c) (cameras m) -> inscene c = Some s ->
                         fs_lookup s p = Some w -> w <= v)).
  { intros v. rewrite union_all_pointwise_max. split.
    - intros [[s [Hs Es]] Hb]. apply inscene_sets_In in Hs.
      destruct Hs as [k [c [Hin Ec]]]. split.
      + exists k, c, s. auto.
      + intros k' c' s' w Hin' Ec' Ew. apply (Hb s' w); [| exact Ew].
        apply inscene_sets_In. exists k', c'. auto.
    - intros [[k [c [s [Hin [Ec Es]]]]] Hb]. split.
      + exists s. split; [| exact Es]. apply inscene_sets_In. exists k, c. auto.
      + intros s' w Hs' Ew. apply inscene_sets_In in Hs'.
        destruct Hs' as [k' [c' [Hin' Ec']]]. exact (Hb k' c' s' w Hin' Ec' Ew). }
  split; [exact Hsome |].
  split.
  - intros Hnone k c s Hin Ec.
    destruct (fs_lookup s p) as [w |] eqn:Ew; [| reflexivity].
    exfalso.
    assert (Hfold : forall os o, (exists w', In (Some w') (o :: os)) ->
                                 fold_left merge_max os o <> None).
    { induction os as [| x os IH]; intros o [w' Hw'].
      - simpl. destruct Hw' as [-> | []]. discriminate.
      - simpl. apply IH. destruct o as [a |].
        + destruct x as [b |]; eexists; left; reflexivity.
        + destruct Hw' as [H | [H | H]]; [discriminate | |].
          * exists w'. left. simpl. exact H.
          * exists w'. right. exact H. }
    unfold union_all in Hnone. rewrite fs_lookup_fold_union in Hnone.
    revert Hnone. apply Hfold. exists w. right.
    apply in_map_iff. exists s. split; [exact Ew |].
    apply inscene_sets_In. exists k, c. auto.
  - intros Hall. destruct (fs_lookup (union_all (inscene_sets m)) p) as [v |] eqn:E;
      [| reflexivity].
    destruct (proj1 (Hsome v) eq_refl) as [[k [c [s [Hin [Ec Es]]]]] _].
    rewrite (Hall k c s Hin Ec) in Es. discriminate.
Qed.

(** [mu] when the point is no key of the model: the fallback names [n]. *)
Lemma MultiCamera_mu_fallback (m : MultiCamera) (point : Point) :
  (ocular m <= Z.of_nat (List.length (cameras m)))%Z ->
  fs_mem point (model m) = false ->
  MultiCamera_mu point m = (Raise NameError, m).
Proof.
  intros Hlen Hmem. unfold MultiCamera_mu, bind, get.
  replace (Z.of_nat (List.length (cameras m)) <? ocular m)%Z with false
    by (symmetry; apply Z.ltb_ge; exact Hlen).
  rewrite Hmem. reflexivity.
Qed.

Lemma MultiCamera_mu_cached (m : MultiCamera) (point : Point) :
  (ocular m <= Z.of_nat (List.length (cameras m)))%Z ->
  fs_mem point (model m) = true ->
  MultiCamera_mu point m = (Ok (fs_mu (model m) point), m).
Proof.
  intros Hlen Hmem. unfold MultiCamera_mu, bind, get.
  replace (Z.of_nat (List.length (cameras m)) <? ocular m)%Z with false
    by (symmetry; apply Z.ltb_ge; exact Hlen).
  rewrite Hmem. reflexivity.
Qed.

(** C6: the constructor raises for an ocular degree below 1, and
    [update_model] and [mu] raise, leaving the network as it is, when the
    network has fewer cameras than its ocular degree. *)
Theorem C6_configuration_errors (ocular0 : Z) (sc : Scene) (pts : list Point)
    (m : MultiCamera) (point : Point) :
  (ocular0 < 1)%Z ->
  (Z.of_nat (List.length (cameras m)) < ocular m)%Z ->
  MultiCamera_init ocular0 sc pts = Raise ValueError /\
  update_model m = (Raise ValueError, m) /\
  MultiCamera_mu point m = (Raise ValueError, m).
Proof.
  intros Hoc Hlen.
  apply Z.ltb_lt in Hoc. apply Z.ltb_lt in Hlen.
  split; [unfold MultiCamera_init; rewrite Hoc; reflexivity |].
  split.
  - unfold update_model, bind, get. rewrite Hlen. reflexivity.
  - unfold MultiCamera_mu, bind, get. rewrite Hlen. reflexivity.
Qed.

(** C10: assigning a value that is no camera raises [ValueError] and leaves
    the network as it is. *)
Theorem C10_setitem_rejects_non_camera (m : MultiCamera) (key : string)
    (value : pyobject) :
  as_Camera value = None ->
  setitem key value m = (Raise ValueError, m).
Proof. intros H. unfold setitem. rewrite H. reflexivity. Qed.

(** ** What the operations keep *)

Lemma same_network_refl (m : MultiCamera) : same_network m m.
Proof. repeat split. Qed.

Lemma same_network_trans (m1 m2 m3 : MultiCamera) :
  same_network m1 m2 -> same_network m2 m3 -> same_network m1 m3.
Proof.
  intros [A1 [B1 [C1 D1]]] [A2 [B2 [C2 D2]]].
  repeat split; congruence.
Qed.

Lemma keeps_bind {A B : Type} (c : M MultiCamera A) (k : A -> M MultiCamera B) :
  keeps_network c -> (forall a, keeps_network (k a)) ->
  keeps_network (bind c k).
Proof.
  intros Hc Hk m r m' H. unfold bind in H.
  destruct (c m) as [[a | e] m1] eqn:E.
  - apply (same_network_trans m m1 m'); [exact (Hc m _ m1 E) |].
    exact (Hk a m1 r m' H).
  - injection H as _ <-. exact (Hc m _ m1 E).
Qed.

Lemma keeps_pure {A : Type} (c : M MultiCamera A) :
  (forall m, snd (c m) = m) -> keeps_network c.
Proof.
  intros H m r m' E. specialize (H m). rewrite E in H. simpl in H. subst m'.
  apply same_network_refl.
Qed.

Lemma keeps_getitem (key : string) : keeps_network (getitem key).
Proof.
  apply keeps_pure. intros m. unfold getitem.
  destruct (dict_get (cameras m) key); reflexivity.
Qed.

Lemma keeps_get_inscene (c : Camera) : keeps_network (get_inscene c).
Proof.
  apply keeps_pure. intros m. unfold get_inscene.
  destruct (inscene c); reflexivity.
Qed.

Lemma keeps_for_acc {A B : Type} (l : list A) (body : B -> A -> M MultiCamera B) :
  (forall acc a, keeps_network (body acc a)) ->
  forall acc, keeps_network (for_acc l acc body).
Proof.
  intros Hb. induction l as [| a l IH]; intros acc; simpl.
  - apply keeps_pure. reflexivity.
  - apply keeps_bind; [apply Hb | intros acc'; apply IH].
Qed.

Lemma keeps_for_each {A : Type} (l : list A) (body : A -> M MultiCamera unit) :
  (forall a, keeps_network (body a)) -> keeps_network (for_each l body).
Proof.
  intros Hb. induction l as [| a l IH]; simpl.
  - apply keeps_pure. reflexivity.
  - apply keeps_bind; [apply Hb | intros _; exact IH].
Qed.

Lemma keeps_modify (f : MultiCamera -> MultiCamera) :
  (forall m, same_network m (f m)) -> keeps_network (modify f).
Proof. intros H m r m' E. injection E as _ <-. apply H. Qed.

(** [update_model], however it ends, touches the model and its flag only. *)
Lemma update_model_keeps_network : keeps_network update_model.
Proof.
  unfold update_model.
  apply keeps_bind; [apply keeps_pure; reflexivity |].
  intros self.
  destruct (Z.of_nat (List.length (cameras self)) <? ocular self)%Z;
    [apply keeps_pure; reflexivity |].
  apply keeps_bind; [apply keeps_modify; intros m; repeat split |].
  intros _. apply keeps_bind; [apply keeps_pure; reflexivity |].
  intros combs. apply keeps_bind.
  - apply keeps_for_acc. intros acc combination.
    apply keeps_bind; [| intros s; apply keeps_pure; reflexivity].
    unfold submodel_of.
    apply keeps_bind; [apply keeps_pure; reflexivity |].
    intros k0. apply keeps_bind; [apply keeps_getitem |].
    intros c0. apply keeps_bind; [apply keeps_get_inscene |].
    intros s0. apply keeps_for_acc. intros s i.
    apply keeps_bind; [apply keeps_pure; reflexivity |].
    intros ki. apply keeps_bind; [apply keeps_getitem |].
    intros ci. apply keeps_bind; [apply keeps_get_inscene |].
    intros si. apply keeps_pure. reflexivity.
  - intros submodels. apply keeps_bind.
    + apply keeps_for_each. intros submodel. apply keeps_modify.
      intros m. repeat split.
    + intros _. apply keeps_modify. intros m. repeat split.
Qed.

Lemma network_ok_same (m m' : MultiCamera) :
  same_network m m' -> network_ok m -> network_ok m'.
Proof.
  unfold network_ok, cameras_agree. intros [-> [-> [-> _]]] H. exact H.
Qed.

(** The invariant [network_ok] holds of a new network and is kept by
    [update_model] and by [update_inscene]. *)
Lemma MultiCamera_init_ok (ocular0 : Z) (sc : Scene) (pts : list Point)
    (m : MultiCamera) :
  MultiCamera_init ocular0 sc pts = Ok m -> network_ok m /\ (1 <= ocular m)%Z.
Proof.
  unfold MultiCamera_init. destruct (ocular0 <? 1)%Z eqn:E; [discriminate |].
  intros [= <-]. split; [apply empty_network_ok_general |].
  simpl. apply Z.ltb_ge. exact E.
Qed.

Lemma update_model_network_ok (m m' : MultiCamera) (r : result unit) :
  network_ok m -> update_model m = (r, m') -> network_ok m'.
Proof.
  intros Hok E. apply (network_ok_same m m'); [| exact Hok].
  exact (update_model_keeps_network m r m' E).
Qed.

Lemma update_inscene_network_ok (m : MultiCamera) (key : string) (c : Camera) :
  network_ok m ->
  dict_get (cameras m) key = Some c ->
  (forall p, In p (points m) -> mu_defined c p) ->
  exists m', update_inscene key m = (Ok tt, m') /\ network_ok m' /\
             model_updated m' = false.
Proof.
  intros [Hnd [Hagree Hunt]] Hk Hdef.
  destruct (update_inscene_establishes m key c Hk Hdef)
    as [m' [s [Erun [Eget [Epts [Esc [Eflag [Hother [Ekeys [Hag Hun]]]]]]]]]].
  exists m'. split; [exact Erun |]. split; [| exact Eflag].
  split; [rewrite Ekeys; exact Hnd |]. split.
  - intros k c0 E. destruct (string_dec k key) as [-> | Hne].
    + rewrite Eget in E. injection E as <-. exists s. split; [reflexivity |].
      exact Hag.
    + rewrite (Hother k Hne) in E.
      destruct (Hagree k c0 E) as [s0 [Es0 Hs0]].
      exists s0. split; [exact Es0 |]. rewrite Epts, Esc. exact Hs0.
  - intros k c0 s0 p E Es0 Hp. destruct (string_dec k key) as [-> | Hne].
    + rewrite Eget in E. injection E as <-. simpl in Es0. injection Es0 as <-.
      apply Hun. exact Hp.
    + rewrite (Hother k Hne) in E. rewrite Epts in Hp.
      exact (Hunt k c0 s0 p E Es0 Hp).
Qed.

End MultiCameraProperties.

(** ** The example network *)

Lemma example_camera_mu_defined (p : Point) :
  mu_defined (example_camera 1) p.
Proof.
  destruct (Camera_mu_total (example_camera 1) p) as [v [Ev _]].
  - simpl. discriminate.
  - left. simpl. lra.
  - exists v. exact Ev.
Qed.

(** The network of one camera, written out. *)
Lemma one_camera_network_eq (pts : list Point) :
  one_camera_network pts
  = {| cameras :=
         [("c"%string,
           with_inscene (example_camera 1)
             (FuzzySet_of (inscene_elements [] (example_camera 1) pts)))];
       ocular := 1; scene := []; points := pts; model := [];
       model_updated := false |}.
Proof.
  unfold one_camera_network, setitem. cbn [as_Camera].
  unfold bind at 1. unfold modify at 1. cbv beta iota.
  rewrite (update_inscene_ok _ "c" (example_camera 1)).
  - reflexivity.
  - reflexivity.
  - intros p _. apply example_camera_mu_defined.
Qed.

Lemma one_camera_network_ok (pts : list Point) :
  network_ok (one_camera_network pts).
Proof.
  destruct (setitem_network_ok (empty_network pts) "c" (example_camera 1))
    as [m' [Erun [Hok _]]].
  - apply empty_network_ok_general.
  - intros p _. apply example_camera_mu_defined.
  - unfold one_camera_network. rewrite Erun. exact Hok.
Qed.

(** [network_ok] looks at the cameras, the tracked points and the scene
    only. *)
Lemma network_ok_frame {G : Geometry} (m m' : MultiCamera) :
  cameras m' = cameras m -> points m' = points m -> scene m' = scene m ->
  network_ok m -> network_ok m'.
Proof.
  unfold network_ok, cameras_agree. intros -> -> -> H. exact H.
Qed.

Lemma updated_network_eq (pts : list Point) :
  updated_network pts
  = set_model_updated true
      (set_model (union_all (inscene_sets (one_camera_network pts)))
                 (one_camera_network pts)).
Proof.
  unfold updated_network. rewrite update_model_monocular.
  - reflexivity.
  - rewrite one_camera_network_eq. reflexivity.
  - rewrite one_camera_network_eq. discriminate.
  - apply one_camera_network_ok.
  - destruct (one_camera_network_ok pts) as [_ [Hag _]].
    intros k c Ec. destruct (Hag k c Ec) as [s [Es _]]. exists s. exact Es.
Qed.

Lemma updated_network_ok (pts : list Point) :
  network_ok (updated_network pts).
Proof.
  apply (network_ok_frame (one_camera_network pts));
    try (rewrite updated_network_eq; reflexivity).
  apply one_camera_network_ok.
Qed.

Lemma updated_network_cameras :
  cameras (updated_network [])
  = [("c"%string, with_inscene (example_camera 1) [])].
Proof.
  rewrite updated_network_eq. unfold set_model_updated, set_model.
  cbn [cameras]. rewrite one_camera_network_eq. reflexivity.
Qed.

Lemma updated_network_model : model (updated_network []) = [].
Proof.
  rewrite updated_network_eq. unfold set_model_updated, set_model.
  cbn [model]. rewrite one_camera_network_eq. reflexivity.
Qed.

(** C3, at the network of the example camera with [ocular = 1] after
    [update_model], and the point (1, 4, 2), which is no key of the model:
    the network has enough cameras, the maximum over the one combination of
    the minimum membership is 1, and [mu] raises [NameError]. *)
Theorem C3_mu_fallback_raises_NameError :
  let m := updated_network [] in
  let point := PlainPoint 1 4 2 in
  (ocular m <= Z.of_nat (List.length (cameras m)))%Z /\
  fs_mem point (model m) = false /\
  mu_fallback_configured m point = Ok 1 /\
  MultiCamera_mu point m = (Raise NameError, m).
Proof.
  intros m point.
  assert (Hoc : ocular m = 1%Z)
    by (unfold m; rewrite updated_network_eq;
        unfold set_model_updated, set_model; cbn [ocular];
        rewrite one_camera_network_eq; reflexivity).
  assert (Hlen : (ocular m <= Z.of_nat (List.length (cameras m)))%Z)
    by (rewrite Hoc; unfold m; rewrite updated_network_cameras; simpl; lia).
  assert (Hmem : fs_mem point (model m) = false)
    by (unfold m; rewrite updated_network_model; reflexivity).
  split; [exact Hlen |]. split; [exact Hmem |]. split.
  - unfold mu_fallback_configured. rewrite Hoc. unfold m.
    rewrite updated_network_cameras. simpl.
    rewrite Camera_mu_with_inscene.
    unfold point. rewrite example_camera_mu. reflexivity.
  - apply MultiCamera_mu_fallback; assumption.
Qed.

Lemma example_add_point_camera :
  add_point_camera [] (PlainPoint 1 4 2) (with_inscene (example_camera 1) [])
  = with_inscene (example_camera 1) [(PlainPoint 1 4 2, 1)].
Proof.
  unfold add_point_camera.
  rewrite Camera_mu_with_inscene, example_camera_mu.
  cbn [inscene with_inscene]. unfold in_scene_test.
  rewrite Rltb_true by lra. reflexivity.
Qed.

(** C5, at the same network, whose model is clean, and the point (1, 4, 2):
    [add_point] returns, the point is tracked and enters the camera's
    in-scene set with weight 1, the model does not have it, and the flag
    still says that the model is up to date. *)
Theorem C5_add_point_leaves_model_clean :
  let m := updated_network [] in
  let point := PlainPoint 1 4 2 in
  model_updated m = true /\
  exists m' c s,
    add_point point m = (Ok tt, m') /\
    In point (points m') /\
    dict_get (cameras m') "c" = Some c /\ inscene c = Some s /\
    fs_lookup s point = Some 1 /\
    fs_lookup (model m') point = None /\
    model_updated m' = true.
Proof.
  intros m point.
  assert (Hflag : model_updated m = true)
    by (unfold m; rewrite updated_network_eq; reflexivity).
  assert (Hscene : scene m = [])
    by (unfold m; rewrite updated_network_eq;
        unfold set_model_updated, set_model; cbn [scene];
        rewrite one_camera_network_eq; reflexivity).
  split; [exact Hflag |].
  destruct (add_point_ok m point) as [d' [Erun [_ Hget]]].
  { unfold m. rewrite updated_network_cameras. repeat constructor.
    intros []. }
  { intros key c Ec. unfold m in Ec. rewrite updated_network_cameras in Ec.
    simpl in Ec. destruct (String.eqb key "c"); [| discriminate].
    injection Ec as <-. split; [| exists []; reflexivity].
    destruct (example_camera_mu_defined point) as [v Ev].
    exists v. rewrite Camera_mu_with_inscene. exact Ev. }
  specialize (Hget "c"%string). unfold m in Hget at 2.
  rewrite updated_network_cameras in Hget. rewrite Hscene in Hget.
  cbn [dict_get String.eqb Ascii.eqb Bool.eqb option_map] in Hget.
  unfold point in Hget. rewrite example_add_point_camera in Hget.
  eexists. eexists. eexists.
  split; [exact Erun |].
  split; [cbn [points set_cameras set_points]; apply set_add_In; left; reflexivity |].
  split; [exact Hget |].
  split; [reflexivity |].
  split.
  - cbn [fs_lookup]. destruct (Point_eq_dec point (PlainPoint 1 4 2));
      [reflexivity | contradiction].
  - split; [| exact Hflag].
    cbn [model set_cameras set_points]. unfold m.
    rewrite updated_network_model. reflexivity.
Qed.


(** The witness of C6: the degree 0, and a 1-ocular network without a
    camera. *)
Lemma C6_configuration_errors_witness :
  @MultiCamera_init TranslationGeometry 0 [] [] = Raise ValueError /\
  update_model (empty_network []) = (Raise ValueError, empty_network []) /\
  MultiCamera_mu (PlainPoint 0 0 1) (empty_network [])
  = (Raise ValueError, empty_network []).
Proof.
  apply (@C6_configuration_errors TranslationGeometry 0 [] []
           (empty_network []) (PlainPoint 0 0 1)).
  - lia.
  - simpl. lia.
Defined.

(** The witness of C7: the network of the example camera tracking the point
    (1, 4, 2). *)
Lemma C7_monocular_model_is_union_witness :
  let m := one_camera_network [PlainPoint 1 4 2] in
  exists m',
    update_model m = (Ok tt, m') /\
    cameras m' = cameras m /\
    model m' = union_all (inscene_sets m) /\
    forall p,
      (forall v,
         fs_lookup (model m') p = Some v
         <-> (exists k c s, In (k, c) (cameras m) /\ inscene c = Some s /\
                            fs_lookup s p = Some v) /\
             (forall k c s w, In (k, c) (cameras m) -> inscene c = Some s ->
                              fs_lookup s p = Some w -> w <= v)) /\
      (fs_lookup (model m') p = None
       <-> forall k c s, In (k, c) (cameras m) -> inscene c = Some s ->
                         fs_lookup s p = None).
Proof.
  intros m.
  apply (C7_monocular_model_is_union m).
  - apply one_camera_network_ok.
  - destruct (one_camera_network_ok [PlainPoint 1 4 2]) as [_ [Hag _]].
    intros k c Ec. destruct (Hag k c Ec) as [s [Es _]]. exists s. exact Es.
  - unfold m. rewrite one_camera_network_eq. reflexivity.
  - unfold m. rewrite one_camera_network_eq. discriminate.
Defined.

(** The witness of C10: assigning [None] under the key "c". *)
Lemma C10_setitem_rejects_non_camera_witness :
  setitem "c" ObjNone (empty_network []) = (Raise ValueError, empty_network []).
Proof.
  apply (C10_setitem_rejects_non_camera (empty_network []) "c" ObjNone).
  reflexivity.
Defined.

(** ** [RangeModel.range_coverage] *)

Lemma fbind_ok {S A B : Type} (m : F S A) (k : A -> F S B) (s s' : S) (a : A) :
  m s = Some (Ok a, s') -> fbind m k s = k a s'.
Proof. intros H. unfold fbind. rewrite H. reflexivity. Qed.

Lemma fbind_raise {S A B : Type} (m : F S A) (k : A -> F S B) (s s' : S) (e : exn) :
  m s = Some (Raise e, s') -> fbind m k s = Some (Raise e, s').
Proof. intros H. unfold fbind. rewrite H. reflexivity. Qed.

(** A sequence that returns normally: so did its first part. *)
Lemma fbind_inv_ok {S A B : Type} (m : F S A) (k : A -> F S B) (s s' : S) (b : B) :
  fbind m k s = Some (Ok b, s') ->
  exists a s1, m s = Some (Ok a, s1) /\ k a s1 = Some (Ok b, s').
Proof.
  unfold fbind. destruct (m s) as [[[a | e] s1] |]; intros H;
    try discriminate.
  exists a, s1. auto.
Qed.

Section RangeModelProperties.
Context {G : Geometry} {TM : TriangleModel}.
Variable model_occluded : RangeModel -> Point -> string -> bool.
Variable model_coverage :
  RangeModel -> Task -> option (list string) -> result PointCache.

Lemma getobj_ok (m : RangeModel) (key : string) (o : SceneObject) :
  dict_get (objects m) key = Some o -> getobj key m = (Ok o, m).
Proof. intros H. unfold getobj. rewrite H. reflexivity. Qed.

Lemma getobj_unbound (m : RangeModel) (key : string) :
  dict_get (objects m) key = None -> getobj key m = (Raise KeyError, m).
Proof. intros H. unfold getobj. rewrite H. reflexivity. Qed.

(** [set_absolute_pose] on a bound key: the object gets the pose and keeps
    the rest; on an unbound key it raises and changes nothing. *)
Lemma set_absolute_pose_ok (m : RangeModel) (key : string) (o : SceneObject)
    (P : Pose) :
  dict_get (objects m) key = Some o ->
  set_absolute_pose key P m
  = (Ok tt,
     {| objects := dict_set (objects m) key
                     {| so_pose := P; triangles := triangles o;
                        line_laser := line_laser o |};
        lasers := lasers m |}).
Proof.
  intros H. unfold set_absolute_pose, bind. rewrite (getobj_ok m key o H).
  reflexivity.
Qed.

Lemma set_absolute_pose_result (m m' : RangeModel) (key : string) (P : Pose) :
  set_absolute_pose key P m = (Ok tt, m') -> pose_of m' key = Some P.
Proof.
  destruct (dict_get (objects m) key) as [o |] eqn:E.
  - rewrite (set_absolute_pose_ok m key o P E). intros [= <-].
    unfold pose_of. simpl. rewrite dict_get_set, String.eqb_refl. reflexivity.
  - unfold set_absolute_pose, bind. rewrite (getobj_unbound m key E).
    discriminate.
Qed.

(** The [while] loop of [project] ends within [n] turns when [n] steps of
    [lpitch] cover the distance to [width]. *)
Lemma project_loop_terminates (self : RangeModel) (laser target : string)
    (lpose : Pose) (fan depth lpitch width : R) (tobj : SceneObject) :
  0 < lpitch ->
  dict_get (objects self) target = Some tobj ->
  forall (n : nat) (x : R) (points : PointCache),
    width - x <= INR n * lpitch ->
    exists points',
      project_loop model_occluded n self laser target lpose fan depth lpitch
                   width x points
      = Some (Ok points').
Proof.
  intros Hl Ht. induction n as [| n IH]; intros x points Hn.
  - simpl in Hn. exists points. simpl.
    rewrite Rltb_false by lra. reflexivity.
  - cbn [project_loop]. destruct (Rltb x width) eqn:E.
    + rewrite Ht. apply IH. rewrite S_INR in Hn. lra.
    + exists points. reflexivity.
Qed.

Lemma project_no_laser (m : RangeModel) (budget : nat)
    (task_params : list (string * R)) (laser target : string) (lpitch : R) :
  existsb (String.eqb laser) (lasers m) = false ->
  project model_occluded budget task_params laser target lpitch m
  = Some (Raise KeyError, m).
Proof. intros H. unfold project. rewrite H. reflexivity. Qed.

(** [project] returns, and leaves the model as it is, for a known laser, a
    bound target and a positive pitch, on a budget that covers the fan. *)
Lemma project_returns (m : RangeModel) (task_params : list (string * R))
    (laser target : string) (lpitch fan depth : R) (lobj tobj : SceneObject) :
  existsb (String.eqb laser) (lasers m) = true ->
  laser_of m laser = Ok (lobj, fan, depth) ->
  dict_get (objects m) target = Some tobj ->
  0 < lpitch ->
  forall n : nat,
    depth * tan (fan / 2)
    - IZR (py_int (- (depth * tan (fan / 2)) / lpitch)) * lpitch
    <= INR n * lpitch ->
    exists t,
      project model_occluded n task_params laser target lpitch m
      = Some (Ok t, m).
Proof.
  intros Hin Hlaser Ht Hl n Hn. unfold project.
  rewrite Hin, Hlaser. simpl negb. cbv iota.
  rewrite py_div_nonzero by lra.
  destruct (project_loop_terminates m laser target (so_pose lobj) fan depth
              lpitch (depth * tan (fan / 2)) tobj Hl Ht n _ [] Hn)
    as [pts Epts].
  rewrite Epts. eexists. reflexivity.
Qed.

Lemma sweep_ready_set_pose (laser target : string) (fan depth : R)
    (m m' : RangeModel) (P : Pose) :
  sweep_ready laser target fan depth m ->
  set_absolute_pose target P m = (Ok tt, m') ->
  sweep_ready laser target fan depth m'.
Proof.
  intros [Hin [[lobj Hl] [tobj Ht]]] Eset.
  rewrite (set_absolute_pose_ok m target tobj P Ht) in Eset.
  injection Eset as <-. split; [exact Hin |]. split.
  - unfold laser_of in *. simpl. rewrite dict_get_set.
    destruct (String.eqb laser target) eqn:E.
    + apply String.eqb_eq in E. subst laser. rewrite Ht in Hl. simpl.
      destruct (line_laser tobj) as [[f d] |]; [| discriminate].
      injection Hl as _ -> ->. eexists. reflexivity.
    + exists lobj. exact Hl.
  - simpl. rewrite dict_get_set, String.eqb_refl. eexists. reflexivity.
Qed.

(** The loop over the profile's points returns and leaves the model as it
    is when the target is bound. *)
Lemma record_loop_returns (target : string) (P0 : Pose) (m : RangeModel)
    (tobj : SceneObject) (items : PointCache) :
  dict_get (objects m) target = Some tobj ->
  forall acc, exists acc',
    ffor_acc items acc (record_point target P0) m = Some (Ok acc', m).
Proof.
  intros Ht. induction items as [| item items IH]; intros acc.
  - exists acc. reflexivity.
  - cbn [ffor_acc]. unfold fbind at 1. unfold record_point at 1.
    unfold fbind at 1. unfold total at 1. rewrite (getobj_ok m target tobj Ht).
    unfold total at 1. unfold ret at 1. apply IH.
Qed.

(** One step of the sweep returns and leaves the model ready for the next. *)
Lemma sweep_step_returns (budget : nat) (task : Task) (laser target : string)
    (lpitch tpitch fan depth : R) (subset : option (list string))
    (P0 : Pose) (taxis : Point) (gv : R) (m : RangeModel)
    (caches : PointCache * PointCache) (i : nat) :
  0 < lpitch ->
  depth * tan (fan / 2)
  - IZR (py_int (- (depth * tan (fan / 2)) / lpitch)) * lpitch
  <= INR budget * lpitch ->
  (forall m' t, exists pc, model_coverage m' t subset = Ok pc) ->
  sweep_ready laser target fan depth m ->
  exists caches' m',
    sweep_step model_occluded model_coverage budget task laser target lpitch
               tpitch subset P0 taxis gv caches i m
    = Some (Ok caches', m') /\
    sweep_ready laser target fan depth m'.
Proof.
  intros Hl Hb Hcov Hready.
  assert (Hready0 := Hready). destruct Hready0 as [_ [_ [tobj Ht]]].
  set (P := pose_add P0 (pose_of_T (scale (tpitch * INR i - gv) taxis))).
  pose proof (set_absolute_pose_ok m target tobj P Ht) as Eset.
  set (m1 := {| objects := dict_set (objects m) target
                             {| so_pose := P; triangles := triangles tobj;
                                line_laser := line_laser tobj |};
                lasers := lasers m |}) in *.
  assert (Hready1 : sweep_ready laser target fan depth m1)
    by (apply (sweep_ready_set_pose _ _ _ _ _ _ _ Hready Eset)).
  destruct Hready1 as [Hin1 [[lobj1 Hl1] [tobj1 Ht1]]].
  destruct (project_returns m1 (params task) laser target lpitch fan depth
              lobj1 tobj1 Hin1 Hl1 Ht1 Hl budget Hb) as [t Et].
  destruct (Hcov m1 t) as [pc Epc].
  destruct (record_loop_returns target P0 m1 tobj1 pc Ht1 caches)
    as [caches' Eloop].
  exists caches', m1. split.
  - unfold sweep_step. fold P.
    rewrite (fbind_ok _ _ m m1 tt)
      by (unfold total; rewrite Eset; reflexivity).
    rewrite (fbind_ok _ _ m1 _ _ Et).
    rewrite (fbind_ok _ _ m1 m1 m1) by reflexivity.
    rewrite (fbind_ok _ _ m1 m1 pc)
      by (unfold total, lift; rewrite Epc; reflexivity).
    exact Eloop.
  - split; [exact Hin1 |]. split; eexists; eassumption.
Qed.

Lemma sweep_loop_returns (budget : nat) (task : Task) (laser target : string)
    (lpitch tpitch fan depth : R) (subset : option (list string))
    (P0 : Pose) (taxis : Point) (gv : R) (steps : list nat) :
  0 < lpitch ->
  depth * tan (fan / 2)
  - IZR (py_int (- (depth * tan (fan / 2)) / lpitch)) * lpitch
  <= INR budget * lpitch ->
  (forall m' t, exists pc, model_coverage m' t subset = Ok pc) ->
  forall (m : RangeModel) (caches : PointCache * PointCache),
    sweep_ready laser target fan depth m ->
    exists caches' m',
      ffor_acc steps caches
        (sweep_step model_occluded model_coverage budget task laser target
                    lpitch tpitch subset P0 taxis gv) m
      = Some (Ok caches', m') /\
      sweep_ready laser target fan depth m'.
Proof.
  intros Hl Hb Hcov. induction steps as [| i steps IH]; intros m caches Hready.
  - exists caches, m. split; [reflexivity | exact Hready].
  - destruct (sweep_step_returns budget task laser target lpitch tpitch fan
                depth subset P0 taxis gv m caches i Hl Hb Hcov Hready)
      as [c1 [m1 [E1 Hready1]]].
    destruct (IH m1 c1 Hready1) as [c2 [m2 [E2 Hready2]]].
    exists c2, m2. split; [| exact Hready2].
    cbn [ffor_acc]. rewrite (fbind_ok _ _ m _ _ E1). exact E2.
Qed.

(** [range_coverage] returns normally, on a budget that covers the laser's
    fan, for a linear transport whose preparation (axis, extent, steps)
    succeeds, a known laser, a positive laser pitch and a coverage evaluation
    that does not raise. *)
Lemma range_coverage_returns (task : Task) (laser target : string)
    (lpitch tpitch fan depth : R) (taxis ax : Point)
    (subset : option (list string)) (m : RangeModel) (tobj : SceneObject)
    (sg : Z * R) :
  0 < lpitch ->
  (forall m' t, exists pc, model_coverage m' t subset = Ok pc) ->
  sweep_ready laser target fan depth m ->
  dict_get (objects m) target = Some tobj ->
  normal taxis = Ok ax ->
  sweep_steps
    (flat_map (fun triangle =>
                 map (dot ax) (mapped_vertices (so_pose tobj) triangle))
              (triangles tobj)) tpitch = Ok sg ->
  exists budget r m',
    range_coverage model_occluded model_coverage budget task laser target
                   lpitch tpitch taxis "linear" subset m
    = Some (Ok r, m').
Proof.
  intros Hl Hcov Hready Ht Hax Hsg.
  destruct (INR_archimed lpitch
              (depth * tan (fan / 2)
               - IZR (py_int (- (depth * tan (fan / 2)) / lpitch)) * lpitch) Hl)
    as [budget Hb].
  destruct (sweep_loop_returns budget task laser target lpitch tpitch fan
              depth subset (so_pose tobj) ax (snd sg) (py_range (fst sg))
              Hl (Rlt_le _ _ Hb) Hcov m ([], []) Hready)
    as [caches [m1 [Eloop Hready1]]].
  destruct Hready1 as [_ [_ [tobj1 Ht1]]].
  exists budget. eexists. eexists.
  unfold range_coverage.
  rewrite (fbind_ok _ _ m m tobj)
    by (unfold total; rewrite (getobj_ok m target tobj Ht); reflexivity).
  cbn [String.eqb Ascii.eqb Bool.eqb].
  rewrite (fbind_ok _ _ m m ax)
    by (unfold total, lift; rewrite Hax; reflexivity).
  rewrite (fbind_ok _ _ m m tobj)
    by (unfold total; rewrite (getobj_ok m target tobj Ht); reflexivity).
  rewrite (fbind_ok _ _ m m sg)
    by (unfold total, lift; rewrite Hsg; reflexivity).
  rewrite (fbind_ok _ _ m _ _ Eloop).
  rewrite (fbind_ok _ _ m1 _ tt)
    by (unfold total;
        rewrite (set_absolute_pose_ok m1 target tobj1 (so_pose tobj) Ht1);
        reflexivity).
  reflexivity.
Qed.

(** An error of the first sweep step: the laser is unknown, [project]
    raises [KeyError], and the target keeps the pose of that step. *)
Lemma range_coverage_unknown_laser (budget : nat) (task : Task)
    (laser target : string) (lpitch tpitch : R) (taxis ax : Point)
    (subset : option (list string)) (m : RangeModel) (tobj : SceneObject)
    (steps : Z) (gv : R) :
  dict_get (objects m) target = Some tobj ->
  normal taxis = Ok ax ->
  sweep_steps
    (flat_map (fun triangle =>
                 map (dot ax) (mapped_vertices (so_pose tobj) triangle))
              (triangles tobj)) tpitch = Ok (steps, gv) ->
  (0 < steps)%Z ->
  existsb (String.eqb laser) (lasers m) = false ->
  exists m',
    range_coverage model_occluded model_coverage budget task laser target
                   lpitch tpitch taxis "linear" subset m
    = Some (Raise KeyError, m') /\
    pose_of m' target
    = Some (pose_add (so_pose tobj)
              (pose_of_T (scale (tpitch * INR 0 - gv) ax))).
Proof.
  intros Ht Hax Hsg Hpos Hno.
  set (P := pose_add (so_pose tobj) (pose_of_T (scale (tpitch * INR 0 - gv) ax))).
  pose proof (set_absolute_pose_ok m target tobj P Ht) as Eset.
  set (m1 := {| objects := dict_set (objects m) target
                             {| so_pose := P; triangles := triangles tobj;
                                line_laser := line_laser tobj |};
                lasers := lasers m |}) in *.
  exists m1. split.
  - unfold range_coverage.
    rewrite (fbind_ok _ _ m m tobj)
      by (unfold total; rewrite (getobj_ok m target tobj Ht); reflexivity).
    cbn [String.eqb Ascii.eqb Bool.eqb].
    rewrite (fbind_ok _ _ m m ax)
      by (unfold total, lift; rewrite Hax; reflexivity).
    rewrite (fbind_ok _ _ m m tobj)
      by (unfold total; rewrite (getobj_ok m target tobj Ht); reflexivity).
    rewrite (fbind_ok _ _ m m (steps, gv))
      by (unfold total, lift; rewrite Hsg; reflexivity).
    apply fbind_raise. cbn [fst snd]. unfold py_range.
    destruct (Z.to_nat steps) as [| n] eqn:En; [lia |].
    cbn [seq ffor_acc]. apply fbind_raise.
    unfold sweep_step. fold P.
    rewrite (fbind_ok _ _ m m1 tt)
      by (unfold total; rewrite Eset; reflexivity).
    apply fbind_raise. apply project_no_laser. exact Hno.
  - unfold pose_of, m1. simpl. rewrite dict_get_set, String.eqb_refl.
    reflexivity.
Qed.

(** C9, amended: the pose of the target after a call of [range_coverage] is
    its pose before the call whenever the call returns normally, and
    whenever it raises without having reached the body of the sweep loop:
    for an unbound target, a transport style that is not the linear one, an
    axis that cannot be normalised, a step count that cannot be computed (a
    zero transport pitch, a target without vertices).  Only an error raised
    inside the sweep loop leaves the target displaced. *)
Theorem C9_pose_restored_on_return (budget : nat) (task : Task)
    (laser target : string) (lpitch tpitch : R) (taxis : Point)
    (tstyle : string) (subset : option (list string))
    (m m' : RangeModel) (res : result (PointCache * Task)) :
  range_coverage model_occluded model_coverage budget task laser target
                 lpitch tpitch taxis tstyle subset m
  = Some (res, m') ->
  (exists r, res = Ok r) \/ ~ sweep_entered target tpitch taxis tstyle m ->
  pose_of m' target = pose_of m target.
Proof.
  unfold range_coverage. intros Hrun Hcase.
  destruct (dict_get (objects m) target) as [tobj |] eqn:Ht.
  - rewrite (fbind_ok _ _ m m tobj) in Hrun
      by (unfold total; rewrite (getobj_ok m target tobj Ht); reflexivity).
    destruct (String.eqb tstyle "linear") eqn:Estyle.
    + apply String.eqb_eq in Estyle.
      destruct (normal taxis) as [ax | e] eqn:Eax.
      2:{ rewrite (fbind_raise _ _ m m e) in Hrun
            by reflexivity.
          injection Hrun as _ <-. reflexivity. }
      rewrite (fbind_ok _ _ m m ax) in Hrun
        by reflexivity.
      rewrite (fbind_ok _ _ m m tobj) in Hrun
        by (unfold total; rewrite (getobj_ok m target tobj Ht); reflexivity).
      destruct (sweep_steps
                  (flat_map (fun triangle =>
                     map (dot ax) (mapped_vertices (so_pose tobj) triangle))
                     (triangles tobj)) tpitch) as [[steps gv] | e] eqn:Esg.
      2:{ rewrite (fbind_raise _ _ m m e) in Hrun
            by reflexivity.
          injection Hrun as _ <-. reflexivity. }
      rewrite (fbind_ok _ _ m m (steps, gv)) in Hrun
        by reflexivity.
      assert (Hret : forall r, res = Ok r -> pose_of m' target = pose_of m target).
      { intros r ->.
        apply fbind_inv_ok in Hrun. destruct Hrun as [caches [s4 [_ Hrun]]].
        apply fbind_inv_ok in Hrun. destruct Hrun as [[] [s5 [Eset Hrun]]].
        unfold total, ret in Hrun. injection Hrun as _ <-.
        unfold total in Eset. injection Eset as Eset.
        rewrite (set_absolute_pose_result s4 s5 target (so_pose tobj) Eset).
        unfold pose_of. rewrite Ht. reflexivity. }
      destruct Hcase as [[r Hr] | Hno]; [exact (Hret r Hr) |].
      destruct (Z_lt_le_dec 0 steps) as [Hpos | Hnone].
      * exfalso. apply Hno. split; [exact Estyle |].
        exists tobj, ax, steps, gv. auto.
      * (* no step: the loop is skipped and the call returns *)
        cbn [fst snd] in Hrun. unfold py_range in Hrun.
        replace (Z.to_nat steps) with 0%nat in Hrun by lia.
        cbn [seq ffor_acc] in Hrun.
        rewrite (fbind_ok _ _ m m ([], [])) in Hrun by reflexivity.
        rewrite (fbind_ok _ _ m _ tt) in Hrun
          by (unfold total;
              rewrite (set_absolute_pose_ok m target tobj (so_pose tobj) Ht);
              reflexivity).
        unfold total, ret in Hrun. injection Hrun as Hres _.
        exact (Hret _ (eq_sym Hres)).
    + destruct (String.eqb tstyle "rotary");
        unfold total, raise in Hrun; injection Hrun as _ <-; reflexivity.
  - rewrite (fbind_raise _ _ m m KeyError) in Hrun
      by (unfold total; rewrite (getobj_unbound m target Ht); reflexivity).
    injection Hrun as _ <-. reflexivity.
Qed.

End RangeModelProperties.

(** ** The example range model *)

Lemma py_int_of_Z (z : Z) (x : R) :
  0 <= x -> IZR z <= x < IZR z + 1 -> py_int x = z.
Proof.
  intros Hx [Hlo Hhi]. unfold py_int.
  destruct (Rle_dec 0 x); [| contradiction].
  symmetry. apply Int_part_spec. lra.
Qed.

Lemma normal_x_axis : normal (PlainPoint 1 0 0) = Ok (PlainPoint 1 0 0).
Proof.
  unfold normal, dot. simpl.
  replace (1 * 1 + 0 * 0 + 0 * 0) with 1 by lra.
  rewrite sqrt_1. rewrite !py_div_nonzero by lra. simpl.
  do 2 f_equal; lra.
Qed.

(** The extent of the example target along the x axis: from 0 to 2, two
    steps of pitch 1. *)
Lemma example_sweep_steps :
  sweep_steps
    (flat_map (fun triangle =>
                 map (dot (PlainPoint 1 0 0))
                     (mapped_vertices (so_pose example_target) triangle))
              (triangles example_target)) 1
  = Ok (2%Z, 2).
Proof.
  simpl flat_map. unfold dot. simpl.
  replace (1 * (0 + 0) + 0 * (0 + 0) + 0 * (0 + 0)) with 0 by lra.
  replace (1 * (2 + 0) + 0 * (0 + 0) + 0 * (0 + 0)) with 2 by lra.
  replace (1 * (0 + 0) + 0 * (1 + 0) + 0 * (0 + 0)) with 0 by lra.
  unfold sweep_steps, extent. cbn [min_list max_list].
  rewrite (Rmin_left 0 2) by lra. rewrite (Rmin_left 0 0) by lra.
  rewrite (Rmax_right 0 2) by lra. rewrite (Rmax_left 2 0) by lra.
  rewrite py_div_nonzero by lra. simpl.
  rewrite (py_int_of_Z 2) by lra. reflexivity.
Qed.

(** The counterexample of C9: the example model has no laser; the sweep has
    two steps, the first moves the target to x = -2, [project] raises
    [KeyError], and the target stays there. *)
Lemma C9_pose_left_displaced_on_error :
  exists m',
    range_coverage no_occlusion no_coverage 0 example_task "laser" "target"
                   1 1 (PlainPoint 1 0 0) "linear" None example_range_model
    = Some (Raise KeyError, m') /\
    pose_of m' "target" <> pose_of example_range_model "target".
Proof.
  destruct (range_coverage_unknown_laser no_occlusion no_coverage 0
              example_task "laser" "target" 1 1 (PlainPoint 1 0 0)
              (PlainPoint 1 0 0) None example_range_model example_target
              2 2 eq_refl normal_x_axis example_sweep_steps)
    as [m' [Erun Epose]]; [lia | reflexivity |].
  exists m'. split; [exact Erun |].
  rewrite Epose. unfold pose_of. simpl.
  intros H. injection H as Hx _ _. lra.
Qed.

Lemma example_laser_model_ready :
  sweep_ready "laser" "target" 0 1 example_laser_model.
Proof.
  split; [reflexivity |]. split; eexists; reflexivity.
Qed.

(** With a zero transport pitch the step count of the example target cannot
    be computed. *)
Lemma example_sweep_steps_zero_pitch :
  sweep_steps
    (flat_map (fun triangle =>
                 map (dot (PlainPoint 1 0 0))
                     (mapped_vertices (so_pose example_target) triangle))
              (triangles example_target)) 0
  = Raise ZeroDivisionError.
Proof.
  simpl flat_map. unfold sweep_steps, extent.
  rewrite py_div_zero by reflexivity. reflexivity.
Qed.

(** The call then raises before the sweep loop, with the model as it was. *)
Lemma example_zero_pitch_raises :
  range_coverage no_occlusion no_coverage 0 example_task "laser" "target"
                 1 0 (PlainPoint 1 0 0) "linear" None example_laser_model
  = Some (Raise ZeroDivisionError, example_laser_model).
Proof.
  unfold range_coverage.
  rewrite (fbind_ok _ _ example_laser_model example_laser_model example_target)
    by reflexivity.
  cbn [String.eqb Ascii.eqb Bool.eqb].
  rewrite (fbind_ok _ _ example_laser_model example_laser_model
             (PlainPoint 1 0 0))
    by (unfold total, lift; rewrite normal_x_axis; reflexivity).
  rewrite (fbind_ok _ _ example_laser_model example_laser_model example_target)
    by reflexivity.
  apply fbind_raise. unfold total, lift.
  rewrite example_sweep_steps_zero_pitch. reflexivity.
Qed.

Lemma example_zero_pitch_not_entered :
  ~ sweep_entered "target" 0 (PlainPoint 1 0 0) "linear" example_laser_model.
Proof.
  intros [_ (tobj & ax & steps & gv & Ht & Hax & Hsg & _)].
  simpl in Ht. injection Ht as <-.
  rewrite normal_x_axis in Hax. injection Hax as <-.
  rewrite example_sweep_steps_zero_pitch in Hsg. discriminate Hsg.
Qed.

(** The witness of C9: on the example model with its laser, a call that
    returns normally, and a call with a zero transport pitch, which raises
    before the sweep loop. *)
Lemma C9_pose_restored_on_return_witness :
  (exists budget r m',
     range_coverage no_occlusion no_coverage budget example_task "laser"
                    "target" 1 1 (PlainPoint 1 0 0) "linear" None
                    example_laser_model
     = Some (Ok r, m') /\
     pose_of m' "target" = pose_of example_laser_model "target") /\
  (range_coverage no_occlusion no_coverage 0 example_task "laser" "target"
                  1 0 (PlainPoint 1 0 0) "linear" None example_laser_model
   = Some (Raise ZeroDivisionError, example_laser_model) /\
   ~ sweep_entered "target" 0 (PlainPoint 1 0 0) "linear" example_laser_model /\
   pose_of example_laser_model "target" = pose_of example_laser_model "target").
Proof.
  split.
  - destruct (range_coverage_returns no_occlusion no_coverage example_task
                "laser" "target" 1 1 0 1 (PlainPoint 1 0 0) (PlainPoint 1 0 0)
                None example_laser_model example_target (2%Z, 2))
      as [budget [r [m' Erun]]].
    + lra.
    + intros m0 t. exists []. reflexivity.
    + apply example_laser_model_ready.
    + reflexivity.
    + apply normal_x_axis.
    + apply example_sweep_steps.
    + exists budget, r, m'. split; [exact Erun |].
      apply (C9_pose_restored_on_return no_occlusion no_coverage budget
               example_task "laser" "target" 1 1 (PlainPoint 1 0 0) "linear"
               None example_laser_model m' (Ok r) Erun).
      left. exists r. reflexivity.
  - split; [exact example_zero_pitch_raises |].
    split; [exact example_zero_pitch_not_entered |].
    apply (C9_pose_restored_on_return no_occlusion no_coverage 0
             example_task "laser" "target" 1 0 (PlainPoint 1 0 0) "linear"
             None example_laser_model example_laser_model
             (Raise ZeroDivisionError) example_zero_pitch_raises).
    right. exact example_zero_pitch_not_entered.
Defined.

(** * Further properties of the code *)

(** ** [Camera.__init__] and [Camera.mu] *)

Section CameraMore.
Context {G : Geometry}.

Lemma py_div_Ok_inv (a b q : R) : py_div a b = Ok q -> b <> 0 /\ q = a / b.
Proof.
  unfold py_div. destruct (Req_dec_T b 0); [discriminate |].
  intros [= <-]. auto.
Qed.

Lemma py_div_Raise_inv (a b : R) (e : exn) :
  py_div a b = Raise e -> e = ZeroDivisionError.
Proof.
  unfold py_div. destruct (Req_dec_T b 0); [| discriminate].
  intros [= <-]. reflexivity.
Qed.

Lemma rbind_Raise_inv {A B : Type} (r : result A) (k : A -> result B) (e : exn) :
  rbind r k = Raise e ->
  r = Raise e \/ exists a, r = Ok a /\ k a = Raise e.
Proof.
  destruct r as [a | e']; simpl; intros H; [right; eauto | left].
  injection H as ->. reflexivity.
Qed.

Lemma rbind_Ok_inv {A B : Type} (r : result A) (k : A -> result B) (b : B) :
  rbind r k = Ok b -> exists a, r = Ok a /\ k a = Ok b.
Proof. destruct r as [a | e']; simpl; intros H; [eauto | discriminate]. Qed.

Lemma angle_l_Raise (f s o : R) (e : exn) :
  angle_l f s o = Raise e -> e = ZeroDivisionError.
Proof.
  unfold angle_l. intros H. apply rbind_Raise_inv in H.
  destruct H as [H | [q [_ H]]]; [| discriminate].
  exact (py_div_Raise_inv _ _ e H).
Qed.

Lemma angle_r_Raise (f s o : R) (dim : Z) (e : exn) :
  angle_r f s o dim = Raise e -> e = ZeroDivisionError.
Proof.
  unfold angle_r. intros H. apply rbind_Raise_inv in H.
  destruct H as [H | [q [_ H]]]; [| discriminate].
  exact (py_div_Raise_inv _ _ e H).
Qed.

Lemma visibility_set_Raise (f gamma s o : R) (dim : Z) (e : exn) :
  visibility_set f gamma s o dim = Raise e -> e = ZeroDivisionError.
Proof.
  unfold visibility_set. intros H.
  apply rbind_Raise_inv in H. destruct H as [H | [al [_ H]]];
    [exact (angle_l_Raise _ _ _ e H) |].
  apply rbind_Raise_inv in H. destruct H as [H | [ar [_ H]]];
    [exact (angle_r_Raise _ _ _ _ e H) |].
  apply rbind_Raise_inv in H. destruct H as [H | [gd [_ H]]];
    [exact (py_div_Raise_inv _ _ e H) | discriminate].
Qed.

Lemma pixel_density_Raise (f s o : R) (dim : Z) (e : exn) :
  pixel_density f s o dim = Raise e -> e = ZeroDivisionError.
Proof.
  unfold pixel_density. intros H.
  apply rbind_Raise_inv in H. destruct H as [H | [al [_ H]]];
    [exact (angle_l_Raise _ _ _ e H) |].
  apply rbind_Raise_inv in H. destruct H as [H | [ar [_ H]]];
    [exact (angle_r_Raise _ _ _ _ e H) |].
  exact (py_div_Raise_inv _ _ e H).
Qed.

(** The constructor fails in one way only: a division by zero. *)
Lemma Camera_init_Raise (a : CameraParams) (e : exn) :
  Camera_init a = Raise e -> e = ZeroDivisionError.
Proof.
  unfold Camera_init.
  destruct (p_s a) as [s0 s1], (p_o a) as [o0 o1], (p_dim a) as [dim0 dim1].
  intros H.
  apply rbind_Raise_inv in H. destruct H as [H | [cv0 [_ H]]];
    [exact (visibility_set_Raise _ _ _ _ _ e H) |].
  apply rbind_Raise_inv in H. destruct H as [H | [cv1 [_ H]]];
    [exact (visibility_set_Raise _ _ _ _ _ e H) |].
  apply rbind_Raise_inv in H. destruct H as [H | [m0 [_ H]]];
    [exact (pixel_density_Raise _ _ _ _ e H) |].
  apply rbind_Raise_inv in H. destruct H as [H | [m1 [_ H]]];
    [exact (pixel_density_Raise _ _ _ _ e H) |].
  repeat (apply rbind_Raise_inv in H; destruct H as [H | [? [_ H]]];
          [exact (py_div_Raise_inv _ _ e H) |]).
  discriminate.
Qed.

(** What a successful construction says of the parameters. *)
Lemma Camera_init_Ok_params (a : CameraParams) (c : Camera) :
  Camera_init a = Ok c ->
  p_f a <> 0 /\ p_r1 a <> 0 /\ p_r2 a <> 0 /\
  fst (p_dim a) <> 0%Z /\ snd (p_dim a) <> 0%Z.
Proof.
  unfold Camera_init.
  destruct (p_s a) as [s0 s1], (p_o a) as [o0 o1], (p_dim a) as [dim0 dim1].
  intros H.
  apply rbind_Ok_inv in H. destruct H as [cv0 [Hcv0 H]].
  apply rbind_Ok_inv in H. destruct H as [cv1 [Hcv1 H]].
  apply rbind_Ok_inv in H. destruct H as [m0 [_ H]].
  apply rbind_Ok_inv in H. destruct H as [m1 [_ H]].
  apply rbind_Ok_inv in H. destruct H as [i1 [Hi1 H]].
  apply rbind_Ok_inv in H. destruct H as [i2 [Hi2 _]].
  apply py_div_Ok_inv in Hi1, Hi2.
  unfold visibility_set in Hcv0, Hcv1.
  apply rbind_Ok_inv in Hcv0. destruct Hcv0 as [al [Hal Hcv0]].
  apply rbind_Ok_inv in Hcv0. destruct Hcv0 as [ar [_ Hcv0]].
  apply rbind_Ok_inv in Hcv0. destruct Hcv0 as [gd [Hgd _]].
  apply rbind_Ok_inv in Hcv1. destruct Hcv1 as [al' [_ Hcv1]].
  apply rbind_Ok_inv in Hcv1. destruct Hcv1 as [ar' [_ Hcv1]].
  apply rbind_Ok_inv in Hcv1. destruct Hcv1 as [gd' [Hgd' _]].
  unfold angle_l in Hal. apply rbind_Ok_inv in Hal. destruct Hal as [q [Hq _]].
  apply py_div_Ok_inv in Hq, Hgd, Hgd'.
  simpl. repeat split; try tauto.
  - intros Hf. apply (proj1 Hq). rewrite Hf. lra.
  - intros Hd. apply (proj1 Hgd). rewrite Hd. reflexivity.
  - intros Hd. apply (proj1 Hgd'). rewrite Hd. reflexivity.
Qed.

(** X1: The constructor raises [ZeroDivisionError] when the focal length, a
    resolution threshold or a sensor dimension is zero. *)
Theorem Camera_init_zero_parameter (a : CameraParams) :
  p_f a = 0 \/ p_r1 a = 0 \/ p_r2 a = 0 \/
  fst (p_dim a) = 0%Z \/ snd (p_dim a) = 0%Z ->
  Camera_init a = Raise ZeroDivisionError.
Proof.
  intros Hzero. destruct (Camera_init a) as [c | e] eqn:E.
  - exfalso. destruct (Camera_init_Ok_params a c E) as [Hf [H1 [H2 [Hd0 Hd1]]]].
    tauto.
  - f_equal. exact (Camera_init_Raise a e E).
Qed.

(** X2: A point at depth zero in the camera frame is not covered. *)
Theorem Camera_mu_zero_depth (c : Camera) (point : Point) :
  Cv c <> [] ->
  zeta c <> 0 \/ is_directional point = false ->
  pz (pose_map (pose_neg (pose c)) point) = 0 ->
  Camera_mu c point = Ok 0.
Proof.
  intros Hc Hz H0. unfold Camera_mu.
  rewrite (mu_visibility_zero_depth c _ Hc H0). cbn [rbind].
  destruct (mu_direction_total c (pose_map (pose_neg (pose c)) point))
    as [d [-> _]].
  { destruct Hz; [left; assumption | right]. rewrite pose_map_kind. assumption. }
  cbn [rbind]. f_equal. ring.
Qed.

(** The field of view opens forward: for a positive focal length, pixel size
    and sensor dimension the half sum of the two view angles lies strictly
    between 0 and [pi], and the pixel density factor is positive. *)
Lemma pixel_density_pos (f s o : R) (dim : Z) (m : R) :
  0 < f -> 0 < s -> (0 < dim)%Z ->
  pixel_density f s o dim = Ok m -> 0 < m.
Proof.
  intros Hf Hs Hd H. unfold pixel_density, angle_l, angle_r in H.
  rewrite !py_div_nonzero in H by lra. cbn [rbind] in H.
  apply py_div_Ok_inv in H. destruct H as [_ ->].
  assert (HD : 0 < IZR dim) by (apply (IZR_lt 0); exact Hd).
  set (A := o * s / (2 * f)) in *.
  set (B := (IZR dim - o) * s / (2 * f)) in *.
  assert (HAB : - B < A).
  { assert (Hsum : 0 < A + B).
    { unfold A, B.
      replace (o * s / (2 * f) + (IZR dim - o) * s / (2 * f))
        with (IZR dim * s / (2 * f)) by (field; lra).
      apply Rdiv_lt_0_compat; nra. }
    lra. }
  pose proof (atan_increasing _ _ HAB) as Hinc. rewrite atan_opp in Hinc.
  pose proof (atan_bound A) as HbA. pose proof (atan_bound B) as HbB.
  assert (Hsin : 0 < sin ((2 * atan A + 2 * atan B) / 2)).
  { apply sin_gt_0; lra. }
  apply Rdiv_lt_0_compat; lra.
Qed.

Lemma tfn_mu_below_zero (k1 s1 v : R) :
  0 <= k1 -> v < 0 ->
  tfn_mu {| kernel := (0, k1); support := (0, s1) |} v = 0.
Proof.
  intros Hk Hv. unfold tfn_mu. simpl.
  rewrite (Rleb_false 0 v) by lra. rewrite (Rltb_false 0 v) by lra.
  rewrite (Rltb_false k1 v) by lra. simpl. rewrite andb_false_r. reflexivity.
Qed.

(** The resolution set of a constructed camera starts at depth 0 and, for
    positive optics and a positive threshold [r1], has a positive full
    resolution depth. *)
Lemma Camera_init_resolution (a : CameraParams) (c : Camera) :
  0 < p_f a -> 0 < fst (p_s a) -> 0 < snd (p_s a) ->
  (0 < fst (p_dim a))%Z -> (0 < snd (p_dim a))%Z -> 0 < p_r1 a ->
  Camera_init a = Ok c ->
  exists zr1 zr2,
    Cr c = {| kernel := (0, zr1); support := (0, zr2) |} /\ 0 < zr1.
Proof.
  unfold Camera_init.
  destruct (p_s a) as [s0 s1], (p_o a) as [o0 o1], (p_dim a) as [dim0 dim1].
  simpl fst. simpl snd. intros Hf Hs0 Hs1 Hd0 Hd1 Hr H.
  apply rbind_Ok_inv in H. destruct H as [cv0 [_ H]].
  apply rbind_Ok_inv in H. destruct H as [cv1 [_ H]].
  apply rbind_Ok_inv in H. destruct H as [m0 [Hm0 H]].
  apply rbind_Ok_inv in H. destruct H as [m1 [Hm1 H]].
  apply rbind_Ok_inv in H. destruct H as [i1 [Hi1 H]].
  apply rbind_Ok_inv in H. destruct H as [i2 [_ H]].
  apply rbind_Ok_inv in H. destruct H as [zl [_ H]].
  apply rbind_Ok_inv in H. destruct H as [zr [_ H]].
  apply rbind_Ok_inv in H. destruct H as [zn [_ H]].
  apply rbind_Ok_inv in H. destruct H as [zf [_ H]].
  injection H as <-. cbn [Cr].
  eexists. eexists. split; [reflexivity |].
  apply py_div_Ok_inv in Hi1. destruct Hi1 as [_ ->].
  apply Rmult_lt_0_compat.
  - apply Rdiv_lt_0_compat; lra.
  - apply Rmin_pos.
    + exact (pixel_density_pos _ _ _ _ _ Hf Hs0 Hd0 Hm0).
    + exact (pixel_density_pos _ _ _ _ _ Hf Hs1 Hd1 Hm1).
Qed.

(** X3: A point behind a camera built from positive optics (focal length, pixel
    sizes, sensor dimensions) and a positive resolution threshold [r1] is
    not covered: its depth in the camera frame is negative, its resolution
    term is 0 and [Camera.mu] returns 0. *)
Theorem Camera_mu_behind_camera (a : CameraParams) (c : Camera) (point : Point) :
  0 < p_f a -> 0 < fst (p_s a) -> 0 < snd (p_s a) ->
  (0 < fst (p_dim a))%Z -> (0 < snd (p_dim a))%Z -> 0 < p_r1 a ->
  Camera_init a = Ok c ->
  p_zeta a <> 0 \/ is_directional point = false ->
  pz (pose_map (pose_neg (pose c)) point) < 0 ->
  Camera_mu c point = Ok 0.
Proof.
  intros Hf Hs0 Hs1 Hd0 Hd1 Hr Hinit Hz Hneg.
  destruct (Camera_init_resolution a c Hf Hs0 Hs1 Hd0 Hd1 Hr Hinit)
    as [zr1 [zr2 [ECr Hzr1]]].
  destruct (Camera_init_valid a c Hinit) as [[h [v Ecv]] [Ezeta _]].
  assert (Hc : Cv c <> []) by (rewrite Ecv; discriminate).
  unfold Camera_mu.
  destruct (mu_visibility_total c (pose_map (pose_neg (pose c)) point) Hc)
    as [mu_v [-> _]].
  destruct (mu_direction_total c (pose_map (pose_neg (pose c)) point))
    as [d [-> _]].
  { destruct Hz as [Hz | Hz]; [left; rewrite Ezeta; exact Hz | right].
    rewrite pose_map_kind. exact Hz. }
  cbn [rbind]. unfold mu_resolution. rewrite ECr.
  rewrite tfn_mu_below_zero by lra. f_equal. ring.
Qed.

End CameraMore.

(** The witnesses: the example parameters with a zero focal length; the
    example camera and points on and behind its optical centre. *)
Lemma Camera_init_zero_parameter_witness :
  Camera_init {| p_A := 1; p_f := 0; p_s := (1 / 2, 1 / 2); p_o := (0, 0);
                 p_dim := (4%Z, 4%Z); p_zS := 2; p_gamma := 0; p_r1 := 1;
                 p_r2 := 1 / 2; p_cmax := 3 / 4; p_zeta := 1;
                 p_pose := origin_pose |}
  = Raise ZeroDivisionError.
Proof.
  apply Camera_init_zero_parameter. left. reflexivity.
Defined.

Lemma Camera_mu_zero_depth_witness :
  Camera_mu (example_camera 1) (DirectionalPoint 1 1 0 0 0) = Ok 0.
Proof.
  apply (Camera_mu_zero_depth (example_camera 1) (DirectionalPoint 1 1 0 0 0)).
  - simpl. discriminate.
  - left. simpl. lra.
  - simpl. lra.
Defined.

Lemma Camera_mu_behind_camera_witness :
  Camera_mu (example_camera 1) (PlainPoint 0 0 (- 1)) = Ok 0.
Proof.
  apply (Camera_mu_behind_camera (example_params 1) (example_camera 1)
           (PlainPoint 0 0 (- 1))).
  - simpl. lra.
  - simpl. lra.
  - simpl. lra.
  - simpl. lia.
  - simpl. lia.
  - simpl. lra.
  - apply Camera_init_example.
  - left. simpl. lra.
  - simpl. lra.
Defined.

(** ** [MultiCamera]: item assignment, in-scene sets *)

Section MultiCameraMore.
Context {G : Geometry}.

Lemma getitem_unbound (m : MultiCamera) (key : string) :
  dict_get (cameras m) key = None -> getitem key m = (Raise KeyError, m).
Proof. intros H. unfold getitem. rewrite H. reflexivity. Qed.

(** X4: [update_inscene] for a key that is not in the network raises [KeyError]
    and changes nothing, whether points are tracked or not. *)
Theorem update_inscene_unknown_key (m : MultiCamera) (key : string) :
  dict_get (cameras m) key = None ->
  update_inscene key m = (Raise KeyError, m).
Proof.
  intros Hk. unfold update_inscene. unfold bind at 1. unfold get at 1.
  destruct (points m) as [| p pts].
  - cbn [for_acc]. unfold bind at 1. unfold ret at 1.
    unfold bind at 1. unfold assign_inscene. unfold bind at 1.
    rewrite (getitem_unbound m key Hk). reflexivity.
  - cbn [for_acc]. unfold bind at 1. unfold bind at 1. unfold bind at 1.
    rewrite (getitem_unbound m key Hk). reflexivity.
Qed.

(** Item assignment of a camera, then lookup: the key is bound to the camera
    with its in-scene set, which is right about every tracked point; a new
    key goes last and an old key keeps its place; the other keys keep their
    cameras; the tracked points and the model stay, and the model is marked
    dirty. *)
Lemma setitem_camera_result (m : MultiCamera) (key : string) (c : Camera) :
  (forall p, In p (points m) -> mu_defined c p) ->
  exists m' s,
    setitem key (ObjCamera c) m = (Ok tt, m') /\
    getitem key m' = (Ok (with_inscene c s), m') /\
    (forall p, In p (points m) -> inscene_agrees (scene m) c s p) /\
    (forall p, ~ In p (points m) -> fs_lookup s p = None) /\
    (forall k, k <> key -> dict_get (cameras m') k = dict_get (cameras m) k) /\
    dict_keys (cameras m')
    = (match dict_get (cameras m) key with
       | Some _ => dict_keys (cameras m)
       | None => dict_keys (cameras m) ++ [key]
       end) /\
    points m' = points m /\ model m' = model m /\ model_updated m' = false.
Proof.
  intros Hdef.
  set (m1 := set_cameras (dict_set (cameras m) key c) m).
  assert (Hk1 : dict_get (cameras m1) key = Some c)
    by (simpl; rewrite dict_get_set, String.eqb_refl; reflexivity).
  pose proof (update_inscene_ok m1 key c Hk1 Hdef) as Erun.
  eexists. eexists. split; [exact Erun |].
  split.
  { apply getitem_ok. simpl. rewrite dict_get_set, String.eqb_refl. reflexivity. }
  split.
  { intros p Hp. exact (inscene_elements_agree (scene m) c (points m) p Hp). }
  split.
  { intros p Hp. apply inscene_elements_untracked. exact Hp. }
  split.
  { intros k Hne. simpl. rewrite !dict_get_set.
    destruct (String.eqb k key) eqn:E; [| reflexivity].
    apply String.eqb_eq in E. contradiction. }
  split; [| simpl; auto].
  simpl. rewrite (dict_keys_set _ key _ c)
    by (rewrite dict_get_set, String.eqb_refl; reflexivity).
  destruct (dict_get (cameras m) key) as [c0 |] eqn:E.
  - apply (dict_keys_set (cameras m) key c c0 E).
  - apply (dict_keys_set_fresh (cameras m) key c E).
Qed.

(** Every entry of an in-scene set of a network in order, whose cameras are
    valid, is earned: its point is tracked and not occluded from the camera,
    its weight is the camera's membership of the point, and the weight lies
    in (0, 1]. *)
Lemma inscene_entry_sound (m : MultiCamera) (key : string) (c : Camera)
    (s : FuzzySet) (p : Point) (v : R) :
  network_ok m ->
  valid_camera c ->
  dict_get (cameras m) key = Some c ->
  inscene c = Some s ->
  fs_lookup s p = Some v ->
  In p (points m) /\
  occluded (scene m) p (pose_T (pose c)) = false /\
  Camera_mu c p = Ok v /\ 0 < v <= 1.
Proof.
  intros [_ [Hagree Hunt]] [Hcv Hz] Hk Hs Hl.
  destruct (in_dec Point_eq_dec p (points m)) as [Hin | Hout].
  2:{ rewrite (Hunt key c s p Hk Hs Hout) in Hl. discriminate. }
  destruct (Hagree key c Hk) as [s0 [Es0 Hs0]].
  assert (s0 = s) by congruence. subst s0.
  destruct (Camera_mu_total c p Hcv (or_introl Hz)) as [mu [Emu Hmu]].
  destruct (Hs0 p Hin mu Emu) as [Hneg Hpos].
  destruct (occluded (scene m) p (pose_T (pose c))) eqn:O.
  - rewrite Hneg in Hl by (left; reflexivity). discriminate.
  - destruct (Rlt_dec 0 mu) as [Hlt | Hnlt].
    + rewrite Hpos in Hl by (split; [reflexivity | exact Hlt]).
      injection Hl as <-. repeat split; try assumption; lra.
    + rewrite Hneg in Hl by (right; exact Hnlt). discriminate.
Qed.

(** X5: [add_point] is the incremental form of [update_inscene]: in a network in
    order, after [add_point] every camera's in-scene set has, point by point,
    the entries a full recomputation by [update_inscene] gives it. *)
Theorem add_point_matches_update_inscene (m : MultiCamera) (point : Point) :
  network_ok m ->
  (forall k c p, dict_get (cameras m) k = Some c ->
                 p = point \/ In p (points m) -> mu_defined c p) ->
  exists m1,
    add_point point m = (Ok tt, m1) /\
    forall key c1 s1,
      dict_get (cameras m1) key = Some c1 -> inscene c1 = Some s1 ->
      exists m2 s2,
        update_inscene key m1 = (Ok tt, m2) /\
        dict_get (cameras m2) key = Some (with_inscene c1 s2) /\
        forall p, fs_lookup s2 p = fs_lookup s1 p.
Proof.
  intros Hok Hdef.
  destruct (add_point_network_ok m point Hok)
    as [m1 [Erun [Hok1 [Hpts [Esc [_ [_ [_ Ekeys]]]]]]]].
  { intros k c E. apply (Hdef k c point E). left. reflexivity. }
  exists m1. split; [exact Erun |].
  intros key c1 s1 Ek Es.
  assert (Hdef1 : forall p, In p (points m1) -> mu_defined c1 p).
  { intros p Hp. apply Hpts in Hp.
    assert (Hkey : In key (dict_keys (cameras m)))
      by (rewrite <- Ekeys; apply dict_get_In_keys; eauto).
    apply dict_get_In_keys in Hkey. destruct Hkey as [c Ec].
    destruct (add_point_ok m point (proj1 Hok)) as [d' [Erun' [_ Hget]]].
    { intros k0 c0 E0. split; [apply (Hdef k0 c0 point E0); left; reflexivity |].
      destruct (proj1 (proj2 Hok) k0 c0 E0) as [s0 [E _]]. eauto. }
    rewrite Erun' in Erun. injection Erun as <-. simpl in Ek.
    rewrite Hget, Ec in Ek. simpl in Ek. injection Ek as <-.
    destruct (Hdef key c p Ec Hp) as [v Ev]. exists v.
    unfold add_point_camera.
    destruct (Camera_mu c point) as [mu |]; [| exact Ev].
    destruct (inscene c) as [s0 |]; [| exact Ev].
    destruct (in_scene_test (scene m) c point mu); exact Ev. }
  destruct (update_inscene_establishes m1 key c1 Ek Hdef1)
    as [m2 [s2 [Erun2 [Eget2 [Epts2 [Esc2 [_ [_ [_ [Hag2 Hun2]]]]]]]]]].
  exists m2, s2. split; [exact Erun2 |]. split; [exact Eget2 |].
  intros p. destruct Hok1 as [_ [Hag1 Hun1]].
  destruct (Hag1 key c1 Ek) as [s1' [Es1' Hs1]].
  assert (s1' = s1) by congruence. subst s1'.
  destruct (in_dec Point_eq_dec p (points m1)) as [Hin | Hout].
  - destruct (Hdef1 p Hin) as [mu Emu].
    assert (Hin2 : In p (points m2)) by (rewrite Epts2; exact Hin).
    destruct (Hs1 p Hin mu Emu) as [Hneg1 Hpos1].
    destruct (Hag2 p Hin2 mu Emu) as [Hneg2 Hpos2].
    rewrite Esc2 in Hneg2, Hpos2. simpl pose in Hneg2, Hpos2.
    destruct (occluded (scene m1) p (pose_T (pose c1))) eqn:O.
    + rewrite Hneg1, Hneg2 by (left; reflexivity). reflexivity.
    + destruct (Rlt_dec 0 mu) as [Hlt | Hnlt].
      * rewrite Hpos1, Hpos2 by (split; [reflexivity | exact Hlt]). reflexivity.
      * rewrite Hneg1, Hneg2 by (right; exact Hnlt). reflexivity.
  - rewrite (Hun1 key c1 s1 p Ek Es Hout).
    apply Hun2. rewrite Epts2. exact Hout.
Qed.

(** ** [update_model] for any ocular degree *)

Lemma combinations_In {A : Type} (l : list A) :
  forall (n : nat) (c : list A),
    In c (combinations l n) ->
    List.length c = n /\ forall k, In k c -> In k l.
Proof.
  induction l as [| x l IH]; intros n c Hc.
  - destruct n; simpl in Hc; [| contradiction].
    destruct Hc as [<- | []]. split; [reflexivity | intros k []].
  - destruct n as [| n]; simpl in Hc.
    + destruct Hc as [<- | []]. split; [reflexivity | intros k []].
    + apply in_app_or in Hc. destruct Hc as [Hc | Hc].
      * apply in_map_iff in Hc. destruct Hc as [c' [<- Hc']].
        destruct (IH n c' Hc') as [Hlen Hin]. split; [simpl; lia |].
        intros k [<- | Hk]; [left; reflexivity | right; apply Hin; exact Hk].
      * destruct (IH (S n) c Hc) as [Hlen Hin]. split; [exact Hlen |].
        intros k Hk. right. apply Hin. exact Hk.
Qed.

Lemma fs_lookup_fold_inter (l : list FuzzySet) (p : Point) :
  forall s : FuzzySet,
    fs_lookup (fold_left fs_inter l s) p
    = fold_left merge_min (map (fun s' => fs_lookup s' p) l) (fs_lookup s p).
Proof.
  induction l as [| s' l IH]; intros s; simpl; [reflexivity |].
  rewrite IH, fs_lookup_inter. reflexivity.
Qed.

Lemma merge_min_fold_None (os : list (option R)) :
  fold_left merge_min os None = None.
Proof. induction os as [| x os IH]; simpl; [reflexivity | exact IH]. Qed.

Lemma merge_min_fold_Some (os : list (option R)) :
  forall (o : option R) (v : R),
    fold_left merge_min os o = Some v
    <-> (forall x, In x (o :: os) -> exists w, x = Some w /\ v <= w) /\
        In (Some v) (o :: os).
Proof.
  induction os as [| x os IH]; intros o v.
  - simpl. split.
    + intros ->. split; [| left; reflexivity].
      intros x [<- | []]. exists v. split; [reflexivity | lra].
    + intros [_ [H | []]]. exact H.
  - simpl fold_left. destruct o as [a |], x as [b |]; simpl merge_min;
      try (rewrite merge_min_fold_None; split; [discriminate |];
           intros [Hall _]; exfalso;
           first [ destruct (Hall None (or_introl eq_refl)) as [w [Hw _]]
                 | destruct (Hall None (or_intror (or_introl eq_refl)))
                     as [w [Hw _]] ];
           discriminate).
    rewrite IH. clear IH. split.
    + intros [Hall Hin]. split.
      * intros y [<- | [<- | Hy]].
        -- exists a. split; [reflexivity |].
           destruct (Hall (Some (Rmin a b)) (or_introl eq_refl)) as [w [[= <-] Hw]].
           apply Rle_trans with (Rmin a b); [exact Hw | apply Rmin_l].
        -- exists b. split; [reflexivity |].
           destruct (Hall (Some (Rmin a b)) (or_introl eq_refl)) as [w [[= <-] Hw]].
           apply Rle_trans with (Rmin a b); [exact Hw | apply Rmin_r].
        -- apply Hall. right. exact Hy.
      * destruct Hin as [[= <-] | Hin]; [| right; right; exact Hin].
        unfold Rmin. destruct (Rle_dec a b); [left | right; left]; reflexivity.
    + intros [Hall Hin].
      destruct (Hall (Some a) (or_introl eq_refl)) as [wa [[= <-] Ha]].
      destruct (Hall (Some b) (or_intror (or_introl eq_refl))) as [wb [[= <-] Hb]].
      split.
      * intros y [<- | Hy].
        -- exists (Rmin a b). split; [reflexivity |]. apply Rmin_glb; assumption.
        -- apply Hall. right. right. exact Hy.
      * destruct Hin as [[= ->] | [[= ->] | Hin]].
        -- left. f_equal. apply Rmin_left. exact Hb.
        -- left. f_equal. apply Rmin_right. exact Ha.
        -- right. exact Hin.
Qed.

(** The intersection of a nonempty list of fuzzy sets is their pointwise
    minimum over the points all of them have. *)
Lemma inter_all_lookup (l : list FuzzySet) (p : Point) (v : R) :
  l <> [] ->
  (fs_lookup (inter_all l) p = Some v <-> min_degree l p v).
Proof.
  destruct l as [| s l]; [contradiction |]. intros _.
  unfold inter_all, min_degree.
  rewrite fs_lookup_fold_inter, merge_min_fold_Some. split.
  - intros [Hall Hin]. split.
    + intros s' Hs'. apply Hall.
      change (In (fs_lookup s' p) (map (fun s0 => fs_lookup s0 p) (s :: l))).
      apply (in_map (fun s0 => fs_lookup s0 p)). exact Hs'.
    + change (In (Some v) (map (fun s0 => fs_lookup s0 p) (s :: l))) in Hin.
      apply in_map_iff in Hin. destruct Hin as [s' [E Hs']]. eauto.
  - intros [Hall [s' [Hs' E]]]. split.
    + intros x Hx.
      change (In x (map (fun s0 => fs_lookup s0 p) (s :: l))) in Hx.
      apply in_map_iff in Hx. destruct Hx as [s0 [<- Hs0]]. apply Hall. exact Hs0.
    + change (In (Some v) (map (fun s0 => fs_lookup s0 p) (s :: l))).
      rewrite <- E. apply (in_map (fun s0 => fs_lookup s0 p)). exact Hs'.
Qed.

Lemma nth_error_middle {A : Type} (pre rest : list A) (k : A) :
  nth_error (pre ++ k :: rest) (List.length pre) = Some k.
Proof. induction pre as [| x pre IH]; simpl; [reflexivity | exact IH]. Qed.

(** The inner loop of [update_model] over the rest of a combination. *)
Lemma intersect_loop (st : MultiCamera) (rest : list string) :
  (forall k, In k rest ->
     exists c s, dict_get (cameras st) k = Some c /\ inscene c = Some s) ->
  forall (pre : list string) (s0 : FuzzySet),
    for_acc (seq (List.length pre) (List.length rest)) s0
      (fun s i =>
         ki <- lift (py_index (pre ++ rest) i) ;;
         ci <- getitem ki ;;
         si <- get_inscene ci ;;
         ret (fs_inter s si))%monad st
    = (Ok (fold_left fs_inter (key_insets (cameras st) rest) s0), st).
Proof.
  induction rest as [| k rest IH]; intros Hall pre s0.
  - reflexivity.
  - destruct (Hall k (or_introl eq_refl)) as [c [s [Ec Es]]].
    cbn [List.length seq for_acc].
    rewrite (bind_ok _ _ st st (fs_inter s0 s)).
    2:{ unfold bind at 1. unfold lift at 1. unfold py_index.
        rewrite nth_error_middle.
        unfold bind at 1. rewrite (getitem_ok st k c Ec).
        unfold bind at 1. unfold get_inscene. rewrite Es. reflexivity. }
    specialize (IH (fun k' Hk' => Hall k' (or_intror Hk')) (pre ++ [k])
                  (fs_inter s0 s)).
    rewrite <- app_assoc in IH. simpl app in IH.
    rewrite length_app in IH. simpl List.length in IH.
    replace (List.length pre + 1)%nat with (S (List.length pre)) in IH by lia.
    rewrite IH. simpl key_insets. rewrite Ec, Es. reflexivity.
Qed.

Lemma submodel_of_ok (self st : MultiCamera) (combination : list string) :
  (1 <= ocular self)%Z ->
  List.length combination = Z.to_nat (ocular self) ->
  (forall k, In k combination ->
     exists c s, dict_get (cameras st) k = Some c /\ inscene c = Some s) ->
  submodel_of self combination st
  = (Ok (inter_all (key_insets (cameras st) combination)), st).
Proof.
  intros Hoc Hlen Hall.
  destruct combination as [| k0 rest]; [simpl in Hlen; lia |].
  destruct (Hall k0 (or_introl eq_refl)) as [c0 [s0 [Ec0 Es0]]].
  assert (Er : inter_all (key_insets (cameras st) (k0 :: rest))
               = fold_left fs_inter (key_insets (cameras st) rest) s0)
    by (simpl; rewrite Ec0, Es0; reflexivity).
  rewrite Er.
  unfold submodel_of.
  rewrite (bind_ok _ _ st st k0) by reflexivity.
  rewrite (bind_ok _ _ st st c0) by (apply getitem_ok; exact Ec0).
  rewrite (bind_ok _ _ st st s0)
    by (unfold get_inscene; rewrite Es0; reflexivity).
  unfold range_from_1. rewrite <- Hlen. simpl List.length.
  replace (S (List.length rest) - 1)%nat with (List.length rest) by lia.
  exact (intersect_loop st rest (fun k' Hk' => Hall k' (or_intror Hk'))
           [k0] s0).
Qed.

Lemma submodels_loop_general (self st : MultiCamera) (combs : list (list string)) :
  (1 <= ocular self)%Z ->
  (forall comb, In comb combs ->
     List.length comb = Z.to_nat (ocular self) /\
     forall k, In k comb ->
       exists c s, dict_get (cameras st) k = Some c /\ inscene c = Some s) ->
  forall acc,
    for_acc combs acc
      (fun submodels combination =>
         s <- submodel_of self combination ;;
         ret (submodels ++ [s]))%monad st
    = (Ok (acc ++ map (fun comb => inter_all (key_insets (cameras st) comb)) combs),
       st).
Proof.
  intros Hoc. induction combs as [| comb combs IH]; intros Hall acc; simpl.
  - rewrite app_nil_r. reflexivity.
  - destruct (Hall comb (or_introl eq_refl)) as [Hlen Hb].
    unfold bind at 1. unfold bind at 1.
    rewrite (submodel_of_ok self st comb Hoc Hlen Hb). unfold ret at 1.
    rewrite IH by (intros c' Hc'; apply Hall; right; exact Hc').
    rewrite <- app_assoc. reflexivity.
Qed.

(** A union of sets of which one has the point has the point. *)
Lemma union_all_lookup_None (l : list FuzzySet) (p : Point) :
  fs_lookup (union_all l) p = None
  <-> forall s, In s l -> fs_lookup s p = None.
Proof.
  unfold union_all. rewrite fs_lookup_fold_union. simpl fs_lookup.
  assert (Hfold : forall os o,
            fold_left merge_max os o = None
            <-> forall x, In x (o :: os) -> x = None).
  { induction os as [| x os IH]; intros o; simpl.
    - split; [intros -> x [<- | []]; reflexivity | intros H; apply H; auto].
    - rewrite IH. split.
      + intros H y [<- | [<- | Hy]].
        * specialize (H _ (or_introl eq_refl)).
          destruct o, x; simpl in H; try discriminate; reflexivity.
        * specialize (H _ (or_introl eq_refl)).
          destruct o, x; simpl in H; try discriminate; reflexivity.
        * apply H. right. exact Hy.
      + intros H y [<- | Hy].
        * rewrite (H o (or_introl eq_refl)), (H x (or_intror (or_introl eq_refl))).
          reflexivity.
        * apply H. right. right. exact Hy. }
  rewrite Hfold. split.
  - intros H s Hs. apply H. right. apply in_map_iff. exists s. auto.
  - intros H x [<- | Hx]; [reflexivity |].
    apply in_map_iff in Hx. destruct Hx as [s [<- Hs]]. apply H. exact Hs.
Qed.

(** X6: Item assignment of a camera whose [mu] returns on the tracked points
    returns, and the lookup of the key then gives that camera with a fresh
    in-scene set: right about every tracked point and without any other key.
    The other cameras are as they were, the keys of the network are the key
    assigned and the keys there were, the points and the model are kept, and
    the model is marked out of date. *)
Theorem setitem_then_getitem (m : MultiCamera) (key : string) (c : Camera) :
  (forall p, In p (points m) -> mu_defined c p) ->
  exists m' s,
    setitem key (ObjCamera c) m = (Ok tt, m') /\
    getitem key m' = (Ok (with_inscene c s), m') /\
    (forall p, In p (points m) -> inscene_agrees (scene m) c s p) /\
    (forall p, ~ In p (points m) -> fs_lookup s p = None) /\
    (forall k, k <> key -> dict_get (cameras m') k = dict_get (cameras m) k) /\
    (forall k, In k (dict_keys (cameras m'))
               <-> k = key \/ In k (dict_keys (cameras m))) /\
    points m' = points m /\ model m' = model m /\ model_updated m' = false.
Proof.
  intros Hdef.
  destruct (setitem_camera_result m key c Hdef)
    as (m' & s & Erun & Eget & Hag & Hun & Hother & Ekeys & Hrest).
  exists m', s. repeat (split; [assumption |]).
  split; [| exact Hrest].
  intros k. rewrite Ekeys.
  destruct (dict_get (cameras m) key) as [c0 |] eqn:E.
  - split; [intros H; right; exact H |].
    intros [-> | H]; [| exact H].
    apply dict_get_In_keys. exists c0. exact E.
  - rewrite in_app_iff. simpl. split.
    + intros [H | [<- | []]]; [right; exact H | left; reflexivity].
    + intros [-> | H]; [right; left; reflexivity | left; exact H].
Qed.

(** X7: Every entry of an in-scene set is earned: in a network in order, a key
    of the in-scene set of a valid camera is a tracked point that is not
    occluded from the camera, and its weight is the membership [Camera.mu]
    gives it, which lies in (0, 1]. *)
Theorem inscene_entries_earned (m : MultiCamera) (key : string) (c : Camera)
    (s : FuzzySet) (p : Point) (v : R) :
  network_ok m ->
  valid_camera c ->
  dict_get (cameras m) key = Some c ->
  inscene c = Some s ->
  fs_lookup s p = Some v ->
  In p (points m) /\
  occluded (scene m) p (pose_T (pose c)) = false /\
  Camera_mu c p = Ok v /\ 0 < v <= 1.
Proof. exact (inscene_entry_sound m key c s p v). Qed.

Lemma key_insets_bound (d : list (string * Camera)) (comb : list string) :
  (forall k, In k comb ->
     exists c s, dict_get d k = Some c /\ inscene c = Some s) ->
  List.length (key_insets d comb) = List.length comb /\
  forall s, In s (key_insets d comb)
            <-> exists k c, In k comb /\ dict_get d k = Some c /\
                            inscene c = Some s.
Proof.
  intros Hall. split.
  - induction comb as [| k comb IH]; [reflexivity |].
    destruct (Hall k (or_introl eq_refl)) as [c [s [Ec Es]]].
    simpl. rewrite Ec, Es. simpl. f_equal.
    apply IH. intros k' Hk'. apply Hall. right. exact Hk'.
  - intros s. unfold key_insets. rewrite in_flat_map. split.
    + intros [k [Hk Hs]].
      destruct (dict_get d k) as [c |] eqn:Ec; [| contradiction].
      destruct (inscene c) as [s0 |] eqn:Es; [| contradiction].
      destruct Hs as [<- | []]. exists k, c. auto.
    + intros [k [c [Hk [Ec Es]]]]. exists k. split; [exact Hk |].
      rewrite Ec, Es. left. reflexivity.
Qed.

(** What [update_model] leaves, for any ocular degree the network has the
    cameras for. *)
Lemma update_model_general (m : MultiCamera) :
  (1 <= ocular m <= Z.of_nat (List.length (cameras m)))%Z ->
  (forall k c, dict_get (cameras m) k = Some c -> exists s, inscene c = Some s) ->
  update_model m
  = (Ok tt,
     set_model_updated true
       (set_model
          (union_all
             (map (fun comb => inter_all (key_insets (cameras m) comb))
                  (model_combinations m)))
          m)).
Proof.
  intros [Hoc Hlen] Hall. unfold update_model.
  unfold bind at 1. unfold get at 1.
  replace (Z.of_nat (List.length (cameras m)) <? ocular m)%Z with false
    by (symmetry; apply Z.ltb_ge; exact Hlen).
  unfold bind at 1. unfold modify at 1.
  unfold bind at 1. unfold lift at 1. unfold py_combinations.
  replace (ocular m <? 0)%Z with false by (symmetry; apply Z.ltb_ge; lia).
  unfold bind at 1.
  rewrite (submodels_loop_general m (set_model [] m)
             (combinations (dict_keys (cameras m)) (Z.to_nat (ocular m))) Hoc).
  2:{ intros comb Hc. destruct (combinations_In _ _ _ Hc) as [Hl Hin].
      split; [exact Hl |]. intros k Hk. specialize (Hin k Hk).
      apply dict_get_In_keys in Hin. destruct Hin as [c Ec].
      destruct (Hall k c Ec) as [s Es]. exists c, s. auto. }
  simpl app. unfold bind at 1. rewrite union_loop.
  reflexivity.
Qed.

Lemma model_lookup_max_min (m : MultiCamera) (p : Point) (v : R) :
  (1 <= ocular m)%Z ->
  (forall k c, dict_get (cameras m) k = Some c -> exists s, inscene c = Some s) ->
  (fs_lookup
     (union_all (map (fun comb => inter_all (key_insets (cameras m) comb))
                     (model_combinations m))) p = Some v
   <-> (exists comb, In comb (model_combinations m) /\
                     min_degree (key_insets (cameras m) comb) p v) /\
       (forall comb w, In comb (model_combinations m) ->
                       min_degree (key_insets (cameras m) comb) p w -> w <= v)).
Proof.
  intros Hoc Hall.
  assert (Hne : forall comb, In comb (model_combinations m) ->
                             key_insets (cameras m) comb <> []).
  { intros comb Hc. destruct (combinations_In _ _ _ Hc) as [Hl Hin].
    destruct (key_insets_bound (cameras m) comb) as [Hlen _].
    - intros k Hk. specialize (Hin k Hk).
      apply dict_get_In_keys in Hin. destruct Hin as [c Ec].
      destruct (Hall k c Ec) as [s Es]. exists c, s. auto.
    - intros E. rewrite E in Hlen. simpl in Hlen. lia. }
  rewrite union_all_pointwise_max. split.
  - intros [[s [Hs Es]] Hb]. apply in_map_iff in Hs.
    destruct Hs as [comb [<- Hc]]. split.
    + exists comb. split; [exact Hc |].
      apply (inter_all_lookup _ p v (Hne comb Hc)). exact Es.
    + intros comb' w Hc' Hw. apply (Hb (inter_all (key_insets (cameras m) comb')) w).
      * apply in_map_iff. exists comb'. auto.
      * apply (inter_all_lookup _ p w (Hne comb' Hc')). exact Hw.
  - intros [[comb [Hc Hv]] Hb]. split.
    + exists (inter_all (key_insets (cameras m) comb)). split.
      * apply in_map_iff. exists comb. auto.
      * apply (inter_all_lookup _ p v (Hne comb Hc)). exact Hv.
    + intros s w Hs Ew. apply in_map_iff in Hs. destruct Hs as [comb' [<- Hc']].
      apply (Hb comb' w Hc').
      apply (inter_all_lookup _ p w (Hne comb' Hc')). exact Ew.
Qed.

(** X8: [update_model] computes the maximum over the combinations of [ocular]
    cameras of the minimum of their in-scene degrees: for a network with at
    least [ocular >= 1] cameras, each with its in-scene set, it returns,
    keeps cameras and points, marks the model up to date, and a point has
    degree [v] in the model exactly when some combination has it with least
    degree [v] and no combination has it with a greater least degree. *)
Theorem update_model_max_min (m : MultiCamera) :
  (1 <= ocular m <= Z.of_nat (List.length (cameras m)))%Z ->
  (forall k c, dict_get (cameras m) k = Some c -> exists s, inscene c = Some s) ->
  exists m',
    update_model m = (Ok tt, m') /\
    cameras m' = cameras m /\ points m' = points m /\
    model_updated m' = true /\
    forall p v,
      fs_lookup (model m') p = Some v
      <-> (exists comb, In comb (model_combinations m) /\
                        min_degree (key_insets (cameras m) comb) p v) /\
          (forall comb w, In comb (model_combinations m) ->
                          min_degree (key_insets (cameras m) comb) p w ->
                          w <= v).
Proof.
  intros Hoc Hall. eexists. split; [apply update_model_general; assumption |].
  simpl. do 3 (split; [reflexivity |]).
  intros p v. apply model_lookup_max_min; [exact (proj1 Hoc) | exact Hall].
Qed.

Lemma combinations_NoDup {A : Type} (l : list A) :
  NoDup l -> forall n c, In c (combinations l n) -> NoDup c.
Proof.
  intros Hnd. induction Hnd as [| x l Hx Hnd IH]; intros n c Hc.
  - destruct n; simpl in Hc; [| contradiction].
    destruct Hc as [<- | []]. constructor.
  - destruct n as [| n]; simpl in Hc.
    + destruct Hc as [<- | []]. constructor.
    + apply in_app_or in Hc. destruct Hc as [Hc | Hc].
      * apply in_map_iff in Hc. destruct Hc as [c' [<- Hc']].
        constructor; [| exact (IH n c' Hc')].
        intros Hin. apply Hx.
        exact (proj2 (combinations_In l n c' Hc') x Hin).
      * exact (IH (S n) c Hc).
Qed.

Lemma combinations_app {A : Type} (l l' : list A) :
  forall n c, In c (combinations l n) -> In c (combinations (l ++ l') n).
Proof.
  induction l as [| x l IH]; intros n c Hc.
  - destruct n; simpl in Hc; [| contradiction].
    destruct Hc as [<- | []]. simpl. destruct l'; left; reflexivity.
  - destruct n as [| n]; simpl in Hc |- *.
    + exact Hc.
    + apply in_or_app. apply in_app_or in Hc. destruct Hc as [Hc | Hc].
      * left. apply in_map_iff in Hc. destruct Hc as [c' [<- Hc']].
        apply in_map. apply IH. exact Hc'.
      * right. apply IH. exact Hc.
Qed.

(** X9: Every entry of the model is earned: after [update_model] on a network in
    order with valid cameras, a key of the model is a tracked point, its
    degree lies in (0, 1], and there are [ocular] distinct cameras none of
    which the point is occluded from and each of which gives the point a
    membership of at least that degree. *)
Theorem model_entries_earned (m m' : MultiCamera) (p : Point) (v : R) :
  network_ok m ->
  (forall key c, dict_get (cameras m) key = Some c -> valid_camera c) ->
  (1 <= ocular m <= Z.of_nat (List.length (cameras m)))%Z ->
  update_model m = (Ok tt, m') ->
  fs_lookup (model m') p = Some v ->
  0 < v <= 1 /\ In p (points m) /\
  exists comb,
    List.length comb = Z.to_nat (ocular m) /\ NoDup comb /\
    forall k, In k comb ->
      exists c mu,
        dict_get (cameras m) k = Some c /\
        occluded (scene m) p (pose_T (pose c)) = false /\
        Camera_mu c p = Ok mu /\ v <= mu.
Proof.
  intros Hok Hvalid Hoc Erun Hl.
  assert (Hall : forall k c, dict_get (cameras m) k = Some c ->
                             exists s, inscene c = Some s).
  { intros k c Ec. destruct (proj1 (proj2 Hok) k c Ec) as [s [Es _]]. eauto. }
  rewrite (update_model_general m Hoc Hall) in Erun. injection Erun as <-.
  simpl in Hl.
  apply (model_lookup_max_min m p v (proj1 Hoc) Hall) in Hl.
  destruct Hl as [[comb [Hc [Hmin [s [Hs Es]]]]] _].
  destruct (combinations_In _ _ _ Hc) as [Hlen Hin].
  assert (Hb : forall k, In k comb ->
             exists c s0, dict_get (cameras m) k = Some c /\ inscene c = Some s0).
  { intros k Hk. specialize (Hin k Hk).
    apply dict_get_In_keys in Hin. destruct Hin as [c Ec].
    destruct (Hall k c Ec) as [s0 Es0]. exists c, s0. auto. }
  destruct (key_insets_bound (cameras m) comb Hb) as [_ Hmem].
  apply Hmem in Hs. destruct Hs as [k [c [Hk [Ec Esc]]]].
  destruct (inscene_entry_sound m k c s p v Hok (Hvalid k c Ec) Ec Esc Es)
    as [Hp [_ [_ Hv]]].
  split; [exact Hv |]. split; [exact Hp |].
  exists comb. split; [exact Hlen |].
  split; [exact (combinations_NoDup _ (proj1 Hok) _ comb Hc) |].
  intros k' Hk'. destruct (Hb k' Hk') as [c' [s' [Ec' Es']]].
  destruct (Hmin s') as [w [Ew Hw]].
  { apply Hmem. exists k', c'. auto. }
  destruct (inscene_entry_sound m k' c' s' p w Hok (Hvalid k' c' Ec') Ec' Es' Ew)
    as [_ [Ho [Emu _]]].
  exists c', w. auto.
Qed.

(** X10: Adding a camera under a new key never lowers the model: the degree a
    point has in the model computed before the assignment is at most its
    degree in the model computed after it. *)
Theorem adding_camera_never_lowers_model (m : MultiCamera) (key : string)
    (c : Camera) :
  (1 <= ocular m <= Z.of_nat (List.length (cameras m)))%Z ->
  (forall k c0, dict_get (cameras m) k = Some c0 ->
                exists s, inscene c0 = Some s) ->
  dict_get (cameras m) key = None ->
  (forall p, In p (points m) -> mu_defined c p) ->
  exists m1 ms m2,
    update_model m = (Ok tt, m1) /\
    setitem key (ObjCamera c) m = (Ok tt, ms) /\
    update_model ms = (Ok tt, m2) /\
    forall p v, fs_lookup (model m1) p = Some v ->
                exists v', fs_lookup (model m2) p = Some v' /\ v <= v'.
Proof.
  intros Hoc Hall Hnew Hdef.
  destruct (setitem_camera_result m key c Hdef)
    as [ms [s [Eset [Eget [_ [_ [Hother [Ekeys [_ _]]]]]]]]].
  rewrite Hnew in Ekeys.
  assert (Egetk : dict_get (cameras ms) key = Some (with_inscene c s)).
  { unfold getitem in Eget.
    destruct (dict_get (cameras ms) key) as [c' |]; [| discriminate].
    injection Eget as ->. reflexivity. }
  assert (Halls : forall k c0, dict_get (cameras ms) k = Some c0 ->
                               exists s0, inscene c0 = Some s0).
  { intros k c0 E. destruct (string_dec k key) as [-> | Hne].
    - rewrite Egetk in E. injection E as <-. exists s. reflexivity.
    - rewrite (Hother k Hne) in E. exact (Hall k c0 E). }
  assert (Elen : List.length (cameras ms) = S (List.length (cameras m))).
  { transitivity (List.length (dict_keys (cameras ms)));
      [unfold dict_keys; rewrite length_map; reflexivity |].
    rewrite Ekeys, length_app. unfold dict_keys. rewrite length_map.
    simpl. lia. }
  assert (Eocs : ocular ms = ocular m).
  { unfold setitem in Eset. cbn [as_Camera] in Eset.
    unfold bind in Eset. unfold modify in Eset at 1.
    rewrite (update_inscene_ok _ key c) in Eset.
    - injection Eset as <-. reflexivity.
    - simpl. rewrite dict_get_set, String.eqb_refl. reflexivity.
    - exact Hdef. }
  assert (Hocs : (1 <= ocular ms <= Z.of_nat (List.length (cameras ms)))%Z)
    by (rewrite Eocs, Elen; lia).
  eexists. exists ms. eexists.
  split; [apply (update_model_general m Hoc Hall) |].
  split; [exact Eset |].
  split; [apply (update_model_general ms Hocs Halls) |].
  simpl. intros p v Hl.
  apply (model_lookup_max_min m p v (proj1 Hoc) Hall) in Hl.
  destruct Hl as [[comb [Hc Hmin]] _].
  assert (Hcs : In comb (model_combinations ms)).
  { unfold model_combinations. rewrite Ekeys, Eocs.
    apply combinations_app. exact Hc. }
  assert (Esets : key_insets (cameras ms) comb = key_insets (cameras m) comb).
  { apply key_insets_ext. intros k Hk. apply Hother. intros ->.
    pose proof (proj2 (combinations_In _ _ _ Hc) key Hk) as Hin.
    apply dict_get_In_keys in Hin. destruct Hin as [c0 Ec0]. congruence. }
  destruct (fs_lookup
              (union_all (map (fun comb0 => inter_all (key_insets (cameras ms) comb0))
                              (model_combinations ms))) p) as [v' |] eqn:E.
  - exists v'. split; [reflexivity |].
    apply (model_lookup_max_min ms p v' (proj1 Hocs) Halls) in E.
    destruct E as [_ Hb]. apply (Hb comb v Hcs). rewrite Esets. exact Hmin.
  - exfalso. rewrite union_all_lookup_None in E.
    specialize (E (inter_all (key_insets (cameras ms) comb))).
    rewrite Esets in E.
    assert (Hne : key_insets (cameras m) comb <> []).
    { destruct Hmin as [_ [s0 [Hs0 _]]]. intros E0. rewrite E0 in Hs0.
      contradiction. }
    assert (Hsome : fs_lookup (inter_all (key_insets (cameras m) comb)) p = Some v)
      by (apply (inter_all_lookup _ p v Hne); exact Hmin).
    rewrite E in Hsome; [discriminate |].
    apply in_map_iff. exists comb. split; [rewrite Esets; reflexivity | exact Hcs].
Qed.

End MultiCameraMore.

(** The witnesses, on the network of the example camera tracking the point
    (1, 4, 2), which the camera covers with degree 1. *)
Lemma example_inscene_elements :
  inscene_elements [] (example_camera 1) [PlainPoint 1 4 2]
  = [(PlainPoint 1 4 2, 1)].
Proof.
  unfold inscene_elements. cbn [flat_map]. rewrite example_camera_mu.
  unfold in_scene_test. rewrite Rltb_true by lra. reflexivity.
Qed.

Lemma example_network_eq :
  one_camera_network [PlainPoint 1 4 2]
  = {| cameras :=
         [("c"%string, with_inscene (example_camera 1) [(PlainPoint 1 4 2, 1)])];
       ocular := 1; scene := []; points := [PlainPoint 1 4 2]; model := [];
       model_updated := false |}.
Proof.
  rewrite one_camera_network_eq, example_inscene_elements. reflexivity.
Qed.

Lemma example_network_cameras (k : string) (c : Camera) :
  dict_get (cameras (one_camera_network [PlainPoint 1 4 2])) k = Some c ->
  c = with_inscene (example_camera 1) [(PlainPoint 1 4 2, 1)].
Proof.
  rewrite example_network_eq. simpl.
  destruct (String.eqb k "c"); [| discriminate]. intros [= <-]. reflexivity.
Qed.

Lemma example_network_defined (k : string) (c : Camera) (p : Point) :
  dict_get (cameras (one_camera_network [PlainPoint 1 4 2])) k = Some c ->
  mu_defined c p.
Proof.
  intros E. rewrite (example_network_cameras k c E).
  apply example_camera_mu_defined.
Qed.

Lemma update_inscene_unknown_key_witness :
  update_inscene "c" (empty_network []) = (Raise KeyError, empty_network []).
Proof.
  apply (update_inscene_unknown_key (empty_network []) "c"). reflexivity.
Defined.

Lemma setitem_then_getitem_witness :
  let m := empty_network [PlainPoint 1 4 2] in
  let c := example_camera 1 in
  exists m' s,
    setitem "c" (ObjCamera c) m = (Ok tt, m') /\
    getitem "c" m' = (Ok (with_inscene c s), m') /\
    (forall p, In p (points m) -> inscene_agrees (scene m) c s p) /\
    (forall p, ~ In p (points m) -> fs_lookup s p = None) /\
    (forall k, k <> "c"%string ->
               dict_get (cameras m') k = dict_get (cameras m) k) /\
    (forall k, In k (dict_keys (cameras m'))
               <-> k = "c"%string \/ In k (dict_keys (cameras m))) /\
    points m' = points m /\ model m' = model m /\ model_updated m' = false.
Proof.
  intros m c. apply (setitem_then_getitem m "c" c).
  intros p _. apply example_camera_mu_defined.
Defined.

Lemma inscene_entries_earned_witness :
  let m := one_camera_network [PlainPoint 1 4 2] in
  let c := with_inscene (example_camera 1) [(PlainPoint 1 4 2, 1)] in
  let p := PlainPoint 1 4 2 in
  In p (points m) /\
  occluded (scene m) p (pose_T (pose c)) = false /\
  Camera_mu c p = Ok 1 /\ 0 < 1 <= 1.
Proof.
  intros m c p.
  apply (inscene_entries_earned m "c" c [(PlainPoint 1 4 2, 1)] p 1).
  - apply one_camera_network_ok.
  - split; simpl; [discriminate | lra].
  - unfold m. rewrite example_network_eq. reflexivity.
  - reflexivity.
  - unfold p. cbn [fs_lookup].
    destruct (Point_eq_dec (PlainPoint 1 4 2) (PlainPoint 1 4 2));
      [reflexivity | contradiction].
Defined.

Lemma add_point_matches_update_inscene_witness :
  let m := one_camera_network [PlainPoint 1 4 2] in
  exists m1,
    add_point (PlainPoint 0 0 2) m = (Ok tt, m1) /\
    forall key c1 s1,
      dict_get (cameras m1) key = Some c1 -> inscene c1 = Some s1 ->
      exists m2 s2,
        update_inscene key m1 = (Ok tt, m2) /\
        dict_get (cameras m2) key = Some (with_inscene c1 s2) /\
        forall p, fs_lookup s2 p = fs_lookup s1 p.
Proof.
  intros m. apply (add_point_matches_update_inscene m (PlainPoint 0 0 2)).
  - apply one_camera_network_ok.
  - intros k c p E _. exact (example_network_defined k c p E).
Defined.

Lemma example_network_has_inscene (k : string) (c : Camera) :
  dict_get (cameras (one_camera_network [PlainPoint 1 4 2])) k = Some c ->
  exists s, inscene c = Some s.
Proof.
  intros E. rewrite (example_network_cameras k c E). eexists. reflexivity.
Qed.

Lemma update_model_max_min_witness :
  let m := one_camera_network [PlainPoint 1 4 2] in
  exists m',
    update_model m = (Ok tt, m') /\
    cameras m' = cameras m /\ points m' = points m /\
    model_updated m' = true /\
    forall p v,
      fs_lookup (model m') p = Some v
      <-> (exists comb, In comb (model_combinations m) /\
                        min_degree (key_insets (cameras m) comb) p v) /\
          (forall comb w, In comb (model_combinations m) ->
                          min_degree (key_insets (cameras m) comb) p w ->
                          w <= v).
Proof.
  intros m. apply (update_model_max_min m).
  - unfold m. rewrite example_network_eq. simpl. lia.
  - exact example_network_has_inscene.
Defined.

Lemma example_updated_network :
  update_model (one_camera_network [PlainPoint 1 4 2])
  = (Ok tt,
     {| cameras :=
          [("c"%string, with_inscene (example_camera 1) [(PlainPoint 1 4 2, 1)])];
        ocular := 1; scene := []; points := [PlainPoint 1 4 2];
        model := [(PlainPoint 1 4 2, 1)]; model_updated := true |}).
Proof.
  rewrite update_model_general.
  - rewrite example_network_eq. reflexivity.
  - rewrite example_network_eq. simpl. lia.
  - exact example_network_has_inscene.
Qed.

Lemma model_entries_earned_witness :
  let m := one_camera_network [PlainPoint 1 4 2] in
  let p := PlainPoint 1 4 2 in
  0 < 1 <= 1 /\ In p (points m) /\
  exists comb,
    List.length comb = Z.to_nat (ocular m) /\ NoDup comb /\
    forall k, In k comb ->
      exists c mu,
        dict_get (cameras m) k = Some c /\
        occluded (scene m) p (pose_T (pose c)) = false /\
        Camera_mu c p = Ok mu /\ 1 <= mu.
Proof.
  intros m p.
  eapply (model_entries_earned m _ p 1 (one_camera_network_ok [PlainPoint 1 4 2])).
  - intros key c E. rewrite (example_network_cameras key c E).
    split; simpl; [discriminate | lra].
  - unfold m. rewrite example_network_eq. simpl. lia.
  - apply example_updated_network.
  - unfold p. cbn [model fs_lookup].
    destruct (Point_eq_dec (PlainPoint 1 4 2) (PlainPoint 1 4 2));
      [reflexivity | contradiction].
Defined.

Lemma adding_camera_never_lowers_model_witness :
  let m := one_camera_network [PlainPoint 1 4 2] in
  exists m1 ms m2,
    update_model m = (Ok tt, m1) /\
    setitem "d" (ObjCamera (example_camera 1)) m = (Ok tt, ms) /\
    update_model ms = (Ok tt, m2) /\
    forall p v, fs_lookup (model m1) p = Some v ->
                exists v', fs_lookup (model m2) p = Some v' /\ v <= v'.
Proof.
  intros m. apply (adding_camera_never_lowers_model m "d" (example_camera 1)).
  - unfold m. rewrite example_network_eq. simpl. lia.
  - exact example_network_has_inscene.
  - unfold m. rewrite example_network_eq. reflexivity.
  - intros p _. apply example_camera_mu_defined.
Defined.

(** ** [RangeModel.project] *)

Section RangeModelMore.
Context {G : Geometry} {TM : TriangleModel}.
Variable model_occluded : RangeModel -> Point -> string -> bool.
Variable model_coverage :
  RangeModel -> Task -> option (list string) -> result PointCache.

(** The nearest hit kept over the triangles is a plain point inside the
    fan. *)
Lemma nearest_hit_in_fan (lpose tpose : Pose) (fan : R) (origin end_ : Point)
    (tris : list Triangle) :
  forall cp,
    (forall c, cp = Some c ->
       exists x y z, c = PlainPoint x y z /\ Rabs x <= z * tan (fan / 2)) ->
    forall c,
      fold_left (nearest_hit lpose tpose fan origin end_) tris cp = Some c ->
      exists x y z, c = PlainPoint x y z /\ Rabs x <= z * tan (fan / 2).
Proof.
  induction tris as [| t tris IH]; intros cp Hcp c Hc; simpl in Hc.
  - apply Hcp. exact Hc.
  - apply (IH (nearest_hit lpose tpose fan origin end_ cp t)); [| exact Hc].
    intros c' H'. unfold nearest_hit in H'.
    destruct (intersection tpose t origin end_) as [ip0 |]; [| apply Hcp; exact H'].
    set (ip := pose_map (pose_neg lpose) ip0) in *.
    destruct (Rltb (pz ip * tan (fan / 2)) (Rabs (px ip))) eqn:E;
      [apply Hcp; exact H' |].
    assert (Hfan : Rabs (px ip) <= pz ip * tan (fan / 2)).
    { unfold Rltb in E. destruct (Rlt_dec _ _); [discriminate | lra]. }
    destruct cp as [c0 |].
    + destruct (Rltb (pz ip) (pz c0)).
      * injection H' as <-. exists (px ip), (py ip), (pz ip). auto.
      * apply Hcp. exact H'.
    + injection H' as <-. exists (px ip), (py ip), (pz ip). auto.
Qed.

(** Every turn of the loop of [project] keeps the cache to projected
    entries. *)
Lemma project_loop_entries (self : RangeModel) (laser target : string)
    (lpose : Pose) (fan depth lpitch width : R) :
  forall (budget : nat) (x : R) (points points' : PointCache),
    (forall p v, fs_lookup points p = Some v -> projected_entry fan p v) ->
    project_loop model_occluded budget self laser target lpose fan depth
                 lpitch width x points = Some (Ok points') ->
    forall p v, fs_lookup points' p = Some v -> projected_entry fan p v.
Proof.
  induction budget as [| budget IH]; intros x points points' Hpts Hrun;
    cbn [project_loop] in Hrun.
  - destruct (Rltb x width); [discriminate |].
    injection Hrun as <-. exact Hpts.
  - destruct (Rltb x width); [| injection Hrun as <-; exact Hpts].
    destruct (dict_get (objects self) target) as [tobj |]; [| discriminate].
    eapply IH; [| exact Hrun]. intros p v H. cbv zeta in H.
    destruct (fold_left _ (triangles tobj) None) as [c |] eqn:Ecp;
      [| apply Hpts; exact H].
    destruct (negb (model_occluded self (pose_map lpose c) laser));
      [| apply Hpts; exact H].
    rewrite fs_lookup_set in H.
    destruct (Point_eq_dec p _) as [-> | _]; [| apply Hpts; exact H].
    injection H as <-. split; [reflexivity |].
    destruct (nearest_hit_in_fan _ _ fan _ _ (triangles tobj) None
                (fun c' H' => ltac:(discriminate)) c Ecp)
      as [cx [cy [cz [-> Hfan]]]].
    exists cx, cy, cz. split; [reflexivity | exact Hfan].
Qed.

(** X11: A task [project] returns carries the parameters it was given, is mounted
    on the laser, and holds projected entries only: directional points with
    [rho = pi] and [eta = 0], inside the laser's fan, of weight 1.  The model
    is as it was. *)
Theorem project_task_entries (budget : nat) (task_params : list (string * R))
    (laser target : string) (lpitch : R) (m m' : RangeModel) (t : Task) :
  project model_occluded budget task_params laser target lpitch m
  = Some (Ok t, m') ->
  m' = m /\ params t = task_params /\ mount t = Some laser /\
  existsb (String.eqb laser) (lasers m) = true /\
  exists lobj fan depth,
    laser_of m laser = Ok (lobj, fan, depth) /\
    forall p v, fs_lookup (task_points t) p = Some v -> projected_entry fan p v.
Proof.
  unfold project. intros H.
  destruct (existsb (String.eqb laser) (lasers m)) eqn:Ein; simpl negb in H;
    cbv iota in H; [| discriminate].
  destruct (laser_of m laser) as [[[lobj fan] depth] | e] eqn:El;
    [| discriminate].
  destruct (py_div (- (depth * tan (fan / 2))) lpitch) as [q | e]; [| discriminate].
  destruct (project_loop model_occluded budget m laser target (so_pose lobj)
              fan depth lpitch (depth * tan (fan / 2))
              (IZR (py_int q) * lpitch) []) as [[pts | e] |] eqn:Eloop;
    try discriminate.
  injection H as <- <-. simpl.
  repeat split. exists lobj, fan, depth. split; [reflexivity |].
  apply (project_loop_entries m laser target (so_pose lobj) fan depth lpitch
           (depth * tan (fan / 2)) budget (IZR (py_int q) * lpitch) [] pts);
    [| exact Eloop].
  intros p v Hp. discriminate.
Qed.

(** With a negative pitch the loop variable walks away from [width]. *)
Lemma project_loop_diverges (self : RangeModel) (laser target : string)
    (lpose : Pose) (fan depth lpitch width : R) (tobj : SceneObject) :
  lpitch < 0 ->
  dict_get (objects self) target = Some tobj ->
  forall (budget : nat) (x : R) (points : PointCache),
    x < width ->
    project_loop model_occluded budget self laser target lpose fan depth
                 lpitch width x points = None.
Proof.
  intros Hl Ht. induction budget as [| budget IH]; intros x points Hx;
    cbn [project_loop]; rewrite (Rltb_true x width Hx); [reflexivity |].
  rewrite Ht. apply IH. lra.
Qed.

Lemma py_int_nonneg (q : R) : 0 <= q -> (0 <= py_int q)%Z.
Proof.
  intros Hq. unfold py_int. destruct (Rle_dec 0 q); [| contradiction].
  destruct (base_Int_part q) as [_ Hlo].
  assert (H : IZR (-1) < IZR (Int_part q)) by (simpl; lra).
  apply lt_IZR in H. lia.
Qed.

(** X12: [project] by the sign of the laser pitch, for a known line laser and a
    bound target: a positive pitch returns a task on some budget, a zero
    pitch raises [ZeroDivisionError], and a negative pitch with a positive
    projection width never returns: the loop [while x < width] then steps
    away from [width], whatever the budget. *)
Theorem project_by_pitch_sign (task_params : list (string * R))
    (laser target : string) (lpitch fan depth : R) (m : RangeModel)
    (lobj tobj : SceneObject) :
  existsb (String.eqb laser) (lasers m) = true ->
  laser_of m laser = Ok (lobj, fan, depth) ->
  dict_get (objects m) target = Some tobj ->
  (0 < lpitch ->
   exists budget t,
     project model_occluded budget task_params laser target lpitch m
     = Some (Ok t, m)) /\
  (lpitch = 0 ->
   forall budget,
     project model_occluded budget task_params laser target lpitch m
     = Some (Raise ZeroDivisionError, m)) /\
  (lpitch < 0 -> 0 < depth * tan (fan / 2) ->
   forall budget,
     project model_occluded budget task_params laser target lpitch m = None).
Proof.
  intros Hin Hlaser Ht. split; [| split].
  - intros Hl.
    destruct (INR_archimed lpitch
                (depth * tan (fan / 2)
                 - IZR (py_int (- (depth * tan (fan / 2)) / lpitch)) * lpitch) Hl)
      as [budget Hb].
    exists budget.
    exact (project_returns model_occluded m task_params laser target lpitch
             fan depth lobj tobj Hin Hlaser Ht Hl budget (Rlt_le _ _ Hb)).
  - intros -> budget. unfold project. rewrite Hin, Hlaser. simpl negb.
    cbv iota. rewrite py_div_zero. reflexivity.
  - intros Hl Hw budget. unfold project. rewrite Hin, Hlaser. simpl negb.
    cbv iota. rewrite py_div_nonzero by lra.
    rewrite (project_loop_diverges m laser target (so_pose lobj) fan depth
               lpitch (depth * tan (fan / 2)) tobj Hl Ht); [reflexivity |].
    set (W := depth * tan (fan / 2)) in *.
    assert (Hq : 0 <= - W / lpitch).
    { apply Rlt_le. replace (- W / lpitch) with (W / (- lpitch)) by (field; lra).
      apply Rdiv_lt_0_compat; lra. }
    pose proof (py_int_nonneg _ Hq) as Hz. apply IZR_le in Hz.
    nra.
Qed.

(** ** [RangeModel.range_coverage] *)

Lemma dict_set_same {V : Type} (d : list (string * V)) (k : string) (v : V) :
  dict_get d k = Some v -> dict_set d k v = d.
Proof.
  induction d as [| [q w] d IH]; simpl; [discriminate |].
  destruct (String.eqb k q) eqn:E.
  - intros [= ->]. reflexivity.
  - intros H. f_equal. apply IH. exact H.
Qed.

(** Restoring the pose an object has leaves the model as it is. *)
Lemma set_absolute_pose_same (m : RangeModel) (key : string) (o : SceneObject) :
  dict_get (objects m) key = Some o ->
  set_absolute_pose key (so_pose o) m = (Ok tt, m).
Proof.
  intros H. rewrite (set_absolute_pose_ok m key o (so_pose o) H).
  f_equal. destruct m as [objs ls]. simpl in *. f_equal.
  replace {| so_pose := so_pose o; triangles := triangles o;
             line_laser := line_laser o |} with o by (destruct o; reflexivity).
  apply dict_set_same. exact H.
Qed.

Lemma min_list_le (l : list R) : forall d, min_list d l <= d.
Proof.
  induction l as [| x l IH]; intros d; simpl; [lra |].
  apply Rle_trans with (Rmin d x); [apply IH | apply Rmin_l].
Qed.

Lemma max_list_ge (l : list R) : forall d, d <= max_list d l.
Proof.
  induction l as [| x l IH]; intros d; simpl; [lra |].
  apply Rle_trans with (Rmax d x); [apply Rmax_l | apply IH].
Qed.

Lemma extent_ordered (pvs : list R) (lv gv : R) :
  extent pvs = Some (lv, gv) -> lv <= gv.
Proof.
  destruct pvs as [| pv pvs]; simpl; [discriminate |].
  intros [= <- <-].
  apply Rle_trans with pv; [apply min_list_le | apply max_list_ge].
Qed.

Lemma py_int_nonpos (q : R) : q < 1 -> (py_int q <= 0)%Z.
Proof.
  intros Hq. unfold py_int. destruct (Rle_dec 0 q) as [H0 | H0].
  - destruct (base_Int_part q) as [Hhi _].
    assert (H : IZR (Int_part q) < IZR 1) by (simpl; lra).
    apply lt_IZR in H. lia.
  - destruct (base_Int_part (- q)) as [_ Hlo].
    assert (H : IZR (-1) < IZR (Int_part (- q))) by (simpl; lra).
    apply lt_IZR in H. lia.
Qed.

(** X13: A target shorter along the axis than one transport step (or a negative
    transport pitch) gives a sweep without steps: [range_coverage] returns an
    empty coverage and an empty task with the parameters of the given one,
    and the model is as it was. *)
Theorem range_coverage_without_steps (budget : nat) (task : Task)
    (laser target : string) (lpitch tpitch : R) (taxis ax : Point)
    (subset : option (list string)) (m : RangeModel) (tobj : SceneObject)
    (lv gv : R) :
  dict_get (objects m) target = Some tobj ->
  normal taxis = Ok ax ->
  extent
    (flat_map (fun triangle =>
                 map (dot ax) (mapped_vertices (so_pose tobj) triangle))
              (triangles tobj)) = Some (lv, gv) ->
  tpitch < 0 \/ gv - lv < tpitch ->
  range_coverage model_occluded model_coverage budget task laser target
                 lpitch tpitch taxis "linear" subset m
  = Some (Ok ([], {| params := params task; task_points := [];
                     mount := None |}), m).
Proof.
  intros Ht Hax Hext Hshort.
  pose proof (extent_ordered _ lv gv Hext) as Hord.
  assert (Hne : tpitch <> 0) by (destruct Hshort; lra).
  assert (Hsteps : (py_int ((gv - lv) / tpitch) <= 0)%Z).
  { apply py_int_nonpos. destruct Hshort as [Hneg | Hlt].
    - apply Rle_lt_trans with 0; [| lra].
      replace ((gv - lv) / tpitch) with (- ((gv - lv) / (- tpitch)))
        by (field; lra).
      assert (0 <= (gv - lv) / (- tpitch)); [| lra].
      apply Rle_mult_inv_pos; lra.
    - apply (Rmult_lt_reg_r tpitch); [lra |].
      unfold Rdiv. rewrite Rmult_assoc, Rinv_l by lra. lra. }
  unfold range_coverage.
  rewrite (fbind_ok _ _ m m tobj)
    by (unfold total; rewrite (getobj_ok m target tobj Ht); reflexivity).
  cbn [String.eqb Ascii.eqb Bool.eqb].
  rewrite (fbind_ok _ _ m m ax)
    by (unfold total, lift; rewrite Hax; reflexivity).
  rewrite (fbind_ok _ _ m m tobj)
    by (unfold total; rewrite (getobj_ok m target tobj Ht); reflexivity).
  rewrite (fbind_ok _ _ m m (py_int ((gv - lv) / tpitch), gv))
    by (unfold total, lift, sweep_steps; rewrite Hext;
        rewrite py_div_nonzero by exact Hne; reflexivity).
  cbn [fst snd]. unfold py_range.
  replace (Z.to_nat (py_int ((gv - lv) / tpitch))) with 0%nat by lia.
  cbn [seq ffor_acc].
  rewrite (fbind_ok _ _ m m ([], [])) by reflexivity.
  rewrite (fbind_ok _ _ m m tt)
    by (unfold total; rewrite (set_absolute_pose_same m target tobj Ht);
        reflexivity).
  reflexivity.
Qed.

(** X14: A target without triangles has no extent: [range_coverage] raises before
    it moves anything, [ZeroDivisionError] for a zero transport pitch and
    [OverflowError] (the conversion of an infinite step count) otherwise. *)
Theorem range_coverage_empty_target (budget : nat) (task : Task)
    (laser target : string) (lpitch tpitch : R) (taxis ax : Point)
    (subset : option (list string)) (m : RangeModel) (tobj : SceneObject) :
  dict_get (objects m) target = Some tobj ->
  triangles tobj = [] ->
  normal taxis = Ok ax ->
  range_coverage model_occluded model_coverage budget task laser target
                 lpitch tpitch taxis "linear" subset m
  = Some (Raise (if Req_dec_T tpitch 0 then ZeroDivisionError
                 else OverflowError), m).
Proof.
  intros Ht Hempty Hax. unfold range_coverage.
  rewrite (fbind_ok _ _ m m tobj)
    by (unfold total; rewrite (getobj_ok m target tobj Ht); reflexivity).
  cbn [String.eqb Ascii.eqb Bool.eqb].
  rewrite (fbind_ok _ _ m m ax)
    by (unfold total, lift; rewrite Hax; reflexivity).
  rewrite (fbind_ok _ _ m m tobj)
    by (unfold total; rewrite (getobj_ok m target tobj Ht); reflexivity).
  apply fbind_raise. unfold total, lift. rewrite Hempty. simpl flat_map.
  unfold sweep_steps, extent, py_div.
  destruct (Req_dec_T tpitch 0); reflexivity.
Qed.

Lemma ffor_acc_invariant {S A B : Type} (I : B -> Prop) (body : B -> A -> F S B) :
  (forall acc a s r s', I acc -> body acc a s = Some (Ok r, s') -> I r) ->
  forall (l : list A) (acc : B) (s s' : S) (r : B),
    I acc -> ffor_acc l acc body s = Some (Ok r, s') -> I r.
Proof.
  intros Hbody. induction l as [| a l IH]; intros acc s s' r Hacc Hrun.
  - unfold ffor_acc, total, ret in Hrun. injection Hrun as <- _. exact Hacc.
  - cbn [ffor_acc] in Hrun. apply fbind_inv_ok in Hrun.
    destruct Hrun as [acc' [s1 [E1 Hrun]]].
    apply (IH acc' s1 s' r); [| exact Hrun].
    exact (Hbody acc a s acc' s1 Hacc E1).
Qed.

Lemma record_point_keeps_match (target : string) (P0 : Pose)
    (acc : PointCache * PointCache) (item : Point * R) (s s' : RangeModel)
    (r : PointCache * PointCache) :
  caches_match acc ->
  record_point target P0 acc item s = Some (Ok r, s') ->
  caches_match r.
Proof.
  intros Hacc Hrun. unfold record_point in Hrun.
  apply fbind_inv_ok in Hrun. destruct Hrun as [cur [s1 [_ Hrun]]].
  unfold total, ret in Hrun. injection Hrun as <- _.
  intros p. simpl. rewrite !fs_lookup_set.
  destruct (Point_eq_dec p _) as [_ | _].
  - split; [split; discriminate |]. intros v [= <-]. reflexivity.
  - exact (Hacc p).
Qed.

(** X15: The coverage and the task [range_coverage] returns go together: the
    task has the parameters of the given task and no mount, its points are
    the keys of the coverage, and each of them has weight 1. *)
Theorem range_coverage_task_matches_coverage (budget : nat) (task : Task)
    (laser target : string) (lpitch tpitch : R) (taxis : Point)
    (tstyle : string) (subset : option (list string)) (m m' : RangeModel)
    (coverage : PointCache) (task' : Task) :
  range_coverage model_occluded model_coverage budget task laser target
                 lpitch tpitch taxis tstyle subset m
  = Some (Ok (coverage, task'), m') ->
  params task' = params task /\ mount task' = None /\
  caches_match (coverage, task_points task').
Proof.
  unfold range_coverage. intros Hrun.
  apply fbind_inv_ok in Hrun. destruct Hrun as [tobj [s0 [_ Hrun]]].
  destruct (String.eqb tstyle "linear").
  2:{ destruct (String.eqb tstyle "rotary"); discriminate. }
  apply fbind_inv_ok in Hrun. destruct Hrun as [ax [s1 [_ Hrun]]].
  apply fbind_inv_ok in Hrun. destruct Hrun as [tobj' [s2 [_ Hrun]]].
  apply fbind_inv_ok in Hrun. destruct Hrun as [sg [s3 [_ Hrun]]].
  apply fbind_inv_ok in Hrun. destruct Hrun as [caches [s4 [Hloop Hrun]]].
  apply fbind_inv_ok in Hrun. destruct Hrun as [[] [s5 [_ Hrun]]].
  unfold total, ret in Hrun. injection Hrun as <- <- _.
  simpl. split; [reflexivity |]. split; [reflexivity |].
  assert (Hinner : forall (pc : PointCache) acc0 u u' r0,
            caches_match acc0 ->
            ffor_acc pc acc0 (record_point target (so_pose tobj)) u
            = Some (Ok r0, u') ->
            caches_match r0).
  { intros pc acc0 u u' r0 H0 Hr.
    refine (ffor_acc_invariant caches_match _ _ pc acc0 u u' r0 H0 Hr).
    intros acc1 item v r1 v' H1 Hr1.
    exact (record_point_keeps_match _ _ acc1 item v v' r1 H1 Hr1). }
  assert (Hm : caches_match caches).
  { refine (ffor_acc_invariant caches_match _ _ _ ([], []) s3 s4 caches _ Hloop).
    - intros acc i s r s' Hacc Hstep. unfold sweep_step in Hstep.
      apply fbind_inv_ok in Hstep. destruct Hstep as [[] [t1 [_ Hstep]]].
      apply fbind_inv_ok in Hstep. destruct Hstep as [pt [t2 [_ Hstep]]].
      apply fbind_inv_ok in Hstep. destruct Hstep as [self [t3 [_ Hstep]]].
      apply fbind_inv_ok in Hstep. destruct Hstep as [pc [t4 [_ Hstep]]].
      exact (Hinner pc acc t4 s' r Hacc Hstep).
    - intros p. simpl. split; [tauto | discriminate]. }
  destruct caches as [cov tsk]. exact Hm.
Qed.

Lemma normal_Ok (p : Point) :
  sqrt (dot p p) <> 0 -> exists ax, normal p = Ok ax.
Proof.
  intros H. unfold normal. rewrite !py_div_nonzero by exact H.
  eexists. reflexivity.
Qed.

(** X16: [range_coverage] ends and returns normally, on some budget, for a linear
    transport along a nonzero axis at a nonzero transport pitch, a target
    with a vertex, a known line laser, a positive laser pitch, and a coverage
    evaluation that does not raise. *)
Theorem range_coverage_terminates (task : Task) (laser target : string)
    (lpitch tpitch fan depth : R) (taxis : Point)
    (subset : option (list string)) (m : RangeModel) (tobj : SceneObject) :
  sweep_ready laser target fan depth m ->
  dict_get (objects m) target = Some tobj ->
  0 < lpitch -> tpitch <> 0 ->
  sqrt (dot taxis taxis) <> 0 ->
  (exists t, In t (triangles tobj) /\ mapped_vertices (so_pose tobj) t <> []) ->
  (forall m' t, exists pc, model_coverage m' t subset = Ok pc) ->
  exists budget r m',
    range_coverage model_occluded model_coverage budget task laser target
                   lpitch tpitch taxis "linear" subset m
    = Some (Ok r, m').
Proof.
  intros Hready Ht Hl Htp Hax [t [Hin Hv]] Hcov.
  destruct (normal_Ok taxis Hax) as [ax Eax].
  set (pvs := flat_map (fun triangle =>
                map (dot ax) (mapped_vertices (so_pose tobj) triangle))
              (triangles tobj)).
  assert (Hpvs : pvs <> []).
  { intros E.
    assert (Hsub : forall x, In x (map (dot ax) (mapped_vertices (so_pose tobj) t))
                             -> In x pvs).
    { intros x Hx. unfold pvs. apply in_flat_map. exists t. auto. }
    rewrite E in Hsub.
    destruct (mapped_vertices (so_pose tobj) t) as [| v0 vs]; [contradiction |].
    exact (Hsub _ (or_introl eq_refl)). }
  assert (Hsg : exists sg, sweep_steps pvs tpitch = Ok sg).
  { unfold sweep_steps. destruct pvs as [| pv rest]; [contradiction |].
    simpl. rewrite py_div_nonzero by exact Htp. eexists. reflexivity. }
  destruct Hsg as [sg Esg].
  exact (range_coverage_returns model_occluded model_coverage task laser
           target lpitch tpitch fan depth taxis ax subset m tobj sg
           Hl Hcov Hready Ht Eax Esg).
Qed.

End RangeModelMore.

(** ** The laser on a plate *)

(** The runs of [project] and [range_coverage] on the plate example, for the
    witnesses. *)

Lemma tan_half_right_angle : tan (PI / 2 / 2) = 1.
Proof. replace (PI / 2 / 2) with (PI / 4) by lra. apply tan_PI4. Qed.

Lemma translate_origin (p : Point) : translate origin_pose p = p.
Proof.
  destruct p; unfold translate, origin_pose; cbn [px py pz]; f_equal; lra.
Qed.

Lemma translate_neg_origin (p : Point) :
  translate (@pose_neg TranslationGeometry origin_pose) p = p.
Proof.
  destruct p; unfold translate, origin_pose;
    cbn [pose_neg TranslationGeometry px py pz]; f_equal; lra.
Qed.

(** The segment the laser casts at [x] meets the plate at depth 1/2; the hit
    is kept when it lies inside the fan. *)
Lemma plate_nearest_hit (tx x : R) :
  @nearest_hit TranslationGeometry PlateTriangles origin_pose
    (PlainPoint tx 0 0) (PI / 2) (PlainPoint x 0 0) (PlainPoint x 0 1) None
    (1 / 2)
  = if Rltb (1 / 2) (Rabs x) then None else Some (PlainPoint x 0 (1 / 2)).
Proof.
  unfold nearest_hit.
  cbn [intersection PlateTriangles pz px py].
  replace (1 / 2 + 0) with (1 / 2) by lra.
  rewrite (Rleb_true 0 (1 / 2)) by lra.
  rewrite (Rleb_true (1 / 2) 1) by lra.
  cbn [andb].
  change (@pose_map TranslationGeometry) with translate.
  rewrite translate_neg_origin. cbn [px py pz].
  rewrite tan_half_right_angle.
  replace (1 / 2 * 1) with (1 / 2) by lra.
  reflexivity.
Qed.

(** One turn of the loop of [project] on the plate. *)
Lemma plate_loop_step (tx : R) (b : nat) (lpitch x : R) (points : PointCache) :
  x < 1 ->
  @project_loop TranslationGeometry PlateTriangles right_side_hidden (S b)
    (plate_model_at tx) "laser" "target" origin_pose (PI / 2) 1 lpitch 1 x
    points
  = @project_loop TranslationGeometry PlateTriangles right_side_hidden b
      (plate_model_at tx) "laser" "target" origin_pose (PI / 2) 1 lpitch 1
      (x + lpitch)
      (if Rltb (1 / 2) (Rabs x) then points
       else if Rltb 0 x then points
       else fs_set points (DirectionalPoint x 0 (1 / 2) PI 0) 1).
Proof.
  intros Hx. cbn [project_loop]. rewrite (Rltb_true x 1 Hx).
  change (dict_get (objects (plate_model_at tx)) "target")
    with (Some (plate_target_at tx)).
  cbv beta iota zeta.
  cbn [fold_left triangles plate_target_at so_pose].
  change (@pose_map TranslationGeometry) with translate.
  rewrite !translate_origin. rewrite plate_nearest_hit.
  destruct (Rltb (1 / 2) (Rabs x)); [reflexivity |].
  rewrite translate_origin. unfold right_side_hidden. cbn [px py pz].
  destruct (Rltb 0 x); reflexivity.
Qed.

Lemma plate_loop_done (tx : R) (b : nat) (lpitch x : R) (points : PointCache) :
  1 <= x ->
  @project_loop TranslationGeometry PlateTriangles right_side_hidden b
    (plate_model_at tx) "laser" "target" origin_pose (PI / 2) 1 lpitch 1 x
    points
  = Some (Ok points).
Proof.
  intros Hx. destruct b; cbn [project_loop]; rewrite (Rltb_false x 1 Hx);
    reflexivity.
Qed.

Lemma py_int_minus_two : py_int (- (1) / (1 / 2)) = (-2)%Z.
Proof.
  unfold py_int. destruct (Rle_dec 0 (- (1) / (1 / 2))) as [H | H].
  - exfalso. assert (- (1) / (1 / 2) = -2) by field. lra.
  - replace (- (- (1) / (1 / 2))) with 2 by field.
    assert (E : Int_part 2 = 2%Z) by (symmetry; apply Int_part_spec; lra).
    rewrite E. reflexivity.
Qed.

(** The projection of the laser on the plate at pitch 1/2: of the four
    segments cast, the one at -1 hits outside the fan, those at -1/2 and 0
    give a point each, and the one at 1/2 hits a point that is hidden. *)
Lemma plate_project (tx : R) (task_params : list (string * R)) :
  @project TranslationGeometry PlateTriangles right_side_hidden 4 task_params
    "laser" "target" (1 / 2) (plate_model_at tx)
  = Some (Ok {| params := task_params;
                task_points :=
                  [(DirectionalPoint (- (1 / 2)) 0 (1 / 2) PI 0, 1);
                   (DirectionalPoint 0 0 (1 / 2) PI 0, 1)];
                mount := Some "laser"%string |}, plate_model_at tx).
Proof.
  unfold project.
  change (existsb (String.eqb "laser") (lasers (plate_model_at tx))) with true.
  cbn [negb].
  change (laser_of (plate_model_at tx) "laser")
    with (Ok (plate_laser, PI / 2, 1)).
  cbv beta iota zeta.
  rewrite tan_half_right_angle.
  replace (1 * 1) with 1 by lra.
  rewrite py_div_nonzero by lra. cbv beta iota.
  rewrite py_int_minus_two.
  replace (IZR (-2) * (1 / 2)) with (-1) by (simpl; lra).
  change (so_pose plate_laser) with origin_pose.
  rewrite plate_loop_step by lra.
  rewrite (Rltb_true (1 / 2) (Rabs (-1)))
    by (rewrite Rabs_left by lra; lra).
  replace (-1 + 1 / 2) with (- (1 / 2)) by lra.
  rewrite plate_loop_step by lra.
  rewrite (Rltb_false (1 / 2) (Rabs (- (1 / 2))))
    by (rewrite Rabs_left by lra; lra).
  rewrite (Rltb_false 0 (- (1 / 2))) by lra.
  replace (- (1 / 2) + 1 / 2) with 0 by lra.
  rewrite plate_loop_step by lra.
  rewrite (Rltb_false (1 / 2) (Rabs 0)) by (rewrite Rabs_R0; lra).
  rewrite (Rltb_false 0 0) by lra.
  replace (0 + 1 / 2) with (1 / 2) by lra.
  rewrite plate_loop_step by lra.
  rewrite (Rltb_false (1 / 2) (Rabs (1 / 2)))
    by (rewrite Rabs_right by lra; lra).
  rewrite (Rltb_true 0 (1 / 2)) by lra.
  rewrite plate_loop_done by lra.
  cbn [fs_set].
  destruct (Point_eq_dec (DirectionalPoint 0 0 (1 / 2) PI 0)
              (DirectionalPoint (- (1 / 2)) 0 (1 / 2) PI 0)) as [E | _].
  - exfalso. injection E as E. lra.
  - reflexivity.
Qed.

(** The plate extends from -1 to 1 on the x axis: one step of pitch 2. *)
Lemma plate_sweep_steps :
  sweep_steps
    (flat_map (fun triangle =>
                 map (dot (PlainPoint 1 0 0))
                     (@mapped_vertices TranslationGeometry PlateTriangles
                        (so_pose (plate_target_at 0)) triangle))
              (triangles (plate_target_at 0))) 2
  = Ok (1%Z, 1).
Proof.
  cbn [flat_map triangles plate_target_at so_pose mapped_vertices
       PlateTriangles map app px py pz].
  unfold dot. cbn [px py pz].
  replace (1 * (0 - 1) + 0 * 0 + 0 * (1 / 2 + 0)) with (-1) by lra.
  replace (1 * (0 + 1) + 0 * 0 + 0 * (1 / 2 + 0)) with 1 by lra.
  unfold sweep_steps, extent. cbn [min_list max_list].
  rewrite (Rmin_left (-1) 1) by lra. rewrite (Rmax_right (-1) 1) by lra.
  rewrite py_div_nonzero by lra. cbn [rbind].
  rewrite (py_int_of_Z 1) by lra. reflexivity.
Qed.

(** The first sweep step moves the plate to x = -1. *)
Lemma plate_first_pose :
  @pose_add TranslationGeometry (so_pose (plate_target_at 0))
    (pose_of_T (scale (2 * INR 0 - 1) (PlainPoint 1 0 0)))
  = PlainPoint (-1) 0 0.
Proof.
  cbn [pose_add pose_of_T TranslationGeometry scale so_pose plate_target_at
       px py pz INR].
  f_equal; lra.
Qed.

(** A point of the profile taken with the plate at x = -1, recorded in the
    frame of the plate at the origin: one unit further on the x axis. *)
Lemma plate_record_point (acc : PointCache * PointCache) (x w : R) :
  @record_point TranslationGeometry PlateTriangles "target" origin_pose acc
    (DirectionalPoint x 0 (1 / 2) PI 0, w) (plate_model_at (-1))
  = Some (Ok (fs_set (fst acc) (DirectionalPoint (x + 1) 0 (1 / 2) PI 0) w,
              fs_set (snd acc) (DirectionalPoint (x + 1) 0 (1 / 2) PI 0) 1),
          plate_model_at (-1)).
Proof.
  unfold record_point.
  rewrite (fbind_ok _ _ (plate_model_at (-1)) (plate_model_at (-1))
             (plate_target_at (-1))) by reflexivity.
  unfold total, ret.
  cbn [fst snd so_pose plate_target_at pose_map pose_add pose_neg
       TranslationGeometry translate origin_pose px py pz].
  replace (x + (- -1 + 0)) with (x + 1) by lra.
  replace (0 + (- 0 + 0)) with 0 by lra.
  replace (1 / 2 + (- 0 + 0)) with (1 / 2) by lra.
  reflexivity.
Qed.

Lemma plate_points_differ :
  DirectionalPoint 1 0 (1 / 2) PI 0 <> DirectionalPoint (1 / 2) 0 (1 / 2) PI 0.
Proof. intros E. injection E as E. lra. Qed.

(** The sweep of the plate through the laser, one step of pitch 2: the two
    points of the profile, with the strength 1/2, in the frame of the plate
    at the origin. *)
Lemma plate_range_coverage :
  @range_coverage TranslationGeometry PlateTriangles right_side_hidden
    half_coverage 4 example_task "laser" "target" (1 / 2) 2
    (PlainPoint 1 0 0) "linear" None plate_model
  = Some (Ok ([(DirectionalPoint (1 / 2) 0 (1 / 2) PI 0, 1 / 2);
               (DirectionalPoint 1 0 (1 / 2) PI 0, 1 / 2)],
              {| params := [];
                 task_points :=
                   [(DirectionalPoint (1 / 2) 0 (1 / 2) PI 0, 1);
                    (DirectionalPoint 1 0 (1 / 2) PI 0, 1)];
                 mount := None |}),
          plate_model).
Proof.
  unfold range_coverage.
  rewrite (fbind_ok _ _ plate_model plate_model (plate_target_at 0))
    by reflexivity.
  cbn [String.eqb Ascii.eqb Bool.eqb].
  rewrite (fbind_ok _ _ plate_model plate_model (PlainPoint 1 0 0))
    by (unfold total, lift; rewrite normal_x_axis; reflexivity).
  rewrite (fbind_ok _ _ plate_model plate_model (plate_target_at 0))
    by reflexivity.
  rewrite (fbind_ok _ _ plate_model plate_model (1%Z, 1))
    by (unfold total, lift; rewrite plate_sweep_steps; reflexivity).
  cbn [fst snd]. unfold py_range.
  change (Z.to_nat 1) with 1%nat. cbn [seq ffor_acc].
  unfold sweep_step. rewrite plate_first_pose.
  change (so_pose (plate_target_at 0)) with origin_pose.
  rewrite (fbind_ok _ _ plate_model (plate_model_at (-1))
             ([(DirectionalPoint (1 / 2) 0 (1 / 2) PI 0, 1 / 2);
               (DirectionalPoint 1 0 (1 / 2) PI 0, 1 / 2)],
              [(DirectionalPoint (1 / 2) 0 (1 / 2) PI 0, 1);
               (DirectionalPoint 1 0 (1 / 2) PI 0, 1)])).
  - rewrite (fbind_ok _ _ (plate_model_at (-1)) plate_model tt)
      by reflexivity.
    reflexivity.
  - rewrite (fbind_ok _ _ plate_model (plate_model_at (-1))
               ([(DirectionalPoint (1 / 2) 0 (1 / 2) PI 0, 1 / 2);
                 (DirectionalPoint 1 0 (1 / 2) PI 0, 1 / 2)],
                [(DirectionalPoint (1 / 2) 0 (1 / 2) PI 0, 1);
                 (DirectionalPoint 1 0 (1 / 2) PI 0, 1)]));
      [reflexivity |].
    rewrite (fbind_ok _ _ plate_model (plate_model_at (-1)) tt)
      by reflexivity.
    rewrite (fbind_ok _ _ _ _ _ (plate_project (-1) (params example_task))).
    rewrite (fbind_ok _ _ (plate_model_at (-1)) (plate_model_at (-1))
               (plate_model_at (-1))) by reflexivity.
    rewrite (fbind_ok _ _ (plate_model_at (-1)) (plate_model_at (-1))
               [(DirectionalPoint (- (1 / 2)) 0 (1 / 2) PI 0, 1 / 2);
                (DirectionalPoint 0 0 (1 / 2) PI 0, 1 / 2)])
      by reflexivity.
    cbn [ffor_acc].
    rewrite (fbind_ok _ _ _ _ _ (plate_record_point ([], []) _ _)).
    rewrite (fbind_ok _ _ _ _ _ (plate_record_point _ _ _)).
    unfold total, ret. cbn [fst snd fs_set].
    replace (- (1 / 2) + 1) with (1 / 2) by lra.
    replace (0 + 1) with 1 by lra.
    destruct (Point_eq_dec (DirectionalPoint 1 0 (1 / 2) PI 0)
                (DirectionalPoint (1 / 2) 0 (1 / 2) PI 0)) as [E | _];
      [exfalso; exact (plate_points_differ E) | reflexivity].
Qed.

Lemma project_task_entries_witness :
  exists t m',
    @project TranslationGeometry PlateTriangles right_side_hidden 4 []
      "laser" "target" (1 / 2) plate_model
    = Some (Ok t, m') /\
    task_points t
    = [(DirectionalPoint (- (1 / 2)) 0 (1 / 2) PI 0, 1);
       (DirectionalPoint 0 0 (1 / 2) PI 0, 1)] /\
    m' = plate_model /\ params t = [] /\ mount t = Some "laser"%string /\
    existsb (String.eqb "laser") (lasers plate_model) = true /\
    exists lobj fan depth,
      laser_of plate_model "laser" = Ok (lobj, fan, depth) /\
      forall p v, fs_lookup (task_points t) p = Some v -> projected_entry fan p v.
Proof.
  eexists. eexists. split; [exact (plate_project 0 []) |].
  split; [reflexivity |].
  exact (@project_task_entries TranslationGeometry PlateTriangles
           right_side_hidden 4 [] "laser" "target" (1 / 2) plate_model
           plate_model _ (plate_project 0 [])).
Defined.

Lemma project_by_pitch_sign_witness :
  let m := wide_laser_model in
  (0 < -1 ->
   exists budget t,
     project no_occlusion budget [] "laser" "target" (-1) m = Some (Ok t, m)) /\
  (-1 = 0 ->
   forall budget,
     project no_occlusion budget [] "laser" "target" (-1) m
     = Some (Raise ZeroDivisionError, m)) /\
  (-1 < 0 -> 0 < 1 * tan (PI / 2 / 2) ->
   forall budget,
     project no_occlusion budget [] "laser" "target" (-1) m = None).
Proof.
  intros m.
  apply (project_by_pitch_sign no_occlusion [] "laser" "target" (-1) (PI / 2) 1
           m wide_laser example_target); reflexivity.
Defined.

Lemma example_extent :
  extent
    (flat_map (fun triangle =>
                 map (dot (PlainPoint 1 0 0))
                     (mapped_vertices (so_pose example_target) triangle))
              (triangles example_target))
  = Some (0, 2).
Proof.
  simpl flat_map. unfold dot. simpl.
  replace (1 * (0 + 0) + 0 * (0 + 0) + 0 * (0 + 0)) with 0 by lra.
  replace (1 * (2 + 0) + 0 * (0 + 0) + 0 * (0 + 0)) with 2 by lra.
  replace (1 * (0 + 0) + 0 * (1 + 0) + 0 * (0 + 0)) with 0 by lra.
  unfold extent. cbn [min_list max_list].
  rewrite (Rmin_left 0 2) by lra. rewrite (Rmin_left 0 0) by lra.
  rewrite (Rmax_right 0 2) by lra. rewrite (Rmax_left 2 0) by lra.
  reflexivity.
Qed.

Lemma range_coverage_without_steps_witness :
  range_coverage no_occlusion no_coverage 0 example_task "laser" "target"
                 1 3 (PlainPoint 1 0 0) "linear" None example_laser_model
  = Some (Ok ([], {| params := params example_task; task_points := [];
                     mount := None |}), example_laser_model).
Proof.
  apply (range_coverage_without_steps no_occlusion no_coverage 0 example_task
           "laser" "target" 1 3 (PlainPoint 1 0 0) (PlainPoint 1 0 0) None
           example_laser_model example_target 0 2).
  - reflexivity.
  - apply normal_x_axis.
  - apply example_extent.
  - right. lra.
Defined.

Lemma range_coverage_empty_target_witness :
  range_coverage no_occlusion no_coverage 0 example_task "laser" "laser"
                 1 1 (PlainPoint 1 0 0) "linear" None example_laser_model
  = Some (Raise (if Req_dec_T 1 0 then ZeroDivisionError else OverflowError),
          example_laser_model).
Proof.
  apply (range_coverage_empty_target no_occlusion no_coverage 0 example_task
           "laser" "laser" 1 1 (PlainPoint 1 0 0) (PlainPoint 1 0 0) None
           example_laser_model example_laser).
  - reflexivity.
  - reflexivity.
  - apply normal_x_axis.
Defined.

Lemma range_coverage_task_matches_coverage_witness :
  exists coverage task' m',
    @range_coverage TranslationGeometry PlateTriangles right_side_hidden
      half_coverage 4 example_task "laser" "target" (1 / 2) 2
      (PlainPoint 1 0 0) "linear" None plate_model
    = Some (Ok (coverage, task'), m') /\
    coverage
    = [(DirectionalPoint (1 / 2) 0 (1 / 2) PI 0, 1 / 2);
       (DirectionalPoint 1 0 (1 / 2) PI 0, 1 / 2)] /\
    task_points task'
    = [(DirectionalPoint (1 / 2) 0 (1 / 2) PI 0, 1);
       (DirectionalPoint 1 0 (1 / 2) PI 0, 1)] /\
    params task' = params example_task /\ mount task' = None /\
    caches_match (coverage, task_points task').
Proof.
  eexists. eexists. eexists. split; [exact plate_range_coverage |].
  split; [reflexivity |]. split; [reflexivity |].
  exact (@range_coverage_task_matches_coverage TranslationGeometry
           PlateTriangles right_side_hidden half_coverage 4 example_task
           "laser" "target" (1 / 2) 2 (PlainPoint 1 0 0) "linear" None
           plate_model plate_model _ _ plate_range_coverage).
Defined.

Lemma range_coverage_terminates_witness :
  exists budget r m',
    range_coverage no_occlusion no_coverage budget example_task "laser"
                   "target" 1 1 (PlainPoint 1 0 0) "linear" None
                   example_laser_model
    = Some (Ok r, m').
Proof.
  apply (range_coverage_terminates no_occlusion no_coverage example_task
           "laser" "target" 1 1 0 1 (PlainPoint 1 0 0) None
           example_laser_model example_target).
  - apply example_laser_model_ready.
  - reflexivity.
  - lra.
  - lra.
  - unfold dot. simpl. replace (1 * 1 + 0 * 0 + 0 * 0) with 1 by lra.
    rewrite sqrt_1. lra.
  - eexists. split; [left; reflexivity |]. simpl. discriminate.
  - intros m0 t. exists []. reflexivity.
Defined.

(** ** The laser keys of a range model *)

Section RangeModelKeys.
Context {G : Geometry} {TM : TriangleModel}.
Variable model_occluded : RangeModel -> Point -> string -> bool.

Lemma dict_get_del {V : Type} (d : list (string * V)) (k k' : string) :
  dict_get (dict_del d k) k'
  = if String.eqb k' k then None else dict_get d k'.
Proof.
  induction d as [| [q w] d IH]; simpl.
  - destruct (String.eqb k' k); reflexivity.
  - destruct (String.eqb k q) eqn:Ekq; simpl.
    + apply String.eqb_eq in Ekq. subst q. rewrite IH.
      destruct (String.eqb k' k); reflexivity.
    + rewrite IH. destruct (String.eqb k' q) eqn:Ek'q; [| reflexivity].
      apply String.eqb_eq in Ek'q. subst q.
      destruct (String.eqb k' k) eqn:E; [| reflexivity].
      apply String.eqb_eq in E. subst k'. rewrite String.eqb_refl in Ekq.
      discriminate.
Qed.

Lemma existsb_discard (key k : string) (l : list string) :
  existsb (String.eqb k) (filter (fun q => negb (String.eqb key q)) l) = true ->
  existsb (String.eqb k) l = true /\ String.eqb k key = false.
Proof.
  induction l as [| q l IH]; simpl; [discriminate |].
  destruct (String.eqb key q) eqn:Ekq; simpl.
  - intros H. destruct (IH H) as [H1 H2]. split; [| exact H2].
    rewrite H1. apply orb_true_r.
  - intros H. apply orb_true_iff in H. destruct H as [H | H].
    + split; [rewrite H; reflexivity |].
      apply String.eqb_eq in H. subst q. rewrite String.eqb_sym. exact Ekq.
    + destruct (IH H) as [H1 H2]. split; [| exact H2].
      rewrite H1. apply orb_true_r.
Qed.

Lemma existsb_app_key (k key : string) (l : list string) :
  existsb (String.eqb k) (l ++ [key])
  = existsb (String.eqb k) l || String.eqb k key.
Proof.
  rewrite existsb_app. simpl. rewrite orb_false_r. reflexivity.
Qed.

Lemma setitem_lasers_bound (key : string) (value : SceneObject) (m : RangeModel) :
  lasers_bound m -> lasers_bound (snd (RangeModel_setitem key value m)).
Proof.
  intros Hm k Hk. unfold RangeModel_setitem, modify in *.
  cbn [snd objects lasers] in *. rewrite dict_get_set.
  destruct (String.eqb k key) eqn:E; [discriminate |].
  apply Hm. destruct (line_laser value); [| exact Hk].
  destruct (existsb (String.eqb key) (lasers m)); [exact Hk |].
  rewrite existsb_app_key, E, orb_false_r in Hk. exact Hk.
Qed.

Lemma delitem_lasers_bound (key : string) (m : RangeModel) :
  lasers_bound m -> lasers_bound (snd (RangeModel_delitem key m)).
Proof.
  intros Hm k. unfold RangeModel_delitem, bind, modify, get, raise.
  cbn [fst snd objects lasers].
  destruct (dict_get (objects m) key) eqn:Eg; cbn [fst snd objects lasers];
    intros Hk; apply existsb_discard in Hk; destruct Hk as [Hk Hne].
  - rewrite dict_get_del, Hne. apply Hm. exact Hk.
  - apply Hm. exact Hk.
Qed.

Lemma set_absolute_pose_lasers_bound (key : string) (P : Pose) (m : RangeModel) :
  lasers_bound m -> lasers_bound (snd (set_absolute_pose key P m)).
Proof.
  intros Hm k. unfold set_absolute_pose, bind, getobj, modify.
  destruct (dict_get (objects m) key) eqn:Eg; cbn [fst snd objects lasers];
    intros Hk.
  - rewrite dict_get_set. destruct (String.eqb k key); [discriminate |].
    apply Hm. exact Hk.
  - apply Hm. exact Hk.
Qed.

Lemma run_ops_lasers_bound (ops : list model_op) (m : RangeModel) :
  lasers_bound m -> lasers_bound (run_ops ops m).
Proof.
  revert m. induction ops as [| op ops IH]; intros m Hm; [exact Hm |].
  unfold run_ops. cbn [fold_left]. apply IH.
  destruct op as [key value | key | key P]; cbn [run_op].
  - apply setitem_lasers_bound. exact Hm.
  - apply delitem_lasers_bound. exact Hm.
  - apply set_absolute_pose_lasers_bound. exact Hm.
Qed.

(** X17 ([RangeModel.__init__], [__setitem__], [__delitem__]): in a model
    built from a new one by any history of item assignments, item deletions
    and pose changes, whether they raise or not, every key of [lasers] is
    bound to an object; so [project] with a key that passes its laser test
    never fails to find the object. *)
Theorem laser_keys_are_bound (ops : list model_op) (key : string) :
  existsb (String.eqb key) (lasers (run_ops ops RangeModel_init)) = true ->
  exists o, getobj key (run_ops ops RangeModel_init)
            = (Ok o, run_ops ops RangeModel_init).
Proof.
  intros Hk.
  assert (Hb : lasers_bound (run_ops ops RangeModel_init)).
  { apply run_ops_lasers_bound. intros k Hk'. discriminate Hk'. }
  specialize (Hb key Hk). unfold getobj.
  destruct (dict_get (objects (run_ops ops RangeModel_init)) key) as [o |];
    [| contradiction].
  exists o. reflexivity.
Qed.

(** X18 ([RangeModel.__setitem__], [RangeModel.project]): item assignment
    never removes a key from [lasers].  When a key that held a line laser is
    assigned an object that is no line laser, the key is still in [lasers];
    [project] then passes its laser test and raises [AttributeError] on
    reading the laser's depth, not the [KeyError] of an invalid laser. *)
Theorem setitem_keeps_stale_laser_key (m : RangeModel) (key : string)
    (laser_obj other : SceneObject) :
  line_laser laser_obj <> None ->
  line_laser other = None ->
  let m1 := snd (RangeModel_setitem key laser_obj m) in
  let m2 := snd (RangeModel_setitem key other m1) in
  existsb (String.eqb key) (lasers m2) = true /\
  getobj key m2 = (Ok other, m2) /\
  forall budget task_params target lpitch,
    project model_occluded budget task_params key target lpitch m2
    = Some (Raise AttributeError, m2).
Proof.
  intros Hl Ho m1 m2.
  assert (H1 : existsb (String.eqb key) (lasers m1) = true).
  { unfold m1, RangeModel_setitem, modify. cbn [snd lasers].
    destruct (line_laser laser_obj); [| contradiction].
    destruct (existsb (String.eqb key) (lasers m)) eqn:E; [exact E |].
    rewrite existsb_app_key, String.eqb_refl. apply orb_true_r. }
  assert (H2 : existsb (String.eqb key) (lasers m2) = true).
  { unfold m2, RangeModel_setitem, modify. cbn [snd lasers].
    rewrite Ho. exact H1. }
  assert (Hg : dict_get (objects m2) key = Some other).
  { unfold m2, RangeModel_setitem, modify. cbn [snd objects].
    rewrite dict_get_set, String.eqb_refl. reflexivity. }
  split; [exact H2 |]. split.
  - unfold getobj. rewrite Hg. reflexivity.
  - intros budget task_params target lpitch. unfold project.
    rewrite H2. cbn [negb]. unfold laser_of. rewrite Hg, Ho. reflexivity.
Qed.

End RangeModelKeys.

Lemma laser_keys_are_bound_witness :
  existsb (String.eqb "laser")
    (lasers (run_ops [OpSetitem "laser" example_laser; OpDelitem "target"]
                     RangeModel_init)) = true /\
  exists o, getobj "laser"
              (run_ops [OpSetitem "laser" example_laser; OpDelitem "target"]
                       RangeModel_init)
            = (Ok o, run_ops [OpSetitem "laser" example_laser;
                              OpDelitem "target"] RangeModel_init).
Proof.
  split; [reflexivity |].
  apply (laser_keys_are_bound
           [OpSetitem "laser" example_laser; OpDelitem "target"] "laser").
  reflexivity.
Defined.

Lemma setitem_keeps_stale_laser_key_witness :
  line_laser example_laser <> None /\
  line_laser example_target = None /\
  let m1 := snd (RangeModel_setitem "laser" example_laser RangeModel_init) in
  let m2 := snd (RangeModel_setitem "laser" example_target m1) in
  existsb (String.eqb "laser") (lasers m2) = true /\
  getobj "laser" m2 = (Ok example_target, m2) /\
  forall budget task_params target lpitch,
    project no_occlusion budget task_params "laser" target lpitch m2
    = Some (Raise AttributeError, m2).
Proof.
  split; [discriminate |]. split; [reflexivity |].
  apply (setitem_keeps_stale_laser_key no_occlusion RangeModel_init "laser"
           example_laser example_target).
  - discriminate.
  - reflexivity.
Defined.

(** ** The joint position and the configuration of the robot arm *)

Lemma closed_range_spec (lo hi v : R) :
  closed_range (lo, hi) v = true <-> lo <= v <= hi.
Proof.
  unfold closed_range, Rleb. cbn [fst snd].
  destruct (Rle_dec lo v), (Rle_dec v hi); cbn [andb]; split;
    try (intros; lra); try discriminate; reflexivity.
Qed.

Section RobotMore.
Variable in_range : R * R -> R -> bool.
Hypothesis in_range_closed :
  forall lo hi v, in_range (lo, hi) v = true <-> lo <= v <= hi.

Lemma validate_six (j1 j2 j3 j4 j5 j6 : R) :
  validate in_range [j1; j2; j3; j4; j5; j6]
  = Ok (in_range (-150, 150) j1 &&
        (in_range (-60, 120) j2 &&
         (in_range (60, 155) j3 &&
          (in_range (-160, 160) j4 &&
           (in_range (-90, 90) j5 && (in_range (-200, 200) j6 && true)))))).
Proof. reflexivity. Qed.

Lemma validate_wrong_length (position : list R) :
  List.length position <> 6%nat -> validate in_range position = Ok false.
Proof.
  intros H. unfold validate.
  destruct (Nat.eqb_spec (List.length position) 6); [contradiction |].
  reflexivity.
Qed.

Lemma validate_returns (position : list R) :
  exists b, validate in_range position = Ok b.
Proof.
  destruct (Nat.eq_dec (List.length position) 6) as [E | E].
  - destruct position as [| j1 [| j2 [| j3 [| j4 [| j5 [| j6 [| j7 l]]]]]]];
      try discriminate E.
    eexists. apply validate_six.
  - exists false. apply validate_wrong_length. exact E.
Qed.

Lemma default_position_valid : validate in_range default_position = Ok true.
Proof.
  unfold default_position. rewrite validate_six. f_equal.
  repeat (apply andb_true_intro; split); try reflexivity;
    apply in_range_closed; lra.
Qed.

(** What the setter of [position] does, by the value assigned. *)
Lemma position_set_cases (value : option (list R)) (self : MitsubishiRV1A) :
  (exists pos,
     position_set in_range value self
     = (Ok tt, {| tool_length := tool_length self; _position := Some pos |}) /\
     validate in_range pos = Ok true /\
     (value = Some pos /\ pos <> [] \/
      (value = None \/ value = Some []) /\ pos = default_position))
  \/
  (position_set in_range value self = (Raise ValueError, self) /\
   exists v, value = Some v /\ v <> [] /\ validate in_range v = Ok false).
Proof.
  destruct value as [[| x v] |].
  - left. exists default_position. split; [reflexivity |].
    split; [apply default_position_valid |]. right. split; [| reflexivity].
    right. reflexivity.
  - destruct (validate_returns (x :: v)) as [b Hb]. destruct b.
    + left. exists (x :: v). split.
      * unfold position_set, bind, lift. rewrite Hb. reflexivity.
      * split; [exact Hb |]. left. split; [reflexivity | discriminate].
    + right. split.
      * unfold position_set, bind, lift. rewrite Hb. reflexivity.
      * exists (x :: v). split; [reflexivity |]. split; [discriminate | exact Hb].
  - left. exists default_position. split; [reflexivity |].
    split; [apply default_position_valid |]. right. split; [| reflexivity].
    left. reflexivity.
Qed.

(** X19 ([MitsubishiRV1A.validate]): with membership in a [RealRange] being
    membership in the closed interval, [validate] never raises, and it
    accepts exactly the positions of six joint angles that lie within the
    joint ranges, in degrees: [-150, 150], [-60, 120], [60, 155],
    [-160, 160], [-90, 90] and [-200, 200]. *)
Theorem validate_joint_limits (position : list R) :
  exists b,
    validate in_range position = Ok b /\
    (b = true <->
     exists j1 j2 j3 j4 j5 j6,
       position = [j1; j2; j3; j4; j5; j6] /\
       -150 <= j1 <= 150 /\ -60 <= j2 <= 120 /\ 60 <= j3 <= 155 /\
       -160 <= j4 <= 160 /\ -90 <= j5 <= 90 /\ -200 <= j6 <= 200).
Proof.
  destruct (Nat.eq_dec (List.length position) 6) as [E | E].
  - destruct position as [| j1 [| j2 [| j3 [| j4 [| j5 [| j6 [| j7 l]]]]]]];
      try discriminate E.
    eexists. split; [apply validate_six |]. split.
    + intros H.
      apply andb_prop in H. destruct H as [H1 H].
      apply andb_prop in H. destruct H as [H2 H].
      apply andb_prop in H. destruct H as [H3 H].
      apply andb_prop in H. destruct H as [H4 H].
      apply andb_prop in H. destruct H as [H5 H].
      apply andb_prop in H. destruct H as [H6 _].
      exists j1, j2, j3, j4, j5, j6. split; [reflexivity |].
      apply in_range_closed in H1, H2, H3, H4, H5, H6.
      repeat split; lra.
    + intros (k1 & k2 & k3 & k4 & k5 & k6 & Heq & H1 & H2 & H3 & H4 & H5 & H6).
      injection Heq as -> -> -> -> -> ->.
      repeat (apply andb_true_intro; split); try reflexivity;
        apply in_range_closed; assumption.
  - exists false. split; [apply validate_wrong_length; exact E |].
    split; [discriminate |].
    intros (k1 & k2 & k3 & k4 & k5 & k6 & Heq & _). subst position.
    exfalso. apply E. reflexivity.
Qed.

(** X20 (the setter of [MitsubishiRV1A.position]): the setter either stores a
    position that [validate] accepts and leaves the tool length as it was,
    or raises [ValueError] and leaves the robot as it was.  It stores the
    value assigned when that is not empty, and the default position
    [(0, 0, 90, 0, 0, 0)], which is itself within the joint ranges, for
    [None] and for the empty tuple; it raises exactly for a value that is
    not empty and that [validate] rejects.  Membership in a [RealRange] is
    taken to be membership in the closed interval. *)
Theorem position_set_keeps_position_valid (value : option (list R))
    (self : MitsubishiRV1A) :
  (exists pos,
     position_set in_range value self
     = (Ok tt, {| tool_length := tool_length self; _position := Some pos |}) /\
     validate in_range pos = Ok true /\
     (value = Some pos /\ pos <> [] \/
      (value = None \/ value = Some []) /\ pos = default_position))
  \/
  (position_set in_range value self = (Raise ValueError, self) /\
   exists v, value = Some v /\ v <> [] /\ validate in_range v = Ok false).
Proof. apply position_set_cases. Qed.

(** X21 (the setter of [MitsubishiRV1A.config]): the setter assigns the tool
    length before it assigns the position.  When the position part is not
    empty and [validate] rejects it, the setter raises [ValueError] with the
    new tool length already stored and the old position kept: the robot is
    left with a configuration that mixes the two, which the getter of
    [config] then returns. *)
Theorem config_set_rejected_keeps_tool_length (t : R) (rest : list R)
    (self : MitsubishiRV1A) :
  rest <> [] ->
  validate in_range rest = Ok false ->
  let self' := {| tool_length := Some t; _position := _position self |} in
  config_set in_range (Some (t :: rest)) self = (Raise ValueError, self') /\
  forall p0, _position self = Some p0 ->
             config_get self' = (Ok (t :: p0), self').
Proof.
  intros Hne Hv self'. split.
  - destruct rest as [| x v]; [contradiction |].
    unfold config_set, bind, modify. cbn [fst snd].
    unfold position_set, bind, lift. rewrite Hv. reflexivity.
  - intros p0 Hp. unfold config_get, bind, get, position_get, ret, self'.
    cbn [fst snd tool_length _position]. rewrite Hp. reflexivity.
Qed.

(** X22 (the setter and the getter of [MitsubishiRV1A.config]): after the
    setter of [config] has returned for the value [[t] + rest], the getter
    returns the tool length [t] followed by a position that [validate]
    accepts: [rest] itself when it is not empty, the default position when
    it is empty.  So reading back a configuration that holds the tool
    length only gives seven values, not one.  Membership in a [RealRange]
    is taken to be membership in the closed interval. *)
Theorem config_set_then_get (t : R) (rest : list R)
    (self self' : MitsubishiRV1A) :
  config_set in_range (Some (t :: rest)) self = (Ok tt, self') ->
  exists pos,
    config_get self' = (Ok (t :: pos), self') /\
    validate in_range pos = Ok true /\
    (rest <> [] -> pos = rest) /\
    (rest = [] -> pos = default_position).
Proof.
  intros H. unfold config_set, bind, modify in H. cbn [fst snd] in H.
  destruct (position_set_cases (Some rest)
              {| tool_length := Some t; _position := _position self |})
    as [(pos & Hs & Hv & Hc) | (Hs & _)].
  - rewrite Hs in H. injection H as <-. exists pos. split.
    + reflexivity.
    + split; [exact Hv |]. destruct Hc as [[Heq Hne] | [[Heq | Heq] Hd]].
      * injection Heq as ->. split; [reflexivity |]. intros ->. contradiction.
      * discriminate Heq.
      * injection Heq as ->. split; [intros Hc; contradiction | intros _; exact Hd].
  - rewrite Hs in H. discriminate H.
Qed.

End RobotMore.

Lemma validate_joint_limits_witness :
  exists b,
    validate closed_range default_position = Ok b /\
    (b = true <->
     exists j1 j2 j3 j4 j5 j6,
       default_position = [j1; j2; j3; j4; j5; j6] /\
       -150 <= j1 <= 150 /\ -60 <= j2 <= 120 /\ 60 <= j3 <= 155 /\
       -160 <= j4 <= 160 /\ -90 <= j5 <= 90 /\ -200 <= j6 <= 200).
Proof.
  exact (validate_joint_limits closed_range closed_range_spec default_position).
Defined.

Lemma position_set_keeps_position_valid_witness :
  (exists pos,
     position_set closed_range (Some [0; 0; 200; 0; 0; 0])
       {| tool_length := Some 5; _position := None |}
     = (Ok tt, {| tool_length := Some 5; _position := Some pos |}) /\
     validate closed_range pos = Ok true /\
     (Some [0; 0; 200; 0; 0; 0] = Some pos /\ pos <> [] \/
      (Some [0; 0; 200; 0; 0; 0] = None \/ Some [0; 0; 200; 0; 0; 0] = Some [])
      /\ pos = default_position))
  \/
  (position_set closed_range (Some [0; 0; 200; 0; 0; 0])
     {| tool_length := Some 5; _position := None |}
   = (Raise ValueError, {| tool_length := Some 5; _position := None |}) /\
   exists v, Some [0; 0; 200; 0; 0; 0] = Some v /\ v <> [] /\
             validate closed_range v = Ok false).
Proof.
  exact (position_set_keeps_position_valid closed_range closed_range_spec
           (Some [0; 0; 200; 0; 0; 0])
           {| tool_length := Some 5; _position := None |}).
Defined.

Lemma config_set_rejected_keeps_tool_length_witness :
  [30] <> [] /\
  validate closed_range [30] = Ok false /\
  let self' := {| tool_length := Some 7; _position := Some default_position |} in
  config_set closed_range (Some [7; 30])
    {| tool_length := Some 5; _position := Some default_position |}
  = (Raise ValueError, self') /\
  forall p0, Some default_position = Some p0 ->
             config_get self' = (Ok (7 :: p0), self').
Proof.
  split; [discriminate |]. split; [reflexivity |].
  apply (config_set_rejected_keeps_tool_length closed_range 7 [30]
           {| tool_length := Some 5; _position := Some default_position |}).
  - discriminate.
  - reflexivity.
Defined.

Lemma config_set_then_get_witness :
  config_set closed_range (Some [7])
    {| tool_length := None; _position := None |}
  = (Ok tt, {| tool_length := Some 7; _position := Some default_position |}) /\
  exists pos,
    config_get {| tool_length := Some 7; _position := Some default_position |}
    = (Ok (7 :: pos),
       {| tool_length := Some 7; _position := Some default_position |}) /\
    validate closed_range pos = Ok true /\
    (@nil R <> [] -> pos = []) /\
    (@nil R = [] -> pos = default_position).
Proof.
  split; [reflexivity |].
  apply (config_set_then_get closed_range closed_range_spec 7 []
           {| tool_length := None; _position := None |}
           {| tool_length := Some 7; _position := Some default_position |}).
  reflexivity.
Defined.
